(** * Verification pipeline of the project-health scripts

    A shallow embedding of the two scripts that make up the verification
    pipeline:

    - the battery runner ([runCommand], [filterLogScriptErrors],
      [checkForRemainingErrors], [filterLogScriptLines],
      [checkIfErrorIsRecurrent], [generateComprehensiveLog]), and
    - the log analyser ([hasError], [extractErrorDetails],
      [generateSpecificCommandsFromFailedTests]).

    JavaScript strings are sequences of UTF-16 code units; they are modelled
    as lists of [N].  Console output is not modelled.  The file system, the
    clock and the process table are explicit inputs. *)

From Stdlib Require Import List NArith ZArith Bool Lia Ascii String DecimalString.
From Stdlib Require Import Permutation Sorted.
Import ListNotations.

(** ** JavaScript strings *)

Module JS.

(** A string value: its UTF-16 code units. *)
Definition jsstring := list N.

(** *** Literals

    String literals of the scripts are written as Rocq string literals
    (UTF-8 bytes) and decoded to code units by [lit]. *)

Definition byteN (a : ascii) : N := N_of_ascii a.

(** Continuation byte payload (low six bits). *)
Definition cont (b : N) : N := N.land b 63.

Fixpoint utf8_points (bs : list N) : list N :=
  match bs with
  | [] => []
  | b :: r =>
    if (b <? 128)%N then b :: utf8_points r
    else if (b <? 224)%N then
      match r with
      | b1 :: r1 => (N.land b 31 * 64 + cont b1)%N :: utf8_points r1
      | _ => [b]
      end
    else if (b <? 240)%N then
      match r with
      | b1 :: b2 :: r2 =>
        (N.land b 15 * 4096 + cont b1 * 64 + cont b2)%N :: utf8_points r2
      | _ => [b]
      end
    else
      match r with
      | b1 :: b2 :: b3 :: r3 =>
        (N.land b 7 * 262144 + cont b1 * 4096 + cont b2 * 64 + cont b3)%N
          :: utf8_points r3
      | _ => [b]
      end
  end.

(** One code point as one or two UTF-16 code units. *)
Definition utf16_units (cp : N) : list N :=
  if (cp <? 65536)%N then [cp]
  else let v := (cp - 65536)%N in
       [(55296 + N.shiftr v 10)%N; (56320 + N.land v 1023)%N].

Definition lit (s : string) : jsstring :=
  flat_map utf16_units (utf8_points (map byteN (list_ascii_of_string s))).

Arguments lit s%_string.

(** *** Character classes *)

(** White space and line terminators: the set removed by
    [String.prototype.trim] and matched by the regular-expression class
    [\s]. *)
Definition isWhiteSpace (c : N) : bool :=
  ((9 <=? c) && (c <=? 13) || (c =? 32) || (c =? 160) || (c =? 5760)
   || (8192 <=? c) && (c <=? 8202) || (c =? 8232) || (c =? 8233)
   || (c =? 8239) || (c =? 8287) || (c =? 12288) || (c =? 65279))%N.

(** Line terminators, excluded by the regular-expression dot. *)
Definition isLineTerminator (c : N) : bool :=
  ((c =? 10) || (c =? 13) || (c =? 8232) || (c =? 8233))%N.

Definition isDigit (c : N) : bool := ((48 <=? c) && (c <=? 57))%N.

(** *** Case conversion

    [toLowerCase] maps code units one by one.  The mapping covers the ASCII
    letters and the Latin-1 capitals (which is every capital the scripts
    themselves print); capitals of other scripts and the context-dependent
    special casings of Unicode are left unchanged by this model. *)
Definition lowerUnit (c : N) : N :=
  if ((65 <=? c) && (c <=? 90))%N then (c + 32)%N
  else if ((192 <=? c) && (c <=? 222) && negb (c =? 215))%N then (c + 32)%N
  else c.

Definition toLowerCase (s : jsstring) : jsstring := map lowerUnit s.

(** *** Searching *)

Fixpoint startsWith (s p : jsstring) {struct p} : bool :=
  match p with
  | [] => true
  | c :: p' =>
    match s with
    | [] => false
    | d :: s' => (c =? d)%N && startsWith s' p'
    end
  end.

Fixpoint includes (s p : jsstring) : bool :=
  startsWith s p ||
  match s with
  | [] => false
  | _ :: s' => includes s' p
  end.

Definition endsWith (s p : jsstring) : bool := startsWith (rev s) (rev p).

Definition eqs (a b : jsstring) : bool :=
  (List.length a =? List.length b)%nat && startsWith a b.

(** A string in a boolean position: the empty string is falsy. *)
Definition truthy (s : jsstring) : bool :=
  match s with [] => false | _ => true end.

(** *** Trimming *)

Fixpoint trimStart (s : jsstring) : jsstring :=
  match s with
  | [] => []
  | c :: s' => if isWhiteSpace c then trimStart s' else s
  end.

Definition trimEnd (s : jsstring) : jsstring := rev (trimStart (rev s)).

Definition trim (s : jsstring) : jsstring := trimEnd (trimStart s).

(** *** Splitting and joining *)

Definition nl : jsstring := [10%N].

(** [s.split('\n')]: never empty, one more piece than there are line feeds. *)
Fixpoint splitLines (s : jsstring) : list jsstring :=
  match s with
  | [] => [[]]
  | c :: s' =>
    if (c =? 10)%N then [] :: splitLines s'
    else match splitLines s' with
         | l :: ls => (c :: l) :: ls
         | [] => [[c]]
         end
  end.

Fixpoint join (sep : jsstring) (ls : list jsstring) : jsstring :=
  match ls with
  | [] => []
  | [l] => l
  | l :: ls' => l ++ sep ++ join sep ls'
  end.

(** [s.split(sep)] for a non-empty separator.  [skip] counts the units of a
    separator occurrence still to be dropped, [cur] is the current piece in
    reverse. *)
Fixpoint splitOnAux (sep s : jsstring) (skip : nat) (cur : jsstring)
  : list jsstring :=
  match s with
  | [] => [rev cur]
  | c :: s' =>
    match skip with
    | S k => splitOnAux sep s' k cur
    | O =>
      if startsWith s sep
      then rev cur :: splitOnAux sep s' (List.length sep - 1) []
      else splitOnAux sep s' 0 (c :: cur)
    end
  end.

Definition splitOn (sep s : jsstring) : list jsstring :=
  splitOnAux sep s 0 [].

(** *** Numbers *)

(** A number value as far as the scripts use one: an integer or NaN. *)
Inductive jsnumber := JNum (z : Z) | JNaN.

(** Decimal rendering of an integer, as in a template literal. *)
Definition numToString (z : Z) : jsstring :=
  lit (NilZero.string_of_int (Z.to_int z)).

Definition natToString (n : nat) : jsstring := numToString (Z.of_nat n).

Definition digitValue (c : N) : Z := Z.of_N (c - 48).

Fixpoint digitsPrefix (s : jsstring) : jsstring :=
  match s with
  | c :: s' => if isDigit c then c :: digitsPrefix s' else []
  | [] => []
  end.

Definition decimalValue (ds : jsstring) : Z :=
  fold_left (fun acc c => (acc * 10 + digitValue c)%Z) ds 0%Z.

Definition hexValueOf (c : N) : option Z :=
  if isDigit c then Some (Z.of_N (c - 48))
  else if ((97 <=? c) && (c <=? 102))%N then Some (Z.of_N (c - 87))
  else if ((65 <=? c) && (c <=? 70))%N then Some (Z.of_N (c - 55))
  else None.

Fixpoint hexPrefix (s : jsstring) : list Z :=
  match s with
  | c :: s' => match hexValueOf c with
               | Some v => v :: hexPrefix s'
               | None => []
               end
  | [] => []
  end.

(** [parseInt(s)] without a radix: leading white space, an optional sign,
    a hexadecimal prefix or a run of decimal digits.  (Values beyond the
    exactly representable range of a double are not rounded here.) *)
Definition parseUnsigned (s : jsstring) : jsnumber :=
  match s with
  | 48%N :: x :: s' =>
    if ((x =? 120) || (x =? 88))%N then
      match hexPrefix s' with
      | [] => JNaN
      | hs => JNum (fold_left (fun acc v => (acc * 16 + v)%Z) hs 0%Z)
      end
    else JNum (decimalValue (digitsPrefix s))
  | _ =>
    match digitsPrefix s with
    | [] => JNaN
    | ds => JNum (decimalValue ds)
    end
  end.

Definition parseInt (s : jsstring) : jsnumber :=
  match trimStart s with
  | 45%N :: s' =>
    match parseUnsigned s' with JNum z => JNum (- z)%Z | JNaN => JNaN end
  | 43%N :: s' => parseUnsigned s'
  | s' => parseUnsigned s'
  end.

(** [c.repeat(n)] for a one-unit string. *)
Definition repeatUnit (c : N) (n : nat) : jsstring := repeat c n.

End JS.

Import JS.

(** ** Regular expressions

    The patterns of the scripts are flat: literals, character classes,
    quantified character classes (greedy or lazy) and capture groups, without
    alternation.  [run] is the backtracking matcher of the language for this
    fragment; group 0 is the whole match. *)

Module Regex.

Inductive node :=
| Chr (c : N)
| Cls (p : N -> bool)
| Rep (p : N -> bool) (min : nat) (max : option nat) (greedy : bool)
| Open (i : nat)
| Close (i : nat).

Definition regex := list node.

(** Capture state: groups being filled (text in reverse) and groups done. *)
Record mstate := MState {
  opened : list (nat * jsstring);
  closed : list (nat * jsstring)
}.

Definition st0 : mstate := MState [] [].

Definition feed (c : N) (st : mstate) : mstate :=
  MState (map (fun ib => (fst ib, c :: snd ib)) (opened st)) (closed st).

Definition openGroup (i : nat) (st : mstate) : mstate :=
  MState ((i, []) :: opened st) (closed st).

Definition closeGroup (i : nat) (st : mstate) : mstate :=
  MState (filter (fun ib => negb (fst ib =? i)%nat) (opened st))
         (map (fun ib => (fst ib, rev (snd ib)))
              (filter (fun ib => (fst ib =? i)%nat) (opened st))
          ++ closed st).

(** The text of group [i]; [None] is [undefined]. *)
Definition group (i : nat) (st : mstate) : option jsstring :=
  match find (fun ib => (fst ib =? i)%nat) (closed st) with
  | Some ib => Some (snd ib)
  | None => None
  end.

Definition below (n : nat) (mx : option nat) : bool :=
  match mx with
  | None => true
  | Some m => (n <? m)%nat
  end.

Fixpoint run (r : regex) (s : jsstring) (st : mstate) {struct r}
  : option mstate :=
  match r with
  | [] => Some st
  | Chr c :: r' =>
    match s with
    | d :: s' => if (c =? d)%N then run r' s' (feed d st) else None
    | [] => None
    end
  | Cls p :: r' =>
    match s with
    | d :: s' => if p d then run r' s' (feed d st) else None
    | [] => None
    end
  | Open i :: r' => run r' s (openGroup i st)
  | Close i :: r' => run r' s (closeGroup i st)
  | Rep p mn mx g :: r' =>
    (fix rep (s : jsstring) (n : nat) (st : mstate) {struct s}
       : option mstate :=
       match s with
       | d :: s' =>
         if p d && below n mx then
           if g then
             match rep s' (S n) (feed d st) with
             | Some x => Some x
             | None => if (mn <=? n)%nat then run r' s st else None
             end
           else
             match (if (mn <=? n)%nat then run r' s st else None) with
             | Some x => Some x
             | None => rep s' (S n) (feed d st)
             end
         else if (mn <=? n)%nat then run r' s st else None
       | [] => if (mn <=? n)%nat then run r' s st else None
       end) s 0%nat st
  end.

(** A match attempt at the start of [s]. *)
Definition matchAt (r : regex) (s : jsstring) : option mstate :=
  run (Open 0 :: r ++ [Close 0]) s st0.

Definition matchedText (m : mstate) : jsstring :=
  match group 0 m with
  | Some t => t
  | None => []
  end.

(** All matches of a global pattern, left to right, without overlap.
    [skip] counts the units of the last match still to be passed. *)
Fixpoint matchAllAux (r : regex) (s : jsstring) (skip : nat) {struct s}
  : list mstate :=
  match s with
  | [] =>
    match skip with
    | O => match matchAt r [] with Some m => [m] | None => [] end
    | S _ => []
    end
  | _ :: s' =>
    match skip with
    | S k => matchAllAux r s' k
    | O =>
      match matchAt r s with
      | Some m => m :: matchAllAux r s' (List.length (matchedText m) - 1)
      | None => matchAllAux r s' 0
      end
    end
  end.

Definition matchAll (r : regex) (s : jsstring) : list mstate :=
  matchAllAux r s 0.

(** [re.test(s)], and [s.match(re)] for a pattern without the global flag. *)
Fixpoint exec (r : regex) (s : jsstring) : option mstate :=
  match matchAt r s with
  | Some m => Some m
  | None =>
    match s with
    | [] => None
    | _ :: s' => exec r s'
    end
  end.

Definition test (r : regex) (s : jsstring) : bool :=
  match exec r s with Some _ => true | None => false end.

(** Pattern syntax. *)
Definition str (s : string) : regex := map Chr (lit s).
Arguments str s%_string.

Definition nonSpace (c : N) : bool := negb (isWhiteSpace c).
Definition dot (c : N) : bool := negb (isLineTerminator c).
Definition only (a : N) (c : N) : bool := (a =? c)%N.

Definition plus (p : N -> bool) : node := Rep p 1 None true.
Definition star (p : N -> bool) : node := Rep p 0 None true.
Definition lazyPlus (p : N -> bool) : node := Rep p 1 None false.
Definition opt (p : N -> bool) : node := Rep p 0 (Some 1%nat) true.
Definition times (n : nat) (p : N -> bool) : node := Rep p n (Some n) true.

End Regex.

Import Regex.

(** ** The battery runner *)

Module BuildLogger.

(** One execution outcome.  [code] is [None] when the process was ended by a
    signal (a null exit code).  The optional flags [skipped] and [filtered]
    are only ever read for their truth value: an absent flag is [false]. *)
Record CheckResult := mkResult {
  command : jsstring;
  description : jsstring;
  code : option Z;
  success : bool;
  stdout : jsstring;
  stderr : jsstring;
  output : jsstring;
  timestamp : jsstring;
  skipped : bool;
  filtered : bool
}.

(** What the spawned process did first: it closed, with the text captured
    on its two streams, or it could not be started. *)
Inductive ProcessEvent :=
| OnClose (exitCode : option Z) (out err : jsstring)
| OnError (message : jsstring).

Definition isZero (c : option Z) : bool :=
  match c with
  | Some z => (z =? 0)%Z
  | None => false
  end.

Definition commandLine (cmd : jsstring) (args : list jsstring) : jsstring :=
  cmd ++ lit " " ++ join (lit " ") args.

(** [runCommand]: the result the promise resolves with.  [now] is the
    instant of resolution in ISO form. *)
Definition runCommand (cmd : jsstring) (args : list jsstring)
  (descr now : jsstring) (ev : ProcessEvent) : CheckResult :=
  match ev with
  | OnClose c out err =>
    {| command := commandLine cmd args;
       description := descr;
       code := c;
       success := isZero c;
       stdout := trim out;
       stderr := trim err;
       output := trim (out ++ err);
       timestamp := now;
       skipped := false;
       filtered := false |}
  | OnError message =>
    {| command := commandLine cmd args;
       description := descr;
       code := Some (-1)%Z;
       success := false;
       stdout := [];
       stderr := message;
       output := message;
       timestamp := now;
       skipped := true;
       filtered := false |}
  end.

(** *** Noise filter *)

Definition logScriptFiles : list jsstring :=
  [lit "build-logger.js"; lit "analyze-logs.js"; lit "setup-ignore-scripts.js"].

Definition quote : jsstring := [34%N].

(** Does the line refer to one of the files, in any of the five forms? *)
Definition hasScriptReference (files : list jsstring) (line : jsstring)
  : bool :=
  existsb (fun scriptFile =>
    includes line scriptFile
    || includes line (lit "./" ++ scriptFile)
    || includes line (lit "/" ++ scriptFile)
    || includes line (quote ++ scriptFile ++ quote)
    || includes line (lit "'" ++ scriptFile ++ lit "'")) files.

Definition filterLogScriptLines (text : jsstring) (files : list jsstring)
  : jsstring :=
  if truthy text
  then join nl (filter (fun line => negb (hasScriptReference files line))
                       (splitLines text))
  else [].

Definition errorIndicators : list jsstring :=
  [lit "error"; lit "Error:"; lit "TypeError:"; lit "SyntaxError:";
   lit "ReferenceError:"; lit "warning"; lit "Warning:"; lit "fail";
   lit "failed"; lit "FAIL"; lit "FAILED"].

Definition checkForRemainingErrors (out sout serr : jsstring) : bool :=
  let combinedText := trim (out ++ sout ++ serr) in
  if truthy combinedText then
    let lowerText := toLowerCase combinedText in
    existsb (fun indicator => includes lowerText (toLowerCase indicator))
            errorIndicators
  else false.

Definition hasLogScriptError (result : CheckResult) : bool :=
  existsb (fun scriptFile =>
    includes (output result) scriptFile
    || includes (stdout result) scriptFile
    || includes (stderr result) scriptFile) logScriptFiles.

(** The body of the [map] in [filterLogScriptErrors]. *)
Definition filterResult (result : CheckResult) : CheckResult :=
  if skipped result || success result then result
  else if hasLogScriptError result then
    let filteredOutput := filterLogScriptLines (output result) logScriptFiles in
    let filteredStdout := filterLogScriptLines (stdout result) logScriptFiles in
    let filteredStderr := filterLogScriptLines (stderr result) logScriptFiles in
    let hasRemainingErrors :=
      checkForRemainingErrors filteredOutput filteredStdout filteredStderr in
    if negb hasRemainingErrors then
      {| command := command result;
         description := description result;
         code := Some 0%Z;
         success := true;
         stdout := [];
         stderr := [];
         output := [];
         timestamp := timestamp result;
         skipped := skipped result;
         filtered := true |}
    else
      {| command := command result;
         description := description result;
         code := code result;
         success := success result;
         stdout := filteredStdout;
         stderr := filteredStderr;
         output := filteredOutput;
         timestamp := timestamp result;
         skipped := skipped result;
         filtered := true |}
  else result.

Definition filterLogScriptErrors (testResults : list CheckResult)
  : list CheckResult :=
  map filterResult testResults.

(** *** Recurrence detector *)

(** An entry of the history directory: its name, its modification time in
    milliseconds ([None] when [statSync] throws on it) and its text
    ([None] when reading it throws). *)
Record LogFile := mkLog {
  logName : jsstring;
  mtime : option Z;
  content : option jsstring
}.

(** The history directory: missing, present but not listable, or listed in
    directory order. *)
Inductive LogsDir :=
| DirAbsent
| DirUnreadable
| DirEntries (entries : list LogFile).

(** The comparator [(a, b) => bTime - aTime], which examines both files:
    [None] when a [statSync] throws. *)
Definition compareMtime (a b : LogFile) : option Z :=
  match mtime a, mtime b with
  | Some aTime, Some bTime => Some (bTime - aTime)%Z
  | _, _ => None
  end.

(** [sort(compareMtime)]: newest first; the sort is stable, and a
    comparison that throws aborts it ([None]).  A list of two or more has
    every element compared; a shorter one is not compared at all. *)
Fixpoint insertByMtime (f : LogFile) (l : list LogFile)
  : option (list LogFile) :=
  match l with
  | [] => Some [f]
  | g :: l' =>
    match compareMtime f g with
    | None => None
    | Some d =>
      if (d <=? 0)%Z then Some (f :: l)
      else match insertByMtime f l' with
           | Some s => Some (g :: s)
           | None => None
           end
    end
  end.

Fixpoint sortByMtimeDesc (l : list LogFile) : option (list LogFile) :=
  match l with
  | [] => Some []
  | f :: l' =>
    match sortByMtimeDesc l' with
    | Some s => insertByMtime f s
    | None => None
    end
  end.

(** The entries whose name ends in [.log]. *)
Definition namedLogs (entries : list LogFile) : list LogFile :=
  filter (fun f => endsWith (logName f) (lit ".log")) entries.

Definition logFiles (entries : list LogFile) : option (list LogFile) :=
  sortByMtimeDesc (namedLogs entries).

Definition recentLogs (entries : list LogFile) : option (list LogFile) :=
  match logFiles entries with
  | Some sorted => Some (firstn 3 sorted)
  | None => None
  end.

Definition realFailure (r : CheckResult) : bool :=
  negb (success r) && negb (skipped r).

Definition hasFailedTests (testResults : list CheckResult) : bool :=
  existsb realFailure testResults.

Definition currentErrors (testResults : list CheckResult) : list jsstring :=
  map description (filter realFailure testResults).

Definition hasRecurrentError (testResults : list CheckResult)
  (logText : jsstring) : bool :=
  existsb (fun errorType =>
             includes logText errorType && includes logText (lit "FALHOU"))
          (currentErrors testResults).

(** The test made on one prior report. *)
Definition logShowsRecurrence (testResults : list CheckResult)
  (logText : jsstring) : bool :=
  hasFailedTests testResults
  && includes logText (lit "❌ Status: ERRO")
  && hasRecurrentError testResults logText.

(** The loop over the recent reports; [None] stands for a thrown read
    error.  Each report is read before it is tested. *)
Fixpoint scanRecentLogs (testResults : list CheckResult)
  (logs : list LogFile) : option bool :=
  match logs with
  | [] => Some false
  | logFile :: rest =>
    match content logFile with
    | None => None
    | Some logText =>
      if logShowsRecurrence testResults logText then Some true
      else scanRecentLogs testResults rest
    end
  end.

Definition checkIfErrorIsRecurrent (testResults : list CheckResult)
  (logsDir : LogsDir) : bool :=
  match logsDir with
  | DirAbsent => false
  | DirUnreadable => false
  | DirEntries entries =>
    match recentLogs entries with
    | Some logs =>
      match scanRecentLogs testResults logs with
      | Some b => b
      | None => false
      end
    | None => false
    end
  end.

(** *** Report generator *)

(** What the renderer reads from its surroundings. *)
Record Env := mkEnv {
  nowISO : jsstring;                    (* new Date().toISOString() *)
  nodeVersion : jsstring;               (* process.version *)
  platform : jsstring;                  (* process.platform *)
  prismaInstalled : bool;               (* isPrismaInstalled() *)
  prismaSchemaExists : bool;            (* hasPrismaSchema() *)
  toLocaleString : jsstring -> jsstring;
    (* new Date(ts).toLocaleString('pt-BR') *)
  elapsedSeconds : jsnumber
    (* Math.round((Date.now() - startTime) / 1000) *)
}.

Definition overallSuccess (testResults : list CheckResult) : bool :=
  forallb (fun result => success result || skipped result) testResults.

Definition rule (c : N) (n : nat) : jsstring := repeatUnit c n ++ nl.

Definition codeToString (c : option Z) : jsstring :=
  match c with
  | Some z => numToString z
  | None => lit "null"
  end.

Definition numberToString (x : jsnumber) : jsstring :=
  match x with
  | JNum z => numToString z
  | JNaN => lit "NaN"
  end.

(** [forEach((x, index) => logContent += f(index + 1, x))]. *)
Fixpoint forEachFrom {A : Type} (f : nat -> A -> jsstring) (i : nat)
  (l : list A) : jsstring :=
  match l with
  | [] => []
  | x :: l' => f i x ++ forEachFrom f (S i) l'
  end.

Definition titleBlock (env : Env) : jsstring :=
  lit "[" ++ nowISO env ++ lit "] Relatório Completo de Testes" ++ nl
  ++ rule 61 60 ++ nl.

Definition environmentBlock (env : Env) : jsstring :=
  lit "🔧 INFORMAÇÕES DO AMBIENTE" ++ nl
  ++ rule 45 30
  ++ lit "Node.js: " ++ nodeVersion env ++ nl
  ++ lit "Plataforma: " ++ platform env ++ nl
  ++ lit "Prisma instalado: "
  ++ (if prismaInstalled env then lit "Sim" else lit "Não") ++ nl
  ++ lit "Schema Prisma: "
  ++ (if prismaSchemaExists env then lit "Encontrado"
      else lit "Não encontrado") ++ nl
  ++ nl.

Definition statusBlock (testResults : list CheckResult) (isRecurrent : bool)
  : jsstring :=
  if overallSuccess testResults then
    lit "✅ Status: SUCESSO" ++ nl ++ nl
    ++ (let filteredTests := filter filtered testResults in
        if (0 <? List.length filteredTests)%nat then
          lit "🔧 FILTROS APLICADOS: Erros dos scripts de log foram removidos automaticamente." ++ nl
          ++ lit "Arquivos filtrados: "
          ++ join (lit ", ") (map description filteredTests) ++ nl ++ nl
        else [])
    ++ lit "Todos os testes passaram com sucesso!" ++ nl ++ nl
  else
    lit "❌ Status: ERRO" ++ nl ++ nl
    ++ (if isRecurrent then
          lit "⚠️  ERRO RECORRENTE: Problemas similares já foram detectados em logs anteriores." ++ nl ++ nl
        else []).

Definition summaryBlock (testResults : list CheckResult) : jsstring :=
  let successCount := List.length (filter success testResults) in
  let failedCount := List.length (filter realFailure testResults) in
  let skippedCount := List.length (filter skipped testResults) in
  let filteredCount := List.length (filter filtered testResults) in
  lit "📊 RESUMO DOS TESTES" ++ nl
  ++ rule 45 30
  ++ lit "✅ Sucessos: " ++ natToString successCount ++ nl
  ++ lit "❌ Falhas: " ++ natToString failedCount ++ nl
  ++ lit "⚠️  Ignorados: " ++ natToString skippedCount ++ nl
  ++ (if (0 <? filteredCount)%nat then
        lit "🔧 Filtrados: " ++ natToString filteredCount
        ++ lit " (erros de scripts de log removidos)" ++ nl
      else [])
  ++ lit "📈 Total: " ++ natToString (List.length testResults) ++ nl ++ nl.

Definition statusLabel (result : CheckResult) : jsstring :=
  if skipped result then lit "⚠️  IGNORADO"
  else if success result && filtered result then lit "🔧 SUCESSO (FILTRADO)"
  else if success result then lit "✅ SUCESSO"
  else if filtered result then lit "🔧 FALHOU (FILTRADO)"
  else lit "❌ FALHOU".

Definition outputLines (text : jsstring) : jsstring :=
  flat_map (fun line =>
              if truthy (trim line) then lit "     " ++ line ++ nl else [])
           (splitLines text).

Definition detailEntry (env : Env) (index : nat) (result : CheckResult)
  : jsstring :=
  natToString index ++ lit ". " ++ description result ++ nl
  ++ lit "   Status: " ++ statusLabel result ++ nl
  ++ lit "   Comando: " ++ command result ++ nl
  ++ lit "   Código de saída: " ++ codeToString (code result) ++ nl
  ++ lit "   Horário: " ++ toLocaleString env (timestamp result) ++ nl
  ++ (if negb (filtered result) && truthy (output result) then
        lit "   Output:" ++ nl ++ outputLines (output result)
      else if filtered result then
        lit "   ℹ️  Output: [Filtrado - erros dos scripts de log removidos]" ++ nl
      else [])
  ++ nl.

Definition detailsBlock (env : Env) (testResults : list CheckResult)
  : jsstring :=
  lit "📋 DETALHES DOS TESTES" ++ nl
  ++ rule 45 30 ++ nl
  ++ forEachFrom (detailEntry env) 1 testResults.

Definition errorEntry (index : nat) (result : CheckResult) : jsstring :=
  lit "Erro " ++ natToString index ++ lit ": " ++ description result ++ nl
  ++ rule 45 20
  ++ (if truthy (stderr result) then
        lit "Detalhes do erro:" ++ nl ++ stderr result ++ nl ++ nl
      else [])
  ++ (if truthy (stdout result) && negb (eqs (stdout result) (stderr result))
      then lit "Output adicional:" ++ nl ++ stdout result ++ nl ++ nl
      else []).

Definition errorsBlock (testResults : list CheckResult) : jsstring :=
  let failedTests :=
    filter (fun r => negb (success r) && negb (skipped r)
                     && negb (filtered r)) testResults in
  if (0 <? List.length failedTests)%nat then
    lit "🚨 ERROS DETALHADOS" ++ nl
    ++ rule 45 30 ++ nl
    ++ forEachFrom errorEntry 1 failedTests
  else [].

Definition filteredEntry (index : nat) (result : CheckResult) : jsstring :=
  lit "Filtrado " ++ natToString index ++ lit ": " ++ description result ++ nl
  ++ rule 45 20
  ++ lit "Tipo: Erros dos scripts de log removidos" ++ nl
  ++ lit "Motivo: Continha referências a build-logger.js, analyze-logs.js ou setup-ignore-scripts.js" ++ nl ++ nl.

Definition filteredBlock (testResults : list CheckResult) : jsstring :=
  let filteredFailedTests :=
    filter (fun r => negb (success r) && filtered r) testResults in
  if (0 <? List.length filteredFailedTests)%nat then
    lit "🔧 ERROS FILTRADOS" ++ nl
    ++ rule 45 30 ++ nl
    ++ forEachFrom filteredEntry 1 filteredFailedTests
  else [].

Definition footerBlock (env : Env) (testResults : list CheckResult)
  : jsstring :=
  rule 61 60
  ++ lit "Testes executados: "
  ++ join (lit ", ") (map description testResults) ++ nl
  ++ (if negb (prismaInstalled env) || negb (prismaSchemaExists env) then
        lit "Testes ignorados: "
        ++ join (lit ", ")
             (if negb (prismaInstalled env)
              then [lit "Prisma (não instalado)"]
              else if negb (prismaSchemaExists env)
                   then [lit "Prisma (schema não encontrado)"]
                   else [])
        ++ nl
      else [])
  ++ lit "Data/Hora: " ++ nowISO env ++ nl
  ++ lit "Duração total: " ++ numberToString (elapsedSeconds env)
  ++ lit "s" ++ nl.

(** [generateComprehensiveLog]: the text handed to [writeFileSync].  (The
    creation of the directory and the choice of the file name are not
    modelled.) *)
Definition generateComprehensiveLog (env : Env)
  (testResults : list CheckResult) (isRecurrent : bool) : jsstring :=
  titleBlock env
  ++ environmentBlock env
  ++ statusBlock testResults isRecurrent
  ++ summaryBlock testResults
  ++ detailsBlock env testResults
  ++ errorsBlock testResults
  ++ filteredBlock testResults
  ++ footerBlock env testResults.

End BuildLogger.

Import BuildLogger.

(** ** The log analyser *)

Module AnalyzeLogs.

(** *** Error detection *)

Definition errorIndicators : list jsstring :=
  [lit "❌ Status: ERRO"; lit "Status: ERRO"; lit "❌ Falhas:";
   lit "Falhas: [1-9]"; lit "ERROS DETALHADOS"; lit "Build falhou";
   lit "Error:"; lit "TypeError:"; lit "SyntaxError:";
   lit "ReferenceError:"].

(** [/❌ Falhas: [1-9]\d*/] *)
Definition failureCountPattern : regex :=
  str "❌ Falhas: "
  ++ [Cls (fun c => (49 <=? c)%N && (c <=? 57)%N); star isDigit].

Definition hasError (logContent : jsstring) : bool :=
  existsb (fun indicator =>
             includes (toLowerCase logContent) (toLowerCase indicator))
          errorIndicators
  || test failureCountPattern logContent.

(** *** Extraction *)

Inductive ErrorType :=
| TYPESCRIPT_ERROR
| ESLINT_ERROR
| PRISMA_ERROR
| NEXTJS_ERROR
| MODULE_ERROR
| SYNTAX_ERROR
| UNKNOWN_ERROR.

(** The string the scripts use for each classification. *)
Definition typeName (t : ErrorType) : jsstring :=
  match t with
  | TYPESCRIPT_ERROR => lit "TYPESCRIPT_ERROR"
  | ESLINT_ERROR => lit "ESLINT_ERROR"
  | PRISMA_ERROR => lit "PRISMA_ERROR"
  | NEXTJS_ERROR => lit "NEXTJS_ERROR"
  | MODULE_ERROR => lit "MODULE_ERROR"
  | SYNTAX_ERROR => lit "SYNTAX_ERROR"
  | UNKNOWN_ERROR => lit "UNKNOWN_ERROR"
  end.

Record ErrorDetails := mkDetails {
  type : ErrorType;
  message : jsstring;
  fileName : jsstring;
  lineNumber : option jsnumber;       (* [None] is null *)
  stackTrace : jsstring;
  fullError : jsstring;
  failedTests : list jsstring
}.

(** A problem found by the independent re-scan. *)
Record ErrorRecord := mkRecord {
  recType : jsstring;
  recFile : jsstring;
  recLine : option Z;
  recMessage : jsstring;
  recSeverity : jsstring
}.

Definition headingErrors : jsstring := lit "🚨 ERROS DETALHADOS".

(** [/Erro \d+: (.+?)\n-{20}/g] and [/Erro \d+: (.+?)\n/] *)
Definition failedEntryPattern : regex :=
  str "Erro " ++ [plus isDigit] ++ str ": "
  ++ [Open 1; lazyPlus dot; Close 1; Chr 10; times 20 (only 45)].

Definition failedNamePattern : regex :=
  str "Erro " ++ [plus isDigit] ++ str ": "
  ++ [Open 1; lazyPlus dot; Close 1; Chr 10].

Definition groupText (i : nat) (m : mstate) : jsstring :=
  match group i m with
  | Some t => t
  | None => []
  end.

(** [split(sep)[1]], [None] when the separator does not occur. *)
Definition secondPiece (sep text : jsstring) : option jsstring :=
  nth_error (splitOn sep text) 1.

Definition truthyOpt (o : option jsstring) : bool :=
  match o with
  | Some t => truthy t
  | None => false
  end.

(** The inner match cannot fail: its text was matched by the longer
    pattern. *)
Definition extractFailedTests (logContent : jsstring) : list jsstring :=
  match secondPiece headingErrors logContent with
  | Some failedTestsSection =>
    if truthy failedTestsSection then
      map (fun matched =>
             match exec failedNamePattern matched with
             | Some m => groupText 1 m
             | None => []
             end)
          (map matchedText (matchAll failedEntryPattern failedTestsSection))
    else []
  | None => []
  end.

Definition orEmpty (o : option jsstring) : jsstring :=
  match o with
  | Some t => t
  | None => []
  end.

Definition extractFullError (logContent : jsstring) : jsstring :=
  let a := secondPiece (lit "Detalhes do erro:") logContent in
  let b := secondPiece headingErrors logContent in
  trim (if truthyOpt a then orEmpty a
        else if truthyOpt b then orEmpty b
        else logContent).

(** The ordered location patterns. *)

(** [/(\S+\.tsx?)\((\d+),\d+\)/g] *)
Definition tsLocationPattern : regex :=
  [Open 1; plus nonSpace] ++ str ".ts" ++ [opt (only 120); Close 1]
  ++ str "(" ++ [Open 2; plus isDigit; Close 2] ++ str ","
  ++ [plus isDigit] ++ str ")".

(** [/(\S+\.tsx?):(\d+):\d+/g] *)
Definition colonLocationPattern : regex :=
  [Open 1; plus nonSpace] ++ str ".ts" ++ [opt (only 120); Close 1]
  ++ str ":" ++ [Open 2; plus isDigit; Close 2] ++ str ":"
  ++ [plus isDigit].

(** [/at\s+(.+?):(\d+):\d+/g] *)
Definition stackLocationPattern : regex :=
  str "at" ++ [plus isWhiteSpace; Open 1; lazyPlus dot; Close 1]
  ++ str ":" ++ [Open 2; plus isDigit; Close 2] ++ str ":"
  ++ [plus isDigit].

(** [/Error in (.+\.tsx?)/g] *)
Definition errorInPattern : regex :=
  str "Error in " ++ [Open 1; plus dot] ++ str ".ts"
  ++ [opt (only 120); Close 1].

(** [/(\S+\.tsx?):\s*(.+)/g] *)
Definition generalPattern : regex :=
  [Open 1; plus nonSpace] ++ str ".ts" ++ [opt (only 120); Close 1]
  ++ str ":" ++ [star isWhiteSpace; Open 2; plus dot; Close 2].

Definition filePatterns : list regex :=
  [tsLocationPattern; colonLocationPattern; stackLocationPattern;
   errorInPattern; generalPattern].

(** [match[2] ? parseInt(match[2]) : null] *)
Definition lineOf (m : mstate) : option jsnumber :=
  match group 2 m with
  | Some t => if truthy t then Some (parseInt t) else None
  | None => None
  end.

(** The loop over the patterns: the first pattern with a match decides,
    by its first match. *)
Fixpoint locate (patterns : list regex) (logContent : jsstring)
  : jsstring * option jsnumber :=
  match patterns with
  | [] => ([], None)
  | pattern :: rest =>
    match matchAll pattern logContent with
    | m :: _ => (groupText 1 m, lineOf m)
    | [] => locate rest logContent
    end
  end.

Definition classify (tests : list jsstring) (logContent : jsstring)
  : ErrorType :=
  let errorLower := toLowerCase logContent in
  let failed (word : jsstring) := existsb (fun t => includes t word) tests in
  if failed (lit "TypeScript") || includes errorLower (lit "typescript")
     || includes errorLower (lit "tsc")
  then TYPESCRIPT_ERROR
  else if failed (lit "ESLint") || includes errorLower (lit "eslint")
  then ESLINT_ERROR
  else if failed (lit "Prisma") || includes errorLower (lit "prisma")
          || includes errorLower (lit "database")
  then PRISMA_ERROR
  else if failed (lit "Build") || includes errorLower (lit "next")
          || includes errorLower (lit "webpack")
  then NEXTJS_ERROR
  else if includes errorLower (lit "module not found")
          || includes errorLower (lit "cannot resolve")
  then MODULE_ERROR
  else if includes errorLower (lit "syntax")
  then SYNTAX_ERROR
  else UNKNOWN_ERROR.

Definition extractErrorDetails (logContent : jsstring) : ErrorDetails :=
  let tests := extractFailedTests logContent in
  let loc := locate filePatterns logContent in
  {| type := classify tests logContent;
     message := [];
     fileName := fst loc;
     lineNumber := snd loc;
     stackTrace := [];
     fullError := extractFullError logContent;
     failedTests := tests |}.

(** *** Remediation commands *)

(** [commands.includes(c)] *)
Definition hasCommand (commands : list jsstring) (c : jsstring) : bool :=
  existsb (eqs c) commands.

Definition cmdTsc : jsstring := lit "npx tsc --noEmit".
Definition cmdLintFix : jsstring := lit "npm run lint -- --fix".
Definition cmdPrismaGenerate : jsstring := lit "npx prisma generate".
Definition cmdPrismaMigrate : jsstring := lit "npx prisma migrate dev".
Definition cmdCleanNext : jsstring := lit "rm -rf .next".
Definition cmdInstall : jsstring := lit "npm install".
Definition cmdAuditFix : jsstring := lit "npm audit fix".

(** One guarded push: when the test name mentions [word] and [probe] is not
    yet in the list, append [extra]. *)
Definition pushFor (test word probe : jsstring) (extra : list jsstring)
  (commands : list jsstring) : list jsstring :=
  if includes test word && negb (hasCommand commands probe)
  then commands ++ extra
  else commands.

(** The body of the [forEach] over the failed tests. *)
Definition commandsForTest (commands : list jsstring) (test : jsstring)
  : list jsstring :=
  let c1 := pushFor test (lit "TypeScript") cmdTsc [cmdTsc] commands in
  let c2 := pushFor test (lit "ESLint") cmdLintFix [cmdLintFix] c1 in
  let c3 := pushFor test (lit "Prisma") cmdPrismaGenerate
                    [cmdPrismaGenerate; cmdPrismaMigrate] c2 in
  let c4 := pushFor test (lit "Build") cmdCleanNext [cmdCleanNext] c3 in
  let c5 := pushFor test (lit "Dependências") cmdInstall [cmdInstall] c4 in
  pushFor test (lit "Auditoria") cmdAuditFix [cmdAuditFix] c5.

Definition pushUnlessPresent (c : jsstring) (commands : list jsstring)
  : list jsstring :=
  if negb (hasCommand commands c) then commands ++ [c] else commands.

(** The [switch] on the classified type. *)
Definition commandsForType (t : ErrorType) (commands : list jsstring)
  : list jsstring :=
  match t with
  | TYPESCRIPT_ERROR => pushUnlessPresent cmdTsc commands
  | PRISMA_ERROR => pushUnlessPresent cmdPrismaGenerate commands
  | MODULE_ERROR => pushUnlessPresent cmdInstall commands
  | NEXTJS_ERROR => pushUnlessPresent cmdCleanNext commands
  | _ => commands
  end.

(** [[...new Set(commands)]]: first occurrences, in order. *)
Fixpoint uniqueFrom (seen : list jsstring) (l : list jsstring)
  : list jsstring :=
  match l with
  | [] => []
  | c :: l' =>
    if hasCommand seen c then uniqueFrom seen l'
    else c :: uniqueFrom (c :: seen) l'
  end.

Definition unique (l : list jsstring) : list jsstring := uniqueFrom [] l.

Definition generateSpecificCommandsFromFailedTests
  (tests : list jsstring) (errorDetails : ErrorDetails)
  (projectErrors : list ErrorRecord) : list jsstring :=
  let c1 := fold_left commandsForTest tests [] in
  let c2 := commandsForType (type errorDetails) c1 in
  unique (c2 ++ [lit "npm run build:dev"; lit "node analyze-logs.js"]).

End AnalyzeLogs.

Import AnalyzeLogs.

(** ** Vocabulary of the properties and sample inputs *)

Definition allWhite (w : jsstring) : Prop :=
  Forall (fun c => isWhiteSpace c = true) w.

(** A text is [stable] when trimming leaves it alone. *)
Definition stable (p : jsstring) : Prop := trimStart p = p /\ trimEnd p = p.

(** The line mentions one of the allowlisted files. *)
Definition mentionsNoise (line : jsstring) : Prop :=
  exists f, In f logScriptFiles /\ includes line f = true.

(** No error indicator occurs in the text, whatever the letter case. *)
Definition noIndicator (text : jsstring) : Prop :=
  forall indicator, In indicator BuildLogger.errorIndicators ->
    includes (toLowerCase text) (toLowerCase indicator) = false.

(** What is left of a text once the allowlisted lines are removed. *)
Definition remaining (text : jsstring) : jsstring :=
  filterLogScriptLines text logScriptFiles.

(** The two invariants of a result. *)
Definition invariant (r : CheckResult) : Prop :=
  (skipped r = true -> success r = false)
  /\ (filtered r = true -> skipped r = false).

(** One run of the executor: its arguments and what the process did. *)
Record Run := mkRun {
  runCmd : jsstring;
  runArgs : list jsstring;
  runDescription : jsstring;
  runInstant : jsstring;
  runEvent : ProcessEvent
}.

Definition execute (x : Run) : CheckResult :=
  runCommand (runCmd x) (runArgs x) (runDescription x) (runInstant x)
             (runEvent x).

(** Both files can be examined, and [a] was modified no earlier than
    [b]. *)
Definition notOlder (a b : LogFile) : Prop :=
  match mtime a, mtime b with
  | Some aTime, Some bTime => (bTime <= aTime)%Z
  | _, _ => False
  end.

(** The text of a prior report shows a recurrence of the current run: it
    has the error status marker and the failure marker, and it names a
    check that really failed now. *)
Definition recurs (rs : list CheckResult) (t : jsstring) : Prop :=
  includes t (lit "❌ Status: ERRO") = true
  /\ includes t (lit "FALHOU") = true
  /\ exists r, In r rs /\ success r = false /\ skipped r = false
               /\ includes t (description r) = true.

(** A check that passed: exit code 0 and nothing printed. *)
Definition passingCheck : CheckResult :=
  runCommand (lit "npx") [lit "tsc"; lit "--noEmit"]
    (lit "Verificação TypeScript") (lit "2025-01-02T03:04:00.000Z")
    (OnClose (Some 0%Z) [] []).

Definition sampleEnv : Env :=
  mkEnv (lit "2025-01-02T03:04:05.000Z") (lit "v20.11.0") (lit "linux")
        false false (fun _ => lit "02/01/2025, 00:04:00") (JNum 12).

(** No match of the pattern begins inside [pre] when [pre] is followed by
    [rest]. *)
Definition noMatchBegins (r : regex) (pre rest : jsstring) : Prop :=
  forall a b, pre = a ++ b -> b <> [] -> matchAt r (b ++ rest) = None.

(** The same, as a test. *)
Fixpoint noMatchBeginsb (r : regex) (pre rest : jsstring) : bool :=
  match pre with
  | [] => true
  | _ :: pre' =>
    match matchAt r (pre ++ rest) with
    | Some _ => false
    | None => noMatchBeginsb r pre' rest
    end
  end.

(** The diagnostic line of the type checker. *)
Definition tsLine : jsstring :=
  lit "src/app/page.tsx(10,5): error TS2304: Cannot find name 'Foo'.".

(** A check whose stderr is one line about the logger's own script. *)
Definition loggerNoise : CheckResult :=
  runCommand (lit "npm") [lit "run"; lit "build:dev"] (lit "Build do Next.js")
    (lit "2025-01-02T03:04:00.000Z")
    (OnClose (Some 1%Z) [] (lit "build-logger.js:12: ReferenceError")).

(** A check that prints one line about the logger and one real error. *)
Definition mixedOutput : CheckResult :=
  runCommand (lit "npm") [lit "run"; lit "build:dev"] (lit "Build do Next.js")
    (lit "2025-01-02T03:04:00.000Z")
    (OnClose (Some 1%Z)
       (lit "    at run (build-logger.js:30:5)" ++ nl)
       (lit "Error: Cannot find module 'left-pad'")).

(** A check that mentions the logger and also prints an unrelated note. *)
Definition noiseAndNote : CheckResult :=
  runCommand (lit "npm") [lit "ls"; lit "--depth=0"]
    (lit "Verificação de Dependências") (lit "2025-01-02T03:04:00.000Z")
    (OnClose (Some 1%Z)
       (lit "build-logger.js exited early" ++ nl
        ++ lit "peer dependency missing: react@18")
       []).

(** The type check of scenario 2: exit code 1, the diagnostic on stderr. *)
Definition failingTypeCheck : CheckResult :=
  runCommand (lit "npx") [lit "tsc"; lit "--noEmit"]
    (lit "Verificação TypeScript") (lit "2025-01-02T03:04:00.000Z")
    (OnClose (Some 1%Z) [] tsLine).

(** The report written for that run. *)
Definition failingReport : jsstring :=
  generateComprehensiveLog sampleEnv
    (filterLogScriptErrors [failingTypeCheck]) false.

Definition passingReport : jsstring :=
  generateComprehensiveLog sampleEnv (filterLogScriptErrors [passingCheck])
    false.

(** A history directory: four reports and a stray file. *)
Definition historyDir : list LogFile :=
  [mkLog (lit "log-2025-01-01-09-00.log") (Some 1000%Z) (Some passingReport);
   mkLog (lit "notes.txt") None None;
   mkLog (lit "log-2025-01-01-12-30.log") (Some 3000%Z) (Some failingReport);
   mkLog (lit "log-2025-01-01-11-15.log") (Some 2000%Z) (Some passingReport);
   mkLog (lit "log-2024-12-31-23-59.log") (Some 500%Z) None].


(** A check whose stdout, by itself, has no name of the logger's scripts:
    the name comes on stderr, and joins the same line of the output. *)
Definition splitReference : CheckResult :=
  runCommand (lit "npm") [lit "run"; lit "build:dev"] (lit "Build do Next.js")
    (lit "2025-01-02T03:04:00.000Z")
    (OnClose (Some 1%Z) (lit "ReferenceError: x is not defined in ")
       (lit "build-logger.js")).

(** Index of the first occurrence of [p] in [s] (the length of [s] when
    there is none). *)
Fixpoint indexOf (s p : jsstring) : nat :=
  if startsWith s p then 0
  else match s with
       | [] => 0
       | _ :: s' => S (indexOf s' p)
       end.

Definition reportBefore : jsstring :=
  firstn (indexOf failingReport tsLine) failingReport.

Definition reportAfter : jsstring :=
  skipn (indexOf failingReport tsLine + List.length tsLine) failingReport.

(** ** The rest of the battery runner *)

Module Battery.

(** *** Capability probe *)

(** The project manifest as the probe sees it: missing; broken (reading
    it, parsing it or looking into the parsed value throws); or parsed.  A
    dependency group is [None] when it is absent or falsy; otherwise it
    tells, for a package name, whether the group holds a truthy value under
    that name. *)
Inductive ManifestFile :=
| ManifestMissing
| ManifestBroken
| ManifestObject (dependencies devDependencies : option (jsstring -> bool)).

Definition declares (grp : option (jsstring -> bool)) (name : jsstring)
  : bool :=
  match grp with
  | Some has => has name
  | None => false
  end.

(** The truthiness of what [isPrismaInstalled] returns, which is all that
    [runAllTests] looks at. *)
Definition isPrismaInstalled (m : ManifestFile) : bool :=
  match m with
  | ManifestMissing => false
  | ManifestBroken => false
  | ManifestObject dependencies devDependencies =>
    declares dependencies (lit "prisma")
    || declares devDependencies (lit "prisma")
    || declares dependencies (lit "@prisma/client")
    || declares devDependencies (lit "@prisma/client")
  end.

(** *** Check runner *)

(** A check of the battery: executable, arguments, description. *)
Record Check := mkCheck {
  checkCommand : jsstring;
  checkArgs : list jsstring;
  checkDescription : jsstring
}.

Definition typeCheck : Check :=
  mkCheck (lit "npx") [lit "tsc"; lit "--noEmit"]
          (lit "Verificação TypeScript").

Definition lintCheck : Check :=
  mkCheck (lit "npx") [lit "eslint"; lit "."; lit "--max-warnings"; lit "0"]
          (lit "Verificação ESLint").

Definition prismaGenerateCheck : Check :=
  mkCheck (lit "npx") [lit "prisma"; lit "generate"]
          (lit "Geração do Cliente Prisma").

Definition prismaMigrateCheck : Check :=
  mkCheck (lit "npx") [lit "prisma"; lit "migrate"; lit "status"]
          (lit "Status das Migrações Prisma").

Definition buildCheck : Check :=
  mkCheck (lit "npm") [lit "run"; lit "build:dev"] (lit "Build do Next.js").

Definition auditCheck : Check :=
  mkCheck (lit "npm") [lit "audit"; lit "--audit-level"; lit "high"]
          (lit "Auditoria de Segurança").

Definition dependencyCheck : Check :=
  mkCheck (lit "npm") [lit "ls"; lit "--depth=0"]
          (lit "Verificação de Dependências").

(** The checks [runAllTests] awaits, in order. *)
Definition batteryChecks (prismaInstalled prismaSchemaExists : bool)
  : list Check :=
  [typeCheck; lintCheck]
  ++ (if prismaInstalled && prismaSchemaExists
      then [prismaGenerateCheck] else [])
  ++ (if prismaInstalled && prismaSchemaExists
      then [prismaMigrateCheck] else [])
  ++ [buildCheck; auditCheck; dependencyCheck].

(** [runAllTests].  [observe] gives, for each spawned check, the instant of
    resolution and what the process did. *)
Definition runAllTests (manifest : ManifestFile) (schemaExists : bool)
  (observe : Check -> jsstring * ProcessEvent) : list CheckResult :=
  map (fun c => runCommand (checkCommand c) (checkArgs c)
                           (checkDescription c)
                           (fst (observe c)) (snd (observe c)))
      (batteryChecks (isPrismaInstalled manifest) schemaExists).

(** *** Report file name *)

(** The local date and time fields read by [createLogFileName]
    ([getMonth] counts from 0). *)
Record LocalTime := mkTime {
  fullYear : Z;
  monthIndex : Z;
  dayOfMonth : Z;
  hours : Z;
  minutes : Z
}.

(** [s.padStart(n, '0')] *)
Definition padStart (n : nat) (s : jsstring) : jsstring :=
  repeatUnit 48 (n - List.length s) ++ s.

Definition createLogFileName (now : LocalTime) : jsstring :=
  lit "log-" ++ numToString (fullYear now)
  ++ lit "-" ++ padStart 2 (numToString (monthIndex now + 1))
  ++ lit "-" ++ padStart 2 (numToString (dayOfMonth now))
  ++ lit "-" ++ padStart 2 (numToString (hours now))
  ++ lit "-" ++ padStart 2 (numToString (minutes now))
  ++ lit ".log".

End Battery.

Import Battery.

(** ** The rest of the log analyser *)

Module Diagnosis.

(** A call either throws or returns. *)
Inductive completion (A : Type) :=
| Throws
| Returns (a : A).

Arguments Throws {A}.
Arguments Returns {A} a.

(** *** Newest report *)

(** [statSync] returns on the file. *)
Definition examined (f : LogFile) : bool :=
  match mtime f with
  | Some _ => true
  | None => false
  end.

(** [findMostRecentLog]: [Returns None] is the null result.  A directory
    that cannot be listed makes the call throw, and so does a [.log] entry
    that cannot be examined: the [map] examines every one of them, outside
    any [try]. *)
Definition findMostRecentLog (logsDir : LogsDir)
  : completion (option LogFile) :=
  match logsDir with
  | DirAbsent => Returns None
  | DirUnreadable => Throws
  | DirEntries entries =>
    if forallb examined (namedLogs entries)
    then match sortByMtimeDesc (namedLogs entries) with
         | Some logFiles => Returns (hd_error logFiles)
         | None => Throws
         end
    else Throws
  end.

Definition isRecurrentFromLog (logContent : jsstring) : bool :=
  includes logContent (lit "ERRO RECORRENTE")
  || includes logContent (lit "⚠️  ERRO RECORRENTE").

(** *** Commands by classified type *)

(** [projectErrors.some(e => e.type === name)] *)
Definition someOfType (projectErrors : list ErrorRecord) (name : jsstring)
  : bool :=
  existsb (fun e => eqs (recType e) name) projectErrors.

Definition generateSpecificCommands (errorDetails : ErrorDetails)
  (projectErrors : list ErrorRecord) : list jsstring :=
  let c0 :=
    match type errorDetails with
    | TYPESCRIPT_ERROR => [lit "npx tsc --noEmit"; lit "npm run lint -- --fix"]
    | PRISMA_ERROR =>
      [lit "npx prisma generate"; lit "npx prisma migrate dev";
       lit "npx prisma db push"]
    | MODULE_ERROR =>
      [lit "npm install";
       lit "rm -rf node_modules package-lock.json && npm install"]
    | NEXTJS_ERROR => [lit "rm -rf .next"; lit "npm run build"]
    | _ => []
    end in
  let hasTypeScriptErrors := someOfType projectErrors (lit "TYPESCRIPT_ERROR") in
  let hasPrismaErrors := someOfType projectErrors (lit "PRISMA_ERROR") in
  let hasLintErrors := someOfType projectErrors (lit "ESLINT_ERROR") in
  let c1 := if hasTypeScriptErrors
               && negb (hasCommand c0 (lit "npx tsc --noEmit"))
            then c0 ++ [lit "npx tsc --noEmit"] else c0 in
  let c2 := if hasPrismaErrors
               && negb (hasCommand c1 (lit "npx prisma generate"))
            then c1 ++ [lit "npx prisma generate"] else c1 in
  let c3 := if hasLintErrors
               && negb (hasCommand c2 (lit "npm run lint -- --fix"))
            then c2 ++ [lit "npm run lint -- --fix"] else c2 in
  c3 ++ [lit "npm run build:dev"; lit "node analyze-logs.js"].

(** *** Action plans *)

Record Stage := mkStage {
  title : jsstring;
  stageDescription : jsstring;
  commands : list jsstring
}.

(** A number in a boolean position; [None] is null. *)
Definition truthyNumber (n : option jsnumber) : bool :=
  match n with
  | Some (JNum z) => negb (z =? 0)%Z
  | _ => false
  end.

(** The number in a template literal, once known to be truthy. *)
Definition shownNumber (n : option jsnumber) : jsstring :=
  match n with
  | Some x => numberToString x
  | None => lit "null"
  end.

Definition finalStage : Stage :=
  mkStage (lit "Verificação Final")
    (lit "Executar todos os testes novamente para confirmar as correções.")
    [lit "node build-logger.js"; lit "node analyze-logs.js"].

(** [failedTests.includes(name)] *)
Definition listed (names : list jsstring) (name : jsstring) : bool :=
  existsb (eqs name) names.

Definition generateDetailedActionPlan (errorDetails : ErrorDetails)
  (projectErrors : list ErrorRecord) : list Stage :=
  let tests := failedTests errorDetails in
  (if listed tests (lit "Verificação TypeScript") then
     [mkStage (lit "Corrigir Erros de TypeScript")
        (lit "Resolver problemas de tipagem e sintaxe do TypeScript.")
        [lit "npx tsc --noEmit"; lit "code . # Abrir editor para correções"]]
   else [])
  ++ (if listed tests (lit "Verificação ESLint") then
        [mkStage (lit "Corrigir Problemas de Lint")
           (lit "Resolver problemas de qualidade e padrões de código.")
           [lit "npm run lint -- --fix";
            lit "npm run lint # Verificar problemas restantes"]]
      else [])
  ++ (if existsb (fun t => includes t (lit "Prisma")) tests then
        [mkStage (lit "Resolver Problemas do Prisma")
           (lit "Corrigir configuração do banco de dados e ORM.")
           [lit "npx prisma generate"; lit "npx prisma migrate dev";
            lit "npx prisma db push"]]
      else [])
  ++ (if listed tests (lit "Build do Next.js") then
        [mkStage (lit "Corrigir Build do Next.js")
           (lit "Resolver problemas de build e compilação.")
           [lit "rm -rf .next"; lit "npm run build:dev"]]
      else [])
  ++ (if listed tests (lit "Verificação de Dependências") then
        [mkStage (lit "Resolver Dependências")
           (lit "Corrigir problemas com pacotes e dependências.")
           [lit "npm install";
            lit "rm -rf node_modules package-lock.json && npm install"]]
      else [])
  ++ (if truthy (fileName errorDetails) then
        [mkStage (lit "Corrigir Arquivo Específico")
           (lit "Resolver problemas no arquivo " ++ fileName errorDetails
            ++ (if truthyNumber (lineNumber errorDetails)
                then lit " na linha " ++ shownNumber (lineNumber errorDetails)
                else [])
            ++ lit ".")
           [lit "code " ++ fileName errorDetails
            ++ (if truthyNumber (lineNumber errorDetails)
                then lit ":" ++ shownNumber (lineNumber errorDetails)
                else [])]]
      else [])
  ++ [finalStage].

Definition generateActionPlan (errorDetails : ErrorDetails)
  (projectErrors : list ErrorRecord) : list Stage :=
  [mkStage (lit "Diagnóstico Inicial")
     (lit "Identificar e entender os problemas encontrados.")
     [lit "npx tsc --noEmit"; lit "npm run lint"]]
  ++ (if match type errorDetails with PRISMA_ERROR => true | _ => false end
         || someOfType projectErrors (lit "PRISMA_ERROR") then
        [mkStage (lit "Corrigir Problemas do Prisma")
           (lit "Resolver problemas relacionados ao banco de dados e ORM.")
           [lit "npx prisma generate"; lit "npx prisma migrate dev"]]
      else [])
  ++ (if match type errorDetails with MODULE_ERROR => true | _ => false end
         || someOfType projectErrors (lit "MODULE_ERROR") then
        [mkStage (lit "Resolver Dependências")
           (lit "Garantir que todos os módulos estão instalados corretamente.")
           [lit "npm install"; lit "npm audit fix"]]
      else [])
  ++ (if truthy (fileName errorDetails) then
        [mkStage (lit "Corrigir Arquivo Específico")
           (lit "Resolver problemas no arquivo " ++ fileName errorDetails
            ++ lit " linha "
            ++ (if truthyNumber (lineNumber errorDetails)
                then shownNumber (lineNumber errorDetails)
                else lit "identificada")
            ++ lit ".")
           [lit "code " ++ fileName errorDetails ++ lit ":"
            ++ (if truthyNumber (lineNumber errorDetails)
                then shownNumber (lineNumber errorDetails)
                else lit "1")]]
      else [])
  ++ [mkStage (lit "Limpeza e Rebuild")
        (lit "Limpar cache e fazer rebuild completo.")
        [lit "rm -rf .next"; lit "npm run build:dev"];
      mkStage (lit "Verificação Final")
        (lit "Confirmar que todos os problemas foram resolvidos.")
        [lit "npm run build:dev"; lit "node analyze-logs.js"]].

(** *** Analysis of the located file *)

Record Analysis := mkAnalysis {
  kind : jsstring;
  problem : jsstring;
  solution : jsstring;
  code_example : jsstring;
  specific_steps : list jsstring
}.

Definition analyzeTypeScriptFile (fileText problemLine : jsstring)
  (lineNo : option jsnumber) (filePath : jsstring) : Analysis :=
  if includes problemLine (lit "React")
     && negb (includes fileText (lit "import React")) then
    mkAnalysis (lit "TypeScript/React")
      (lit "Import do React está ausente")
      (lit "Adicionar import do React no topo do arquivo")
      (lit "import React from 'react';")
      [lit "Adicione a linha de import no topo do arquivo";
       lit "Certifique-se de que está antes de outros imports locais";
       lit "Salve o arquivo e execute o build novamente"]
  else if includes problemLine (lit ":")
          && (includes problemLine (lit "string")
              || includes problemLine (lit "number")
              || includes problemLine (lit "boolean")) then
    mkAnalysis (lit "TypeScript/React")
      (lit "Problema de tipagem TypeScript")
      (lit "Corrigir a declaração de tipo na linha")
      (lit "// Exemplo de tipagem correta:" ++ nl
       ++ lit "const variavel: string = " ++ quote ++ lit "valor" ++ quote
       ++ lit ";" ++ nl
       ++ lit "const numero: number = 42;")
      [lit "Verifique se o tipo declarado corresponde ao valor atribuído";
       lit "Certifique-se de que a sintaxe está correta (: tipo)";
       lit "Se for uma prop, verifique a interface do componente pai"]
  else if includes problemLine (lit "export")
          || includes problemLine (lit "import") then
    mkAnalysis (lit "TypeScript/React")
      (lit "Problema com export/import")
      (lit "Corrigir a declaração de import/export")
      (lit "// Export correto:" ++ nl
       ++ lit "export default function ComponentName() {}" ++ nl ++ nl
       ++ lit "// Import correto:" ++ nl
       ++ lit "import ComponentName from './ComponentName';")
      [lit "Verifique se o caminho do arquivo está correto";
       lit "Certifique-se de que o arquivo exportado existe";
       lit "Verifique se é export default ou named export"]
  else if includes filePath (lit ".tsx")
          && (includes problemLine (lit "function")
              || includes problemLine (lit "const")) then
    mkAnalysis (lit "TypeScript/React")
      (lit "Problema na declaração do componente React")
      (lit "Corrigir a estrutura do componente")
      (lit "// Componente funcional correto:" ++ nl
       ++ lit "function ComponentName() {" ++ nl
       ++ lit "  return (" ++ nl
       ++ lit "    <div>" ++ nl
       ++ lit "      {/* conteúdo */}" ++ nl
       ++ lit "    </div>" ++ nl
       ++ lit "  );" ++ nl
       ++ lit "}")
      [lit "Verifique se o componente retorna JSX válido";
       lit "Certifique-se de que está dentro de um único elemento pai";
       lit "Verifique se todas as tags JSX estão fechadas corretamente"]
  else
    mkAnalysis (lit "TypeScript/React")
      (lit "Erro de sintaxe ou lógica detectado")
      (lit "Revisar a linha indicada e corrigir o erro")
      (lit "// Verifique a sintaxe da linha com erro")
      [lit "Examine a linha indicada no erro";
       lit "Verifique sintaxe (pontos e vírgulas, chaves, parênteses)";
       lit "Execute o linter para mais detalhes: npm run lint"].

(** [lines[lineNumber - 1] || ''] *)
Definition lineAt (lines : list jsstring) (lineNo : option jsnumber)
  : jsstring :=
  match lineNo with
  | Some (JNum z) =>
    if (1 <=? z)%Z then nth (Z.to_nat (z - 1)) lines [] else []
  | _ => []
  end.

Definition analyzeFileContent (fileText filePath : jsstring)
  (lineNo : option jsnumber) : Analysis :=
  let lines := splitLines fileText in
  let problemLine := lineAt lines lineNo in
  if includes filePath (lit ".tsx") || includes filePath (lit ".ts")
  then analyzeTypeScriptFile fileText problemLine lineNo filePath
  else mkAnalysis [] [] [] [] [].

(** [lineNumber || 1] *)
Definition orOne (lineNo : option jsnumber) : Z :=
  match lineNo with
  | Some (JNum z) => if (z =? 0)%Z then 1%Z else z
  | _ => 1%Z
  end.

(** [l.slice(start, stop)], negative positions counting from the end. *)
Definition slice {A : Type} (l : list A) (start stop : Z) : list A :=
  let len := Z.of_nat (List.length l) in
  let k := if (start <? 0)%Z then Z.max (len + start) 0
           else Z.min start len in
  let final := if (stop <? 0)%Z then Z.max (len + stop) 0
               else Z.min stop len in
  firstn (Z.to_nat (final - k)) (skipn (Z.to_nat k) l).

(** The lines shown around the located line. *)
Definition contextLines (lines : list jsstring) (lineNo : option jsnumber)
  : list jsstring :=
  let startLine := Z.max 0 (orOne lineNo - 3) in
  let endLine := Z.min (Z.of_nat (List.length lines)) (orOne lineNo + 3) in
  slice lines startLine endLine.

(** The file named by the report: missing, unreadable, or read. *)
Inductive FileState :=
| FileMissing
| FileUnreadable
| FileText (text : jsstring).

Inductive FileAnalysis :=
| NotFound
| Found (text errorContext : jsstring) (lineNo : option jsnumber)
        (totalLines : nat) (analysis : Analysis).

Definition analyzeSpecificFile (file : FileState) (filePath : jsstring)
  (lineNo : option jsnumber) : completion FileAnalysis :=
  match file with
  | FileMissing => Returns NotFound
  | FileUnreadable => Throws
  | FileText text =>
    let lines := splitLines text in
    Returns (Found text (join nl (contextLines lines lineNo)) lineNo
                   (List.length lines)
                   (analyzeFileContent text filePath lineNo))
  end.

(** *** Heuristic syntax scan *)






End Diagnosis.

Import Diagnosis.

(** ** The manifest script updater *)

Module PackageScripts.

(** A JSON value as far as the updater looks at it: a string, or anything
    else (carried along untouched). *)
Inductive json :=
| JString (s : jsstring)
| JOpaque (id : nat).

(** An object: its own properties in creation order, keys unique. *)
Definition object := list (jsstring * json).

(** A key that is an array index (a canonical decimal below 2^32 - 1):
    such keys are enumerated first, in ascending order. *)
Definition isArrayIndex (k : jsstring) : bool :=
  match k with
  | [] => false
  | [48%N] => true
  | c :: _ =>
    forallb isDigit k && negb (c =? 48)%N
    && (decimalValue k <? 4294967295)%Z
  end.

Fixpoint insertIndex (e : jsstring * json) (l : object) : object :=
  match l with
  | [] => [e]
  | g :: l' =>
    if (decimalValue (fst e) <=? decimalValue (fst g))%Z
    then e :: l
    else g :: insertIndex e l'
  end.

(** [Object.entries(o)] *)
Definition entries (o : object) : object :=
  fold_right insertIndex [] (filter (fun e => isArrayIndex (fst e)) o)
  ++ filter (fun e => negb (isArrayIndex (fst e))) o.

(** The value of the property [k] that [o] itself holds, if any. *)
Fixpoint getProp (k : jsstring) (o : object) : option json :=
  match o with
  | [] => None
  | (k', v) :: o' => if eqs k k' then Some v else getProp k o'
  end.

(** Defining or overwriting the property [k] of [o]: an existing property
    keeps its place, a new one comes last. *)
Fixpoint setProp (k : jsstring) (v : json) (o : object) : object :=
  match o with
  | [] => [(k, v)]
  | (k', v') :: o' =>
    if eqs k k' then (k', v) :: o' else (k', v') :: setProp k v o'
  end.

Definition protoKey : jsstring := lit "__proto__".

(** [o[k] = v] by assignment, on an object whose prototype holds only what
    [Object.prototype] and parsed JSON values hold: the key [__proto__]
    reaches the inherited accessor, which creates no property of [o]; any
    other key becomes (or stays) a property of [o]. *)
Definition assign (k : jsstring) (v : json) (o : object) : object :=
  if eqs k protoKey then o else setProp k v o.

Definition buildKey : jsstring := lit "build".
Definition buildDevKey : jsstring := lit "build:dev".

Definition buildScript : json :=
  JString (lit "prisma generate && npx prisma migrate deploy && next build").

Definition buildDevScript : json :=
  JString (lit "prisma generate && next build").

(** The body of the loop over the entries. *)
Definition copyEntry (scripts : object) (e : jsstring * json) : object :=
  let scripts1 := assign (fst e) (snd e) scripts in
  if eqs (fst e) buildKey then assign buildDevKey buildDevScript scripts1
  else scripts1.

(** The new value of [packageJson.scripts], from the old one (an object
    as [JSON.parse] builds it, where [__proto__] is a property like any
    other). *)
Definition updateScripts (scripts : object) : object :=
  fold_left copyEntry (entries (assign buildKey buildScript scripts)) [].

(** The script as a whole on the manifest's [scripts] member: without
    that member the first assignment throws. *)
Definition updatePackageScripts (scripts : option object) : option object :=
  match scripts with
  | Some o => Some (updateScripts o)
  | None => None
  end.

End PackageScripts.

Import PackageScripts.

(** ** Vocabulary of the further properties *)

(** The three words every error indicator of the noise filter contains,
    once in lower case. *)
Definition indicatorWords : list jsstring :=
  [lit "error"; lit "warning"; lit "fail"].

(** No unit of the text is white space. *)
Definition noWhite (p : jsstring) : Prop :=
  Forall (fun c => isWhiteSpace c = false) p.

(** The result with its three text fields emptied when it is flagged as
    filtered. *)
Definition withoutText (r : CheckResult) : CheckResult :=
  if filtered r then
    {| command := command r; description := description r; code := code r;
       success := success r; stdout := []; stderr := []; output := [];
       timestamp := timestamp r; skipped := skipped r;
       filtered := filtered r |}
  else r.

(** The keys of an object are pairwise distinct. *)
Definition distinctKeys (o : object) : Prop := NoDup (map fst o).

(** The commands that the loop over the failed tests and the switch on the
    type can push. *)
Definition knownCommands : list jsstring :=
  [cmdTsc; cmdLintFix; cmdPrismaGenerate; cmdPrismaMigrate; cmdCleanNext;
   cmdInstall; cmdAuditFix].

(** The pair that closes every command list. *)
Definition closingCommands : list jsstring :=
  [lit "npm run build:dev"; lit "node analyze-logs.js"].

(** A test for pairwise distinct strings. *)
Fixpoint distinctb (l : list jsstring) : bool :=
  match l with
  | [] => true
  | x :: l' => negb (existsb (eqs x) l') && distinctb l'
  end.

(** The object without the property [k]. *)
Definition removeKey (k : jsstring) (o : object) : object :=
  filter (fun e => negb (eqs k (fst e))) o.

(** A key that is neither an array index nor [__proto__]. *)
Definition plainKey (k : jsstring) : bool :=
  negb (isArrayIndex k) && negb (eqs k protoKey).

(** No key of the object is an array index or [__proto__]. *)
Definition plainKeys (o : object) : Prop :=
  forall e, In e o -> plainKey (fst e) = true.

(** The body of the loop for a key other than [__proto__]. *)
Definition copyPlain (scripts : object) (e : jsstring * json) : object :=
  let scripts1 := setProp (fst e) (snd e) scripts in
  if eqs (fst e) buildKey then setProp buildDevKey buildDevScript scripts1
  else scripts1.

(** The scripts after the update, when [build] sits between [pre] and
    [post]: [build:dev] stays where it was if it was listed before
    [build]; otherwise it directly follows [build], with the value it had
    after [build] if any. *)
Definition updatedLayout (pre post : object) : object :=
  if existsb (eqs buildDevKey) (map fst pre)
  then setProp buildDevKey buildDevScript pre
       ++ (buildKey, buildScript) :: post
  else pre ++ (buildKey, buildScript)
       :: (buildDevKey,
           match getProp buildDevKey post with
           | Some old => old
           | None => buildDevScript
           end)
       :: removeKey buildDevKey post.

(** Date and time fields in their calendar ranges, the year with four
    digits. *)
Definition validTime (t : LocalTime) : Prop :=
  (1000 <= fullYear t <= 9999)%Z /\ (0 <= monthIndex t <= 11)%Z
  /\ (1 <= dayOfMonth t <= 31)%Z /\ (0 <= hours t <= 23)%Z
  /\ (0 <= minutes t <= 59)%Z.

(** The checks behind the field lemmas: the printed number has the given
    width and reads back as the number. *)
Definition printsBack (width : nat) (print : Z -> jsstring) (z : Z) : bool :=
  (List.length (print z) =? width)%nat && (decimalValue (print z) =? z)%Z.

(** No occurrence of [w] in [s] is followed by a unit of the class [p]:
    a test. *)
Fixpoint noneFollowed (w : jsstring) (p : N -> bool) (s : jsstring) : bool :=
  match s with
  | [] => true
  | _ :: s' =>
    negb (startsWith s w
          && match nth_error s (List.length w) with
             | Some c => p c
             | None => false
             end)
    && noneFollowed w p s'
  end.

(** Sample scripts of a manifest, with an old [build:dev] listed after
    [build]. *)
Definition sampleScripts : object :=
  [(lit "dev", JString (lit "next dev"));
   (lit "build", JString (lit "next build"));
   (lit "start", JString (lit "next start"));
   (lit "build:dev", JString (lit "next build --debug"))].

(** A file of twelve numbered lines. *)
Definition sampleLines : list jsstring :=
  map (fun n => lit "line " ++ natToString n) (seq 1 12).




(** * Properties *)

(** ** Strings *)

Section StringFacts.

Implicit Types s p a b : jsstring.

Lemma startsWith_iff s p :
  startsWith s p = true <-> exists b, s = p ++ b.
Proof.
  revert s; induction p as [|c p IH]; intros s; simpl.
  - split; [intros _; now exists s | reflexivity].
  - destruct s as [|d s]; [split; [discriminate | intros [b Hb]; discriminate]|].
    rewrite andb_true_iff, N.eqb_eq, IH. split.
    + intros [-> [b ->]]. now exists b.
    + intros [b Hb]. injection Hb as -> ->. split; [reflexivity | now exists b].
Qed.

Lemma includes_iff s p :
  includes s p = true <-> exists a b, s = a ++ p ++ b.
Proof.
  induction s as [|d s IH].
  - simpl. rewrite orb_false_r, startsWith_iff. split.
    + intros [b Hb]. now exists [], b.
    + intros [a [b Hab]]. destruct a; [now exists b | discriminate].
  - cbn [includes]. rewrite orb_true_iff, startsWith_iff, IH. split.
    + intros [[b Hb] | [a [b Hab]]].
      * now exists [], b.
      * exists (d :: a), b. now rewrite Hab.
    + intros [a [b Hab]]. destruct a as [|e a].
      * left. now exists b.
      * right. injection Hab as _ ->. now exists a, b.
Qed.

Lemma includes_refl s : includes s s = true.
Proof. apply includes_iff. exists [], []. now rewrite app_nil_r. Qed.

Lemma includes_app_l s a p :
  includes s p = true -> includes (s ++ a) p = true.
Proof.
  rewrite !includes_iff. intros [x [y ->]]. exists x, (y ++ a).
  now rewrite <- !app_assoc.
Qed.

Lemma includes_app_r s a p :
  includes s p = true -> includes (a ++ s) p = true.
Proof.
  rewrite !includes_iff. intros [x [y ->]]. exists (a ++ x), y.
  now rewrite <- !app_assoc.
Qed.

Lemma includes_trans s p q :
  includes s p = true -> includes p q = true -> includes s q = true.
Proof.
  intros Hs Hp. apply includes_iff in Hs as [a [b ->]].
  apply includes_app_r, includes_app_l, Hp.
Qed.

Lemma includes_false_infix s a b p :
  includes (a ++ s ++ b) p = false -> includes s p = false.
Proof.
  intros H. destruct (includes s p) eqn:E; [|reflexivity].
  rewrite (includes_app_r _ a _ (includes_app_l _ b _ E)) in H. discriminate.
Qed.

Lemma toLowerCase_app a b :
  toLowerCase (a ++ b) = toLowerCase a ++ toLowerCase b.
Proof. apply map_app. Qed.

Lemma includes_toLowerCase s p :
  includes s p = true ->
  includes (toLowerCase s) (toLowerCase p) = true.
Proof.
  rewrite !includes_iff. intros [a [b ->]].
  exists (toLowerCase a), (toLowerCase b). now rewrite !toLowerCase_app.
Qed.

Lemma prefix_before_unit p t c s2 b :
  ~ In c p -> t ++ c :: s2 = p ++ b -> exists b', t = p ++ b'.
Proof.
  revert t. induction p as [|e p IH]; intros t Hc Heq.
  - now exists t.
  - destruct t as [|f t]; simpl in Heq; injection Heq as -> Heq.
    + exfalso. apply Hc. now left.
    + destruct (IH t) as [b' ->]; [intros Hin; apply Hc; now right | exact Heq |].
      now exists b'.
Qed.

(** An occurrence that avoids a unit lies on one side of that unit. *)
Lemma includes_split_at s1 s2 c p :
  ~ In c p ->
  includes (s1 ++ c :: s2) p = true ->
  includes s1 p = true \/ includes s2 p = true.
Proof.
  intros Hc. rewrite !includes_iff. intros [a [b Hab]].
  revert a Hab. induction s1 as [|d s1 IH]; intros a Hab.
  - destruct a as [|e a]; simpl in Hab.
    + left. destruct (prefix_before_unit p [] c s2 b Hc Hab) as [b' Hb'].
      now exists [], b'.
    + injection Hab as _ ->. right. now exists a, b.
  - destruct a as [|e a].
    + left. destruct (prefix_before_unit p (d :: s1) c s2 b Hc Hab) as [b' Hb'].
      now exists [], b'.
    + simpl in Hab. injection Hab as _ Hab.
      destruct (IH a Hab) as [[x [y Hx]] | H2].
      * left. exists (d :: x), y. now rewrite Hx.
      * now right.
Qed.

End StringFacts.

(** ** Trimming *)

Section TrimFacts.

Implicit Types s a b w p : jsstring.

Lemma trimStart_decomp s :
  exists w, allWhite w /\ s = w ++ trimStart s.
Proof.
  induction s as [|c s [w [Hw Hs]]].
  - exists []. split; [constructor | reflexivity].
  - simpl. destruct (isWhiteSpace c) eqn:E.
    + exists (c :: w). split; [now constructor | now rewrite Hs at 1].
    + exists []. split; [constructor | reflexivity].
Qed.

Lemma trimStart_white w s :
  allWhite w -> trimStart (w ++ s) = trimStart s.
Proof.
  induction 1 as [|c w Hc _ IH]; [reflexivity|]. simpl. now rewrite Hc.
Qed.

Lemma trimStart_app_keep a b :
  trimStart a <> [] -> trimStart (a ++ b) = trimStart a ++ b.
Proof.
  induction a as [|c a IH]; simpl; [congruence|].
  destruct (isWhiteSpace c); [exact IH | reflexivity].
Qed.

Lemma trimStart_idem s : trimStart (trimStart s) = trimStart s.
Proof.
  induction s as [|c s IH]; [reflexivity|]. simpl.
  destruct (isWhiteSpace c) eqn:E; [exact IH|]. simpl. now rewrite E.
Qed.

Lemma trimStart_all_white w : allWhite w -> trimStart w = [].
Proof.
  intros H. rewrite <- (app_nil_r w). now rewrite trimStart_white.
Qed.

Lemma allWhite_rev w : allWhite w -> allWhite (rev w).
Proof. apply Forall_rev. Qed.

Lemma allWhite_app w1 w2 : allWhite w1 -> allWhite w2 -> allWhite (w1 ++ w2).
Proof. intros H1 H2. apply Forall_app. now split. Qed.

Lemma trimEnd_decomp s :
  exists w, allWhite w /\ s = trimEnd s ++ w.
Proof.
  destruct (trimStart_decomp (rev s)) as [w [Hw Hs]].
  exists (rev w). split; [now apply allWhite_rev|].
  unfold trimEnd. rewrite <- rev_app_distr, <- Hs. now rewrite rev_involutive.
Qed.

Lemma trimEnd_white s w :
  allWhite w -> trimEnd (s ++ w) = trimEnd s.
Proof.
  intros H. unfold trimEnd. rewrite rev_app_distr.
  now rewrite trimStart_white by now apply allWhite_rev.
Qed.

Lemma trimEnd_app_keep a b :
  trimEnd b <> [] -> trimEnd (a ++ b) = a ++ trimEnd b.
Proof.
  intros H. unfold trimEnd in *. rewrite rev_app_distr.
  rewrite trimStart_app_keep.
  - now rewrite rev_app_distr, rev_involutive.
  - intros E. apply H. now rewrite E.
Qed.

Lemma trimEnd_nil : trimEnd [] = [].
Proof. reflexivity. Qed.

(** The trimmed text sits inside the original, between white space. *)
Lemma trim_decomp s :
  exists w1 w2, allWhite w1 /\ allWhite w2 /\ s = w1 ++ trim s ++ w2.
Proof.
  destruct (trimStart_decomp s) as [w1 [H1 E1]].
  destruct (trimEnd_decomp (trimStart s)) as [w2 [H2 E2]].
  exists w1, w2. repeat split; try assumption.
  unfold trim. now rewrite <- E2.
Qed.

Lemma includes_trim s p :
  includes (trim s) p = true -> includes s p = true.
Proof.
  intros H. destruct (trim_decomp s) as [w1 [w2 [_ [_ E]]]].
  rewrite E. now apply includes_app_r, includes_app_l.
Qed.

Lemma trimEnd_trimStart_comm_stable s : trimStart (trim s) = trim s.
Proof.
  unfold trim. set (t := trimStart s).
  assert (Ht : trimStart t = t) by apply trimStart_idem.
  destruct (trimEnd t) as [|c u] eqn:E; [reflexivity|].
  destruct (trimEnd_decomp t) as [w [_ Hw]]. rewrite E in Hw.
  rewrite Hw in Ht. simpl in Ht. simpl.
  destruct (isWhiteSpace c); [|reflexivity].
  exfalso.
  destruct (trimStart_decomp (u ++ w)) as [x [_ Hx]].
  rewrite Ht in Hx.
  apply (f_equal (@List.length N)) in Hx.
  rewrite !length_app in Hx. simpl in Hx. rewrite ?length_app in Hx. lia.
Qed.

Lemma trimEnd_idem s : trimEnd (trimEnd s) = trimEnd s.
Proof.
  unfold trimEnd. now rewrite rev_involutive, trimStart_idem.
Qed.

Lemma trim_stable s : stable (trim s).
Proof.
  split; [apply trimEnd_trimStart_comm_stable|].
  unfold trim. apply trimEnd_idem.
Qed.

(** Trimming white space around a stable core gives the core back. *)
Lemma trim_core w1 w2 p :
  allWhite w1 -> allWhite w2 -> stable p -> trim (w1 ++ p ++ w2) = p.
Proof.
  intros H1 H2 [Hs He]. unfold trim. rewrite trimStart_white by assumption.
  destruct p as [|c p].
  - simpl. now rewrite trimStart_all_white.
  - rewrite trimStart_app_keep by (rewrite Hs; discriminate).
    rewrite Hs. now rewrite trimEnd_white.
Qed.

Lemma stable_join a w b :
  stable a -> stable b -> a <> [] -> b <> [] -> stable (a ++ w ++ b).
Proof.
  intros [Ha _] [_ Hb] Na Nb. split.
  - rewrite trimStart_app_keep by (rewrite Ha; exact Na). now rewrite Ha.
  - rewrite app_assoc, trimEnd_app_keep by (rewrite Hb; exact Nb).
    now rewrite Hb, <- app_assoc.
Qed.

(** A stable, non-empty infix survives trimming. *)
Lemma trim_keeps a p b :
  stable p -> p <> [] ->
  exists a' b', trim (a ++ p ++ b) = a' ++ p ++ b'.
Proof.
  intros [Hs He] Np.
  assert (S1 : forall a b, exists a', trimStart (a ++ p ++ b) = a' ++ p ++ b).
  { intros a0 b0. induction a0 as [|c a0 [a' IH]].
    - exists []. simpl. rewrite trimStart_app_keep by (rewrite Hs; exact Np).
      now rewrite Hs.
    - simpl. destruct (isWhiteSpace c); [now exists a' | now exists (c :: a0)]. }
  assert (S2 : forall a b, exists b', trimEnd (a ++ p ++ b) = a ++ p ++ b').
  { intros a0 b0.
    destruct (trimEnd_decomp b0) as [w [Hw Hb0]].
    exists (trimEnd b0).
    destruct (trimEnd b0) as [|c u] eqn:E.
    - rewrite Hb0. simpl. rewrite app_assoc, trimEnd_white by assumption.
      rewrite app_nil_r. rewrite trimEnd_app_keep by (rewrite He; exact Np).
      now rewrite He.
    - rewrite !app_assoc. rewrite trimEnd_app_keep by (rewrite E; discriminate).
      now rewrite E. }
  unfold trim. destruct (S1 a b) as [a' ->]. destruct (S2 a' b) as [b' ->].
  now exists a', b'.
Qed.

End TrimFacts.

(** ** Lines *)

Section LineFacts.

Implicit Types s f l : jsstring.
Implicit Types ls : list jsstring.

Lemma splitLines_nonempty s : splitLines s <> [].
Proof.
  destruct s as [|c s]; simpl; [discriminate|].
  destruct (c =? 10)%N; [discriminate|].
  destruct (splitLines s); discriminate.
Qed.

Lemma join_cons sep l l' ls :
  join sep (l :: l' :: ls) = l ++ sep ++ join sep (l' :: ls).
Proof. reflexivity. Qed.

Lemma join_splitLines s : join nl (splitLines s) = s.
Proof.
  induction s as [|c s IH]; [reflexivity|]. cbn [splitLines].
  destruct (splitLines s) as [|l ls] eqn:El; [now apply splitLines_nonempty in El|].
  destruct (c =? 10)%N eqn:E.
  - apply N.eqb_eq in E. subst c. rewrite join_cons, IH. reflexivity.
  - destruct ls as [|l' ls].
    + simpl in *. now rewrite IH.
    + rewrite join_cons in *. rewrite <- IH. reflexivity.
Qed.

Lemma splitLines_no_nl s l : In l (splitLines s) -> ~ In 10%N l.
Proof.
  revert l. induction s as [|c s IH]; intros l; simpl.
  - intros [<- | []]. intros [].
  - destruct (c =? 10)%N eqn:E.
    + intros [<- | H]; [intros [] | now apply IH].
    + destruct (splitLines s) as [|l0 ls] eqn:El; [now apply splitLines_nonempty in El|].
      intros [<- | H].
      * intros [Hc | Hin]; [subst c; now rewrite N.eqb_refl in E|].
        apply (IH l0); [now left | exact Hin].
      * apply IH. now right.
Qed.

Lemma splitLines_single l : ~ In 10%N l -> splitLines l = [l].
Proof.
  induction l as [|c l IH]; intros H; [reflexivity|]. simpl.
  destruct (c =? 10)%N eqn:E.
  - apply N.eqb_eq in E. exfalso. apply H. now left.
  - rewrite IH; [reflexivity|]. intros Hin. apply H. now right.
Qed.

Lemma splitLines_app l s :
  ~ In 10%N l -> splitLines (l ++ 10%N :: s) = l :: splitLines s.
Proof.
  induction l as [|c l IH]; intros H; [reflexivity|]. simpl.
  destruct (c =? 10)%N eqn:E.
  - apply N.eqb_eq in E. exfalso. apply H. now left.
  - rewrite IH; [reflexivity|]. intros Hin. apply H. now right.
Qed.

Lemma includes_join_intro ls l f :
  In l ls -> includes l f = true -> includes (join nl ls) f = true.
Proof.
  induction ls as [|l0 ls IH]; [intros []|].
  intros [-> | Hin] Hf.
  - destruct ls; [exact Hf | rewrite join_cons; now apply includes_app_l].
  - destruct ls as [|l1 ls]; [destruct Hin|].
    rewrite join_cons. now apply includes_app_r, includes_app_r, IH.
Qed.

Lemma includes_join_elim ls f :
  ~ In 10%N f -> f <> [] ->
  includes (join nl ls) f = true ->
  exists l, In l ls /\ includes l f = true.
Proof.
  intros Hnl Hne. induction ls as [|l0 ls IH]; intros H.
  - simpl in H. destruct f; [contradiction | discriminate].
  - destruct ls as [|l1 ls].
    + exists l0. split; [now left | exact H].
    + rewrite join_cons in H. unfold nl in H. simpl in H.
      destruct (includes_split_at _ _ _ _ Hnl H) as [H1 | H2].
      * exists l0. split; [now left | exact H1].
      * destruct (IH H2) as [l [Hin Hl]]. exists l. split; [now right | exact Hl].
Qed.

(** What a line contains, the text contains. *)
Lemma includes_of_line s l f :
  In l (splitLines s) -> includes l f = true -> includes s f = true.
Proof.
  intros Hin Hf. rewrite <- (join_splitLines s).
  now apply includes_join_intro with l.
Qed.

(** An occurrence free of line feeds lies within one line. *)
Lemma includes_in_line s f :
  ~ In 10%N f -> f <> [] -> includes s f = true ->
  exists l, In l (splitLines s) /\ includes l f = true.
Proof.
  intros Hnl Hne H. apply includes_join_elim; try assumption.
  now rewrite join_splitLines.
Qed.

End LineFacts.

(** ** Noise filter *)

Section NoiseFilterFacts.

Lemma logScriptFiles_shape f :
  In f logScriptFiles -> ~ In 10%N f /\ f <> [].
Proof.
  intros [<- | [<- | [<- | []]]]; (split; [|discriminate]);
    vm_compute; intuition discriminate.
Qed.

Lemma hasScriptReference_iff files line :
  hasScriptReference files line = true <->
  exists f, In f files /\ includes line f = true.
Proof.
  unfold hasScriptReference. rewrite existsb_exists. split.
  - intros [f [Hin H]]. exists f. split; [exact Hin|].
    rewrite !orb_true_iff in H.
    destruct H as [[[[H | H] | H] | H] | H]; [exact H | | | |];
      apply (includes_trans _ _ _ H).
    + apply includes_app_r, includes_refl.
    + apply includes_app_r, includes_refl.
    + apply includes_app_r, includes_app_l, includes_refl.
    + apply includes_app_r, includes_app_l, includes_refl.
  - intros [f [Hin H]]. exists f. split; [exact Hin|]. now rewrite H.
Qed.

Lemma hasScriptReference_mentions line :
  hasScriptReference logScriptFiles line = true <-> mentionsNoise line.
Proof. apply hasScriptReference_iff. Qed.

Lemma hasLogScriptError_iff r :
  hasLogScriptError r = true <->
  exists f, In f logScriptFiles /\
    (includes (output r) f = true \/ includes (stdout r) f = true
     \/ includes (stderr r) f = true).
Proof.
  unfold hasLogScriptError. rewrite existsb_exists.
  split; intros [f [Hin H]]; exists f; (split; [exact Hin|]).
  - rewrite !orb_true_iff in H. tauto.
  - rewrite !orb_true_iff. tauto.
Qed.

(** Nothing that is left mentions an allowlisted file. *)
Lemma remaining_clean text f :
  In f logScriptFiles -> includes (remaining text) f = false.
Proof.
  intros Hin. destruct (logScriptFiles_shape f Hin) as [Hnl Hne].
  unfold remaining, filterLogScriptLines.
  destruct (truthy text).
  - destruct (includes _ f) eqn:E; [|reflexivity].
    apply includes_join_elim in E as [l [Hl Hf]]; try assumption.
    apply filter_In in Hl as [_ Hl].
    assert (H : hasScriptReference logScriptFiles l = true).
    { apply hasScriptReference_iff. now exists f. }
    now rewrite H in Hl.
  - destruct f; [contradiction | reflexivity].
Qed.

Lemma filter_all_noise (ls : list jsstring) :
  Forall mentionsNoise ls ->
  filter (fun line => negb (hasScriptReference logScriptFiles line)) ls = [].
Proof.
  induction 1 as [|l ls Hl _ IH]; [reflexivity|]. cbn [filter].
  apply hasScriptReference_mentions in Hl. now rewrite Hl.
Qed.

(** A text made of allowlisted lines only leaves nothing. *)
Lemma remaining_all_noise text :
  Forall mentionsNoise (splitLines text) -> remaining text = [].
Proof.
  intros H. unfold remaining, filterLogScriptLines.
  destruct (truthy text); [|reflexivity].
  now rewrite filter_all_noise.
Qed.

Lemma all_noise_mentions text :
  Forall mentionsNoise (splitLines text) ->
  exists f, In f logScriptFiles /\ includes text f = true.
Proof.
  intros H. destruct (splitLines text) as [|l ls] eqn:E;
    [now apply splitLines_nonempty in E|].
  inversion H as [|? ? [f [Hin Hf]] _]; subst.
  exists f. split; [exact Hin|].
  apply includes_of_line with l; [rewrite E; now left | exact Hf].
Qed.

Lemma checkForRemainingErrors_false out sout serr :
  noIndicator (out ++ sout ++ serr) ->
  checkForRemainingErrors out sout serr = false.
Proof.
  intros H. unfold checkForRemainingErrors.
  destruct (truthy _); [|reflexivity].
  destruct (existsb _ _) eqn:E; [|reflexivity].
  apply existsb_exists in E as [ind [Hin Hinc]].
  destruct (trim_decomp (out ++ sout ++ serr)) as [w1 [w2 [_ [_ Hd]]]].
  specialize (H ind Hin). rewrite Hd, !toLowerCase_app in H.
  apply includes_false_infix in H. congruence.
Qed.

Lemma checkForRemainingErrors_true text rest :
  includes text (lit "Error:") = true ->
  checkForRemainingErrors text rest [] = true
  /\ forall serr, checkForRemainingErrors text rest serr = true.
Proof.
  intros H.
  assert (G : forall serr, checkForRemainingErrors text rest serr = true).
  { intros serr. unfold checkForRemainingErrors.
    apply includes_iff in H as [a [b ->]].
    rewrite <- !app_assoc.
    destruct (trim_keeps a (lit "Error:") (b ++ rest ++ serr)) as [a' [b' E]].
    - split; reflexivity.
    - discriminate.
    - rewrite E.
      replace (truthy (a' ++ lit "Error:" ++ b')) with true
        by (destruct a'; reflexivity).
      apply existsb_exists. exists (lit "Error:"). split.
      + right. now left.
      + apply includes_toLowerCase, includes_app_r, includes_app_l,
          includes_refl. }
  split; [apply G | exact G].
Qed.

Lemma filterResult_passthrough r :
  skipped r || success r = true -> filterResult r = r.
Proof. intros H. unfold filterResult. now rewrite H. Qed.

Lemma filterResult_clean r :
  hasLogScriptError r = false -> filterResult r = r.
Proof.
  intros H. unfold filterResult. rewrite H. now destruct (_ || _).
Qed.

(** After one pass a result is out of the filter's reach. *)
Lemma filterResult_settled r :
  skipped (filterResult r) || success (filterResult r) = true
  \/ hasLogScriptError (filterResult r) = false.
Proof.
  unfold filterResult.
  destruct (skipped r || success r) eqn:Hp; [now left|].
  destruct (hasLogScriptError r) eqn:Hn; [|now right].
  destruct (checkForRemainingErrors _ _ _); cbn [negb].
  - right. unfold hasLogScriptError. cbn [output stdout stderr].
    apply not_true_is_false. intros E.
    apply existsb_exists in E as [f [Hin E]].
    fold (remaining (output r)) in E. fold (remaining (stdout r)) in E.
    fold (remaining (stderr r)) in E.
    now rewrite !remaining_clean in E by assumption.
  - left. cbn [skipped success]. apply orb_true_r.
Qed.

Lemma filterResult_fixed r : filterResult (filterResult r) = filterResult r.
Proof.
  destruct (filterResult_settled r) as [H | H].
  - now apply filterResult_passthrough.
  - now apply filterResult_clean.
Qed.

End NoiseFilterFacts.

(** ** Claims on the noise filter *)

Section NoiseFilterClaims.

(** The result the filter returns in place of the [i]-th one. *)
Lemma nth_filterLogScriptErrors rs i r :
  nth_error rs i = Some r ->
  nth_error (filterLogScriptErrors rs) i = Some (filterResult r).
Proof.
  intros H. unfold filterLogScriptErrors. now rewrite nth_error_map, H.
Qed.

Lemma promoted r :
  success r = false -> skipped r = false ->
  hasLogScriptError r = true ->
  noIndicator (remaining (output r) ++ remaining (stdout r)
               ++ remaining (stderr r)) ->
  filterResult r =
  {| command := command r; description := description r; code := Some 0%Z;
     success := true; stdout := []; stderr := []; output := [];
     timestamp := timestamp r; skipped := skipped r; filtered := true |}.
Proof.
  intros Hs Hk Hn Hi. unfold filterResult. rewrite Hs, Hk, Hn. cbn [orb].
  fold (remaining (output r)). fold (remaining (stdout r)).
  fold (remaining (stderr r)).
  now rewrite checkForRemainingErrors_false.
Qed.

(** C2, amended.  A failed, non-skipped result whose output consists only
    of lines that mention an allowlisted file, and whose stdout and stderr
    hold no error indicator outside the lines that mention such a file, is
    returned by the filter with success set, exit code 0, the three text
    fields empty and the filtered flag set. *)
Theorem noise_only_result_is_promoted
  (rs : list CheckResult) (i : nat) (r : CheckResult) :
  nth_error rs i = Some r ->
  success r = false -> skipped r = false ->
  Forall mentionsNoise (splitLines (output r)) ->
  noIndicator (remaining (stdout r) ++ remaining (stderr r)) ->
  exists r', nth_error (filterLogScriptErrors rs) i = Some r'
    /\ success r' = true /\ code r' = Some 0%Z
    /\ output r' = [] /\ stdout r' = [] /\ stderr r' = []
    /\ filtered r' = true.
Proof.
  intros Hi Hs Hk Hall Hrest.
  exists (filterResult r). split; [now apply nth_filterLogScriptErrors|].
  rewrite promoted; try assumption.
  - cbn. repeat split; reflexivity.
  - apply hasLogScriptError_iff.
    destruct (all_noise_mentions _ Hall) as [f [Hin Hf]].
    exists f. split; [exact Hin | now left].
  - now rewrite (remaining_all_noise _ Hall).
Qed.

(** C2, as stated, fails: the condition on the output alone is not
    enough.  The output of this executor result is one line, which
    mentions an allowlisted file, and nothing of it is left outside such
    lines; but the filter tests stdout and stderr each by itself, the file
    name is on stderr, and the stdout line, kept whole, holds an
    indicator: the result is not promoted. *)
Lemma noise_only_output_is_not_promoted :
  success splitReference = false /\ skipped splitReference = false
  /\ output splitReference
     = lit "ReferenceError: x is not defined in build-logger.js"
  /\ forallb (hasScriptReference logScriptFiles)
       (splitLines (output splitReference)) = true
  /\ remaining (output splitReference) = []
  /\ nth_error (filterLogScriptErrors [splitReference]) 0
     = Some (filterResult splitReference)
  /\ success (filterResult splitReference) = false
  /\ code (filterResult splitReference) = Some 1%Z
  /\ stdout (filterResult splitReference)
     = lit "ReferenceError: x is not defined in"
  /\ filtered (filterResult splitReference) = true.
Proof. vm_compute. repeat split; reflexivity. Qed.

(** C3.  When the output of a failed, non-skipped result is one line that
    mentions an allowlisted file and one genuine line containing [Error:],
    in either order, the filter leaves success unset, sets the filtered
    flag, and the output it returns is the genuine line. *)
Theorem genuine_error_line_is_kept
  (rs : list CheckResult) (i : nat) (r : CheckResult)
  (noise genuine : jsstring) :
  nth_error rs i = Some r ->
  success r = false -> skipped r = false ->
  ~ In 10%N noise -> ~ In 10%N genuine ->
  mentionsNoise noise -> ~ mentionsNoise genuine ->
  includes genuine (lit "Error:") = true ->
  output r = noise ++ nl ++ genuine \/ output r = genuine ++ nl ++ noise ->
  exists r', nth_error (filterLogScriptErrors rs) i = Some r'
    /\ success r' = false /\ filtered r' = true
    /\ output r' = genuine /\ includes (output r') genuine = true.
Proof.
  intros Hi Hs Hk Nn Ng Hnoise Hgen Herr Hout.
  exists (filterResult r). split; [now apply nth_filterLogScriptErrors|].
  assert (Hn : hasScriptReference logScriptFiles noise = true)
    by now apply hasScriptReference_mentions.
  assert (Hg : hasScriptReference logScriptFiles genuine = false).
  { apply not_true_is_false. intros E. apply Hgen.
    now apply hasScriptReference_mentions. }
  assert (Hrem : remaining (output r) = genuine).
  { unfold remaining, filterLogScriptLines.
    destruct Hout as [-> | ->].
    - replace (truthy _) with true by (destruct noise; reflexivity).
      unfold nl. cbn [app]. rewrite splitLines_app by assumption.
      rewrite splitLines_single by assumption.
      cbn [filter]. now rewrite Hn, Hg.
    - replace (truthy _) with true by (destruct genuine; reflexivity).
      unfold nl. cbn [app]. rewrite splitLines_app by assumption.
      rewrite splitLines_single by assumption.
      cbn [filter]. now rewrite Hn, Hg. }
  assert (Hmention : hasLogScriptError r = true).
  { apply hasLogScriptError_iff. destruct Hnoise as [f [Hin Hf]].
    exists f. split; [exact Hin|]. left.
    destruct Hout as [-> | ->].
    - now apply includes_app_l.
    - now apply includes_app_r, includes_app_r. }
  unfold filterResult. rewrite Hs, Hk, Hmention. cbn [orb].
  fold (remaining (output r)). fold (remaining (stdout r)).
  fold (remaining (stderr r)). rewrite Hrem.
  destruct (checkForRemainingErrors_true genuine (remaining (stdout r)) Herr)
    as [_ G].
  rewrite G. cbn. repeat split; try assumption. apply includes_refl.
Qed.

(** C4.  A failed, non-skipped result that mentions an allowlisted file in
    one of its text fields, and whose text left after removing the lines
    that mention such files has no error indicator, is promoted to success
    with the three text fields emptied - whatever that left-over text is. *)
Theorem leftover_without_indicator_is_discarded
  (rs : list CheckResult) (i : nat) (r : CheckResult) :
  nth_error rs i = Some r ->
  success r = false -> skipped r = false ->
  (exists f, In f logScriptFiles /\
     (includes (output r) f = true \/ includes (stdout r) f = true
      \/ includes (stderr r) f = true)) ->
  noIndicator (remaining (output r) ++ remaining (stdout r)
               ++ remaining (stderr r)) ->
  exists r', nth_error (filterLogScriptErrors rs) i = Some r'
    /\ success r' = true
    /\ output r' = [] /\ stdout r' = [] /\ stderr r' = [].
Proof.
  intros Hi Hs Hk Hm Hrest.
  exists (filterResult r). split; [now apply nth_filterLogScriptErrors|].
  rewrite promoted; try assumption.
  - cbn. repeat split; reflexivity.
  - now apply hasLogScriptError_iff.
Qed.

Lemma runCommand_invariant cmd args descr now ev :
  invariant (runCommand cmd args descr now ev).
Proof. destruct ev; split; cbn; congruence. Qed.

Lemma filterResult_invariant r : invariant r -> invariant (filterResult r).
Proof.
  intros [H1 H2]. unfold filterResult.
  destruct (skipped r || success r) eqn:Hp; [now split|].
  apply orb_false_elim in Hp as [Hk Hs].
  destruct (hasLogScriptError r); [|now split].
  destruct (checkForRemainingErrors _ _ _); split; cbn; congruence.
Qed.

(** C7.  Every result the executor produces satisfies both invariants
    (skipped implies not successful, filtered implies not skipped), and so
    does every result in the list the filter returns for executor results;
    the filter keeps the invariants of any list that has them. *)
Theorem results_satisfy_invariants :
  (forall cmd args descr now ev,
      invariant (runCommand cmd args descr now ev))
  /\ (forall runs : list Run,
         Forall invariant (filterLogScriptErrors (map execute runs)))
  /\ (forall rs, Forall invariant rs ->
         Forall invariant (filterLogScriptErrors rs)).
Proof.
  assert (P : forall rs, Forall invariant rs ->
                Forall invariant (filterLogScriptErrors rs)).
  { intros rs H. unfold filterLogScriptErrors. apply Forall_map.
    eapply Forall_impl; [|exact H]. apply filterResult_invariant. }
  repeat split.
  - apply runCommand_invariant.
  - apply runCommand_invariant.
  - intros runs. apply P. apply Forall_map, Forall_forall.
    intros x _. apply runCommand_invariant.
  - exact P.
Qed.

(** C8.  The filter is idempotent: applied to its own result it returns
    that result. *)
Theorem filterLogScriptErrors_idempotent (rs : list CheckResult) :
  filterLogScriptErrors (filterLogScriptErrors rs) = filterLogScriptErrors rs.
Proof.
  unfold filterLogScriptErrors. rewrite map_map. apply map_ext.
  intros r. apply filterResult_fixed.
Qed.

End NoiseFilterClaims.

(** ** Claims on the executor and on the overall status *)

Section ExecutorClaims.

Lemma trim_two (l1 A r1 l2 B r2 : jsstring) :
  allWhite l1 -> allWhite r1 -> allWhite l2 -> allWhite r2 ->
  stable A -> stable B ->
  exists w, allWhite w /\
    trim ((l1 ++ A ++ r1) ++ (l2 ++ B ++ r2)) = A ++ w ++ B.
Proof.
  intros Hl1 Hr1 Hl2 Hr2 Sa Sb.
  destruct A as [|a A'].
  - exists []. split; [constructor|]. cbn [app].
    replace ((l1 ++ r1) ++ l2 ++ B ++ r2) with ((l1 ++ r1 ++ l2) ++ B ++ r2)
      by now rewrite <- !app_assoc.
    apply trim_core; try assumption.
    now repeat apply allWhite_app.
  - destruct B as [|b B'].
    + exists []. split; [constructor|]. rewrite !app_nil_r. cbn [app].
      change (a :: A' ++ r1) with ((a :: A') ++ r1).
      replace ((l1 ++ (a :: A') ++ r1) ++ l2 ++ r2)
        with (l1 ++ (a :: A') ++ (r1 ++ l2 ++ r2))
        by now rewrite <- !app_assoc.
      apply trim_core; try assumption.
      now repeat apply allWhite_app.
    + exists (r1 ++ l2). split; [now apply allWhite_app|].
      replace ((l1 ++ (a :: A') ++ r1) ++ l2 ++ (b :: B') ++ r2)
        with (l1 ++ ((a :: A') ++ (r1 ++ l2) ++ (b :: B')) ++ r2)
        by now rewrite <- !app_assoc.
      apply trim_core; try assumption.
      apply stable_join; try assumption; discriminate.
Qed.

Lemma trim_of_streams (out err : jsstring) :
  exists w, allWhite w /\ trim (out ++ err) = trim out ++ w ++ trim err.
Proof.
  destruct (trim_decomp out) as [l1 [r1 [Hl1 [Hr1 E1]]]].
  destruct (trim_decomp err) as [l2 [r2 [Hl2 [Hr2 E2]]]].
  pose proof (trim_two l1 (trim out) r1 l2 (trim err) r2 Hl1 Hr1 Hl2 Hr2
                (trim_stable out) (trim_stable err)) as G.
  now rewrite <- E1, <- E2 in G.
Qed.

(** C10, as the code has it.  For a completed process the output field is
    the stdout field, then a run of white space (the white space that
    trimming removed between the two streams; it may be empty), then the
    stderr field. *)
Theorem output_is_fields_around_white_space
  (cmd : jsstring) (args : list jsstring) (descr now : jsstring)
  (c : option Z) (out err : jsstring) :
  exists w, allWhite w /\
    output (runCommand cmd args descr now (OnClose c out err))
    = stdout (runCommand cmd args descr now (OnClose c out err))
      ++ w ++ stderr (runCommand cmd args descr now (OnClose c out err)).
Proof. cbn. apply trim_of_streams. Qed.

(** C10, as stated, fails: a line feed that ends the captured stdout is
    kept inside the output but trimmed off the stdout field. *)
Lemma output_differs_from_field_concatenation :
  output (runCommand (lit "npx") [lit "tsc"] (lit "Verificação TypeScript")
            (lit "2025-01-02T03:04:05.000Z")
            (OnClose (Some 1%Z) (lit "a" ++ nl) (lit "b")))
  <> stdout (runCommand (lit "npx") [lit "tsc"] (lit "Verificação TypeScript")
               (lit "2025-01-02T03:04:05.000Z")
               (OnClose (Some 1%Z) (lit "a" ++ nl) (lit "b")))
     ++ stderr (runCommand (lit "npx") [lit "tsc"]
                  (lit "Verificação TypeScript")
                  (lit "2025-01-02T03:04:05.000Z")
                  (OnClose (Some 1%Z) (lit "a" ++ nl) (lit "b"))).
Proof. vm_compute. discriminate. Qed.

(** C9.  The overall status of the report is success exactly when every
    result is successful or skipped; the status block of the report opens
    with the success line in exactly that case. *)
Theorem overallSuccess_iff_all_pass_or_skipped
  (rs : list CheckResult) (isRecurrent : bool) :
  (overallSuccess rs = true <->
   forall r, In r rs -> success r = true \/ skipped r = true)
  /\ (startsWith (statusBlock rs isRecurrent) (lit "✅ Status: SUCESSO") = true
      <-> forall r, In r rs -> success r = true \/ skipped r = true).
Proof.
  assert (H : overallSuccess rs = true <->
              forall r, In r rs -> success r = true \/ skipped r = true).
  { unfold overallSuccess. rewrite forallb_forall.
    split; intros G r Hr; specialize (G r Hr);
      [now apply orb_true_iff | now apply orb_true_iff]. }
  split; [exact H|]. rewrite <- H. unfold statusBlock.
  destruct (overallSuccess rs).
  - split; [reflexivity|]. intros _. apply startsWith_iff.
    eexists. reflexivity.
  - split; [|discriminate]. intros E. exfalso. revert E.
    vm_compute. destruct isRecurrent; discriminate.
Qed.

End ExecutorClaims.

(** ** Recurrence detector *)

Section RecurrenceFacts.

Lemma compareMtime_some a b d :
  compareMtime a b = Some d ->
  exists x y, mtime a = Some x /\ mtime b = Some y /\ d = (y - x)%Z.
Proof.
  unfold compareMtime. destruct (mtime a) as [x|], (mtime b) as [y|];
    try discriminate.
  intros H. injection H as <-. now exists x, y.
Qed.

Lemma insertByMtime_perm f l s :
  insertByMtime f l = Some s -> Permutation s (f :: l).
Proof.
  revert s. induction l as [|g l IH]; intros s H; cbn [insertByMtime] in H.
  - now injection H as <-.
  - destruct (compareMtime f g) as [d|]; [|discriminate].
    destruct (d <=? 0)%Z.
    + now injection H as <-.
    + destruct (insertByMtime f l) as [s'|]; [|discriminate].
      injection H as <-. rewrite (IH s' eq_refl). apply perm_swap.
Qed.

Lemma sortByMtimeDesc_perm l s :
  sortByMtimeDesc l = Some s -> Permutation s l.
Proof.
  revert s. induction l as [|f l IH]; intros s H; cbn [sortByMtimeDesc] in H.
  - now injection H as <-.
  - destruct (sortByMtimeDesc l) as [s'|]; [|discriminate].
    rewrite (insertByMtime_perm _ _ _ H). constructor. now apply IH.
Qed.

Lemma notOlder_trans a b c : notOlder a b -> notOlder b c -> notOlder a c.
Proof.
  unfold notOlder.
  destruct (mtime a), (mtime b), (mtime c); try tauto. lia.
Qed.

Lemma insertByMtime_sorted f l s :
  StronglySorted notOlder l -> insertByMtime f l = Some s ->
  StronglySorted notOlder s.
Proof.
  intros Hl. revert s.
  induction Hl as [|g l Hl IH Hg]; intros s H; cbn [insertByMtime] in H.
  - injection H as <-. constructor; constructor.
  - destruct (compareMtime f g) as [d|] eqn:Ec; [|discriminate].
    apply compareMtime_some in Ec as [x [y [Ex [Ey ->]]]].
    destruct (y - x <=? 0)%Z eqn:E.
    + injection H as <-. apply Z.leb_le in E.
      assert (Hfg : notOlder f g).
      { unfold notOlder. rewrite Ex, Ey. lia. }
      constructor; [now constructor|].
      constructor; [exact Hfg|].
      eapply Forall_impl; [|exact Hg].
      intros h Hh. now apply (notOlder_trans f g h).
    + destruct (insertByMtime f l) as [s'|] eqn:Ei; [|discriminate].
      injection H as <-. apply Z.leb_gt in E.
      constructor; [now apply IH|].
      eapply Permutation_Forall.
      * symmetry. apply (insertByMtime_perm _ _ _ Ei).
      * constructor; [|exact Hg]. unfold notOlder. rewrite Ex, Ey. lia.
Qed.

Lemma sortByMtimeDesc_sorted l s :
  sortByMtimeDesc l = Some s -> StronglySorted notOlder s.
Proof.
  revert s. induction l as [|f l IH]; intros s H; cbn [sortByMtimeDesc] in H.
  - injection H as <-. constructor.
  - destruct (sortByMtimeDesc l) as [s'|]; [|discriminate].
    eapply insertByMtime_sorted; [|exact H]. now apply IH.
Qed.

(** When every file can be examined the sort returns. *)
Lemma insertByMtime_some f l :
  mtime f <> None -> (forall g, In g l -> mtime g <> None) ->
  exists s, insertByMtime f l = Some s.
Proof.
  intros Hf. induction l as [|g l IH]; intros Hl; cbn [insertByMtime].
  - now exists [f].
  - unfold compareMtime.
    destruct (mtime f) as [x|]; [|contradiction].
    destruct (mtime g) as [y|] eqn:Ey;
      [|exfalso; apply (Hl g); [now left | exact Ey]].
    destruct (y - x <=? 0)%Z; [now eexists|].
    destruct IH as [s' ->]; [|now eexists].
    intros h Hh. apply Hl. now right.
Qed.

Lemma sortByMtimeDesc_some l :
  (forall g, In g l -> mtime g <> None) -> exists s, sortByMtimeDesc l = Some s.
Proof.
  induction l as [|f l IH]; intros Hl; cbn [sortByMtimeDesc].
  - now exists [].
  - destruct IH as [s' E]; [intros g Hg; apply Hl; now right|].
    rewrite E. apply insertByMtime_some; [apply Hl; now left|].
    intros g Hg. apply Hl. right.
    eapply Permutation_in; [apply (sortByMtimeDesc_perm _ _ E) | exact Hg].
Qed.





Lemma realFailure_iff r :
  realFailure r = true <-> success r = false /\ skipped r = false.
Proof.
  unfold realFailure. rewrite andb_true_iff, !negb_true_iff. tauto.
Qed.

Lemma logShowsRecurrence_iff rs t :
  logShowsRecurrence rs t = true <-> recurs rs t.
Proof.
  unfold logShowsRecurrence, recurs, hasRecurrentError, hasFailedTests,
    currentErrors.
  rewrite !andb_true_iff, !existsb_exists. split.
  - intros [[_ Hst] [d [Hd Hinc]]].
    apply in_map_iff in Hd as [r [<- Hr]].
    apply filter_In in Hr as [Hin Hr]. apply realFailure_iff in Hr as [Hs Hk].
    apply andb_true_iff in Hinc as [Hdesc Hf].
    repeat split; try assumption. now exists r.
  - intros [Hst [Hf [r [Hin [Hs [Hk Hdesc]]]]]].
    assert (Hr : realFailure r = true) by now apply realFailure_iff.
    repeat split; try assumption.
    + now exists r.
    + exists (description r). split.
      * apply in_map, filter_In. now split.
      * now rewrite Hdesc, Hf.
Qed.

(** The loop answers [true] exactly when some report shows a recurrence
    and every report before it could be read. *)
Lemma scanRecentLogs_true rs logs :
  scanRecentLogs rs logs = Some true <->
  exists before f after t,
    logs = before ++ f :: after
    /\ (forall g, In g before -> content g <> None)
    /\ content f = Some t /\ recurs rs t.
Proof.
  induction logs as [|f logs IH]; simpl.
  - split; [discriminate|]. intros [b [f [a [t [E _]]]]].
    now destruct b.
  - destruct (content f) as [t|] eqn:Ec.
    + destruct (logShowsRecurrence rs t) eqn:El.
      * split; [intros _ | reflexivity].
        apply logShowsRecurrence_iff in El.
        exists [], f, logs, t.
        split; [reflexivity|]. split; [intros g []|]. now split.
      * rewrite IH. split.
        -- intros [b [f' [a [t' [E [Hb [Hc Hr]]]]]]].
           exists (f :: b), f', a, t'.
           split; [now rewrite E|]. split; [|now split].
           intros g [<- | Hg]; [congruence | now apply Hb].
        -- intros [b [f' [a [t' [E [Hb [Hc Hr]]]]]]].
           destruct b as [|g b]; simpl in E; injection E as <- ->.
           ++ rewrite Ec in Hc. injection Hc as <-.
              apply logShowsRecurrence_iff in Hr. congruence.
           ++ exists b, f', a, t'.
              split; [reflexivity|]. split; [|now split].
              intros g' Hg'. apply Hb. now right.
    + split; [discriminate|].
      intros [b [f' [a [t' [E [Hb [Hc Hr]]]]]]].
      destruct b as [|g b]; simpl in E; injection E as <- ->.
      * congruence.
      * exfalso. apply (Hb f); [now left | exact Ec].
Qed.

End RecurrenceFacts.

Section RecurrenceClaims.



End RecurrenceClaims.

(** ** Error detection on rendered reports *)

Section HasErrorClaims.

Lemma summaryBlock_has_failure_label rs :
  includes (summaryBlock rs) (lit "❌ Falhas:") = true.
Proof.
  unfold summaryBlock. cbv zeta.
  do 6 apply includes_app_r. apply includes_app_l.
  vm_compute. reflexivity.
Qed.

Lemma report_has_failure_label env rs isRecurrent :
  includes (generateComprehensiveLog env rs isRecurrent) (lit "❌ Falhas:")
  = true.
Proof.
  unfold generateComprehensiveLog.
  do 3 apply includes_app_r. apply includes_app_l.
  apply summaryBlock_has_failure_label.
Qed.

(** The third indicator is met by the summary of every report. *)
Lemma hasError_of_report env rs isRecurrent :
  hasError (generateComprehensiveLog env rs isRecurrent) = true.
Proof.
  unfold hasError. apply orb_true_iff. left.
  apply existsb_exists. exists (lit "❌ Falhas:"). split.
  - right. right. now left.
  - apply includes_toLowerCase, report_has_failure_label.
Qed.

(** C1, where the code departs from it.  [hasError] answers [true] on every
    rendered report, because the summary always prints the failure label;
    so it also does on the report of a run whose only check passed, whose
    overall status is success. *)
Theorem hasError_true_on_successful_report :
  (forall env rs isRecurrent,
      hasError (generateComprehensiveLog env rs isRecurrent) = true)
  /\ overallSuccess [passingCheck] = true
  /\ hasError (generateComprehensiveLog sampleEnv [passingCheck] false) = true
  /\ test failureCountPattern
          (generateComprehensiveLog sampleEnv [passingCheck] false) = false.
Proof.
  split; [exact hasError_of_report|].
  split; [reflexivity|]. split; vm_compute; reflexivity.
Qed.

End HasErrorClaims.

(** ** Extraction and remediation commands *)

Section DiagnosticFacts.

Lemma eqs_iff (a b : jsstring) : eqs a b = true <-> a = b.
Proof.
  unfold eqs. rewrite andb_true_iff, Nat.eqb_eq, startsWith_iff. split.
  - intros [Hl [t ->]]. rewrite length_app in Hl.
    destruct t; [now rewrite app_nil_r | simpl in Hl; lia].
  - intros ->. split; [reflexivity|]. exists []. now rewrite app_nil_r.
Qed.

Lemma hasCommand_iff commands c : hasCommand commands c = true <-> In c commands.
Proof.
  unfold hasCommand. rewrite existsb_exists. split.
  - intros [x [Hin E]]. apply eqs_iff in E. now subst.
  - intros H. exists c. split; [exact H | now apply eqs_iff].
Qed.

Lemma uniqueFrom_In seen l x :
  In x (uniqueFrom seen l) <-> In x l /\ ~ In x seen.
Proof.
  revert seen. induction l as [|c l IH]; intros seen; simpl; [tauto|].
  destruct (hasCommand seen c) eqn:E.
  - apply hasCommand_iff in E. rewrite IH. split.
    + intros [H1 H2]. tauto.
    + intros [[-> | H1] H2]; [contradiction | tauto].
  - assert (N : ~ In c seen).
    { intros H. apply hasCommand_iff in H. congruence. }
    simpl. rewrite IH. simpl. split.
    + intros [<- | [H1 H2]]; [tauto|]. split; [tauto|]. tauto.
    + intros [[<- | H1] H2]; [now left|].
      destruct (list_eq_dec N.eq_dec c x) as [-> | Hne]; [now left|].
      right. split; [exact H1|]. intros [Hc | Hs]; [contradiction | tauto].
Qed.

Lemma uniqueFrom_NoDup seen l : NoDup (uniqueFrom seen l).
Proof.
  revert seen. induction l as [|c l IH]; intros seen; simpl; [constructor|].
  destruct (hasCommand seen c); [apply IH|].
  constructor; [|apply IH].
  rewrite uniqueFrom_In. intros [_ H]. apply H. now left.
Qed.

(** A command pushed for the classified type occurs once in the result. *)
Lemma unique_count_once l c :
  In c l -> count_occ (list_eq_dec N.eq_dec) (unique l) c = 1%nat.
Proof.
  intros H.
  assert (Hin : In c (unique l)).
  { apply uniqueFrom_In. split; [exact H | intros []]. }
  pose proof (uniqueFrom_NoDup [] l) as Hnd.
  rewrite (NoDup_count_occ (list_eq_dec N.eq_dec)) in Hnd.
  specialize (Hnd c).
  apply (count_occ_In (list_eq_dec N.eq_dec)) in Hin.
  unfold unique in *. lia.
Qed.

Lemma pushUnlessPresent_In c commands : In c (pushUnlessPresent c commands).
Proof.
  unfold pushUnlessPresent. destruct (hasCommand commands c) eqn:E; simpl.
  - now apply hasCommand_iff.
  - apply in_or_app. right. now left.
Qed.

Lemma tsc_once tests d projectErrors :
  type d = TYPESCRIPT_ERROR ->
  count_occ (list_eq_dec N.eq_dec)
    (generateSpecificCommandsFromFailedTests tests d projectErrors) cmdTsc
  = 1%nat.
Proof.
  intros Ht. unfold generateSpecificCommandsFromFailedTests. cbv zeta.
  apply unique_count_once. rewrite Ht. cbn [commandsForType].
  apply in_or_app. left. apply pushUnlessPresent_In.
Qed.

Lemma classify_typescript tests log :
  includes log (lit "Verificação TypeScript") = true ->
  classify tests log = TYPESCRIPT_ERROR.
Proof.
  intros H. unfold classify. cbv zeta.
  assert (G : includes (toLowerCase log) (lit "typescript") = true).
  { change (lit "typescript") with (toLowerCase (lit "TypeScript")).
    apply includes_toLowerCase. apply (includes_trans _ _ _ H).
    vm_compute. reflexivity. }
  rewrite G. now rewrite orb_true_r.
Qed.

Lemma noMatchBeginsb_sound r pre rest :
  noMatchBeginsb r pre rest = true -> noMatchBegins r pre rest.
Proof.
  induction pre as [|c pre IH]; intros H a b E Hb.
  - destruct a; [simpl in E; subst; contradiction | discriminate].
  - cbn [noMatchBeginsb] in H.
    destruct (matchAt r ((c :: pre) ++ rest)) eqn:Em; [discriminate|].
    destruct a as [|d a]; simpl in E.
    + now subst b.
    + injection E as _ E. now apply (IH H a b).
Qed.

Lemma matchAllAux_skip r pre rest :
  noMatchBegins r pre rest ->
  matchAllAux r (pre ++ rest) 0 = matchAllAux r rest 0.
Proof.
  induction pre as [|c pre IH]; intros H; [reflexivity|].
  assert (Hc : matchAt r ((c :: pre) ++ rest) = None)
    by (apply (H [] (c :: pre)); [reflexivity | discriminate]).
  cbn [app] in *. cbn [matchAllAux]. rewrite Hc.
  apply IH. intros a b E Hb. apply (H (c :: a) b); [now rewrite E | exact Hb].
Qed.

Lemma matchAll_first r pre rest m :
  noMatchBegins r pre rest -> rest <> [] -> matchAt r rest = Some m ->
  exists more, matchAll r (pre ++ rest) = m :: more.
Proof.
  intros H Hne Hm. unfold matchAll. rewrite matchAllAux_skip by assumption.
  destruct rest as [|c rest]; [contradiction|].
  cbn [matchAllAux]. rewrite Hm. eauto.
Qed.

Lemma matchAt_tsLine post :
  exists m, matchAt tsLocationPattern (tsLine ++ post) = Some m
    /\ groupText 1 m = lit "src/app/page.tsx"
    /\ lineOf m = Some (JNum 10).
Proof.
  eexists. split; [vm_compute; reflexivity|].
  split; vm_compute; reflexivity.
Qed.

End DiagnosticFacts.

Section DiagnosticClaims.

(** C6.  When the report text contains the type checker's line for
    [src/app/page.tsx(10,5)] and the description of the failed type check,
    and that line holds the first match of the first location pattern, the
    extraction gives the file [src/app/page.tsx], the line 10 and the type
    [TYPESCRIPT_ERROR], and the remediation commands contain
    [npx tsc --noEmit] exactly once. *)
Theorem typescript_line_is_located
  (pre post : jsstring) (projectErrors : list ErrorRecord) :
  includes (pre ++ tsLine ++ post) (lit "Verificação TypeScript") = true ->
  noMatchBegins tsLocationPattern pre (tsLine ++ post) ->
  fileName (extractErrorDetails (pre ++ tsLine ++ post))
  = lit "src/app/page.tsx"
  /\ lineNumber (extractErrorDetails (pre ++ tsLine ++ post))
     = Some (JNum 10)
  /\ type (extractErrorDetails (pre ++ tsLine ++ post)) = TYPESCRIPT_ERROR
  /\ typeName (type (extractErrorDetails (pre ++ tsLine ++ post)))
     = lit "TYPESCRIPT_ERROR"
  /\ count_occ (list_eq_dec N.eq_dec)
       (generateSpecificCommandsFromFailedTests
          (failedTests (extractErrorDetails (pre ++ tsLine ++ post)))
          (extractErrorDetails (pre ++ tsLine ++ post)) projectErrors)
       (lit "npx tsc --noEmit")
     = 1%nat.
Proof.
  intros Hdesc Hfirst.
  destruct (matchAt_tsLine post) as [m [Hm [Hfile Hline]]].
  destruct (matchAll_first tsLocationPattern pre (tsLine ++ post) m Hfirst)
    as [more Hall]; [discriminate | exact Hm |].
  assert (Hloc : locate filePatterns (pre ++ tsLine ++ post)
                 = (lit "src/app/page.tsx", Some (JNum 10))).
  { unfold filePatterns. cbn [locate]. now rewrite Hall, Hfile, Hline. }
  assert (Htype : type (extractErrorDetails (pre ++ tsLine ++ post))
                  = TYPESCRIPT_ERROR).
  { cbn [extractErrorDetails type]. now apply classify_typescript. }
  split; [cbn [extractErrorDetails fileName]; now rewrite Hloc|].
  split; [cbn [extractErrorDetails lineNumber]; now rewrite Hloc|].
  split; [exact Htype|]. split; [now rewrite Htype|].
  now apply tsc_once.
Qed.

End DiagnosticClaims.

(** ** The claims at concrete inputs *)

Section Scenarios.

Lemma noIndicator_test text :
  existsb (fun indicator =>
             includes (toLowerCase text) (toLowerCase indicator))
          BuildLogger.errorIndicators = false ->
  noIndicator text.
Proof.
  intros H ind Hin. apply not_true_is_false. intros E.
  assert (existsb (fun indicator =>
             includes (toLowerCase text) (toLowerCase indicator))
          BuildLogger.errorIndicators = true)
    by (apply existsb_exists; now exists ind).
  congruence.
Defined.

Lemma mentionsNoise_test ls :
  forallb (hasScriptReference logScriptFiles) ls = true ->
  Forall mentionsNoise ls.
Proof.
  intros H. apply Forall_forall. intros l Hl.
  apply hasScriptReference_mentions.
  rewrite forallb_forall in H. now apply H.
Defined.

Lemma noise_only_result_is_promoted_witness :
  exists r', nth_error (filterLogScriptErrors [loggerNoise]) 0 = Some r'
    /\ success r' = true /\ code r' = Some 0%Z
    /\ output r' = [] /\ stdout r' = [] /\ stderr r' = []
    /\ filtered r' = true.
Proof.
  apply (noise_only_result_is_promoted [loggerNoise] 0 loggerNoise).
  - reflexivity.
  - reflexivity.
  - reflexivity.
  - apply mentionsNoise_test. vm_compute. reflexivity.
  - apply noIndicator_test. vm_compute. reflexivity.
Defined.

Lemma genuine_error_line_is_kept_witness :
  exists r', nth_error (filterLogScriptErrors [mixedOutput]) 0 = Some r'
    /\ success r' = false /\ filtered r' = true
    /\ output r' = lit "Error: Cannot find module 'left-pad'"
    /\ includes (output r') (lit "Error: Cannot find module 'left-pad'")
       = true.
Proof.
  apply (genuine_error_line_is_kept [mixedOutput] 0 mixedOutput
           (lit "at run (build-logger.js:30:5)")
           (lit "Error: Cannot find module 'left-pad'")).
  - reflexivity.
  - reflexivity.
  - reflexivity.
  - vm_compute. intuition discriminate.
  - vm_compute. intuition discriminate.
  - exists (lit "build-logger.js"). split; [now left | vm_compute; reflexivity].
  - intros H. apply hasScriptReference_mentions in H. vm_compute in H.
    discriminate.
  - vm_compute. reflexivity.
  - left. vm_compute. reflexivity.
Defined.

Lemma leftover_without_indicator_is_discarded_witness :
  remaining (output noiseAndNote) = lit "peer dependency missing: react@18"
  /\ exists r', nth_error (filterLogScriptErrors [noiseAndNote]) 0 = Some r'
       /\ success r' = true
       /\ output r' = [] /\ stdout r' = [] /\ stderr r' = [].
Proof.
  split; [vm_compute; reflexivity|].
  apply (leftover_without_indicator_is_discarded [noiseAndNote] 0 noiseAndNote).
  - reflexivity.
  - reflexivity.
  - reflexivity.
  - exists (lit "build-logger.js"). split; [now left|]. left.
    vm_compute. reflexivity.
  - apply noIndicator_test. vm_compute. reflexivity.
Defined.


Lemma typescript_line_is_located_witness :
  failingReport = reportBefore ++ tsLine ++ reportAfter
  /\ fileName (extractErrorDetails (reportBefore ++ tsLine ++ reportAfter))
     = lit "src/app/page.tsx"
  /\ lineNumber (extractErrorDetails (reportBefore ++ tsLine ++ reportAfter))
     = Some (JNum 10)
  /\ type (extractErrorDetails (reportBefore ++ tsLine ++ reportAfter))
     = TYPESCRIPT_ERROR
  /\ typeName
       (type (extractErrorDetails (reportBefore ++ tsLine ++ reportAfter)))
     = lit "TYPESCRIPT_ERROR"
  /\ count_occ (list_eq_dec N.eq_dec)
       (generateSpecificCommandsFromFailedTests
          (failedTests
             (extractErrorDetails (reportBefore ++ tsLine ++ reportAfter)))
          (extractErrorDetails (reportBefore ++ tsLine ++ reportAfter)) [])
       (lit "npx tsc --noEmit")
     = 1%nat.
Proof.
  split; [vm_compute; reflexivity|].
  apply (typescript_line_is_located reportBefore reportAfter []).
  - vm_compute. reflexivity.
  - apply noMatchBeginsb_sound. vm_compute. reflexivity.
Defined.

Lemma results_satisfy_invariants_witness :
  Forall invariant (filterLogScriptErrors [loggerNoise; mixedOutput]).
Proof.
  apply (proj2 (proj2 results_satisfy_invariants)).
  repeat constructor; cbn; congruence.
Defined.

End Scenarios.

(** * Further properties *)

(** ** Noise filter *)

Section NoiseFilterMore.

Lemma filterResult_labels r :
  description (filterResult r) = description r
  /\ command (filterResult r) = command r
  /\ timestamp (filterResult r) = timestamp r
  /\ skipped (filterResult r) = skipped r.
Proof.
  unfold filterResult. destruct (skipped r || success r); [tauto|].
  destruct (hasLogScriptError r); [|tauto].
  destruct (checkForRemainingErrors _ _ _); cbn; tauto.
Qed.

(** X1.  The filter returns as many results as it is given, in the same
    order, and leaves the description, the command, the timestamp and the
    skipped flag of each one as they were. *)
Theorem filter_keeps_the_shape_of_the_run (rs : list CheckResult) :
  List.length (filterLogScriptErrors rs) = List.length rs
  /\ map description (filterLogScriptErrors rs) = map description rs
  /\ map command (filterLogScriptErrors rs) = map command rs
  /\ map timestamp (filterLogScriptErrors rs) = map timestamp rs
  /\ map skipped (filterLogScriptErrors rs) = map skipped rs.
Proof.
  unfold filterLogScriptErrors. rewrite length_map, !map_map.
  split; [reflexivity|].
  repeat split; apply map_ext; intros r; apply filterResult_labels.
Qed.

Lemma filterResult_success_kept r :
  success r = true -> success (filterResult r) = true.
Proof.
  intros H. rewrite filterResult_passthrough; [exact H|].
  rewrite H. apply orb_true_r.
Qed.

Lemma realFailure_filterResult r :
  realFailure (filterResult r) = true -> realFailure r = true.
Proof.
  unfold realFailure. destruct (filterResult_labels r) as [_ [_ [_ Hk]]].
  rewrite Hk. destruct (success r) eqn:Hs.
  - now rewrite filterResult_success_kept.
  - destruct (skipped r); [|reflexivity]. now rewrite andb_false_r.
Qed.

Lemma filter_length_le {A : Type} (p q : A -> bool) (f : A -> A) l :
  (forall x, p (f x) = true -> q x = true) ->
  (List.length (filter p (map f l)) <= List.length (filter q l))%nat.
Proof.
  intros H. induction l as [|x l IH]; [constructor|]. cbn [map filter].
  destruct (p (f x)) eqn:E.
  - rewrite (H x E). simpl. lia.
  - destruct (q x); simpl; lia.
Qed.

(** X2.  The filter never makes a run worse: a successful result stays
    successful, the number of real failures does not grow, and a run whose
    overall status is already success comes back unchanged. *)
Theorem filter_never_adds_failures (rs : list CheckResult) :
  (forall i r, nth_error rs i = Some r -> success r = true ->
     exists r', nth_error (filterLogScriptErrors rs) i = Some r'
                /\ success r' = true)
  /\ (List.length (filter realFailure (filterLogScriptErrors rs))
      <= List.length (filter realFailure rs))%nat
  /\ (overallSuccess rs = true -> filterLogScriptErrors rs = rs).
Proof.
  split; [|split].
  - intros i r Hi Hs. exists (filterResult r).
    split; [now apply nth_filterLogScriptErrors|].
    now apply filterResult_success_kept.
  - apply filter_length_le. apply realFailure_filterResult.
  - unfold overallSuccess, filterLogScriptErrors. intros H.
    rewrite forallb_forall in H.
    rewrite <- (map_id rs) at 2. apply map_ext_in. intros r Hr.
    apply filterResult_passthrough. rewrite orb_comm. now apply H.
Qed.

(** X3.  A result that the filter flags as filtered mentions none of the
    allowlisted files in its output, stdout or stderr. *)
Theorem flagged_results_are_free_of_noise
  (rs : list CheckResult) (i : nat) (r r' : CheckResult) (f : jsstring) :
  nth_error rs i = Some r -> filtered r = false ->
  nth_error (filterLogScriptErrors rs) i = Some r' -> filtered r' = true ->
  In f logScriptFiles ->
  includes (output r') f = false /\ includes (stdout r') f = false
  /\ includes (stderr r') f = false.
Proof.
  intros Hi Hf Hi' Hf' Hin.
  rewrite (nth_filterLogScriptErrors _ _ _ Hi) in Hi'. injection Hi' as <-.
  destruct (logScriptFiles_shape f Hin) as [_ Hne].
  revert Hf'. unfold filterResult.
  destruct (skipped r || success r); [congruence|].
  destruct (hasLogScriptError r); [|congruence].
  destruct (checkForRemainingErrors _ _ _); cbn; intros _.
  - fold (remaining (output r)). fold (remaining (stdout r)).
    fold (remaining (stderr r)). now rewrite !remaining_clean.
  - destruct f; [contradiction | repeat split; reflexivity].
Qed.

Lemma hasScriptReference_plain files line :
  hasScriptReference files line = existsb (includes line) files.
Proof.
  destruct (existsb (includes line) files) eqn:E.
  - apply hasScriptReference_iff. apply existsb_exists in E as [f [H1 H2]].
    now exists f.
  - apply not_true_is_false. intros H.
    apply hasScriptReference_iff in H as [f [H1 H2]].
    assert (existsb (includes line) files = true)
      by (apply existsb_exists; now exists f).
    congruence.
Qed.

Lemma filter_all_kept {A : Type} (p : A -> bool) l :
  (forall x, In x l -> p x = true) -> filter p l = l.
Proof.
  induction l as [|x l IH]; intros H; [reflexivity|]. cbn [filter].
  rewrite (H x) by now left. f_equal. apply IH. intros y Hy. apply H.
  now right.
Qed.

(** X4.  A text that contains none of the given file names is returned as
    it is by the line filter (splitting into lines and joining them back
    loses nothing); and filtering the allowlisted names a second time
    changes nothing. *)
Theorem line_filter_identity_and_idempotence
  (text : jsstring) (files : list jsstring) :
  ((forall f, In f files -> includes text f = false) ->
   filterLogScriptLines text files = text)
  /\ filterLogScriptLines (filterLogScriptLines text logScriptFiles)
       logScriptFiles
     = filterLogScriptLines text logScriptFiles.
Proof.
  assert (Id : forall t fs, (forall f, In f fs -> includes t f = false) ->
                 filterLogScriptLines t fs = t).
  { intros t fs H. unfold filterLogScriptLines.
    destruct t as [|c t]; [reflexivity|]. cbn [truthy].
    rewrite filter_all_kept; [apply join_splitLines|].
    intros l Hl. apply negb_true_iff, not_true_is_false. intros E.
    apply hasScriptReference_iff in E as [f [Hf Hinc]].
    pose proof (includes_of_line _ _ _ Hl Hinc) as G.
    rewrite (H f Hf) in G. discriminate. }
  split; [apply Id|]. apply Id. intros f Hf.
  apply (remaining_clean text f Hf).
Qed.

Lemma splitLines_join ls :
  ls <> [] -> (forall l, In l ls -> ~ In 10%N l) ->
  splitLines (join nl ls) = ls.
Proof.
  induction ls as [|l ls IH]; [congruence|]. intros _ H.
  destruct ls as [|l' ls].
  - simpl. apply splitLines_single. apply H. now left.
  - rewrite join_cons. unfold nl. cbn [app].
    rewrite splitLines_app by (apply H; now left).
    f_equal. apply IH; [discriminate|]. intros x Hx. apply H. now right.
Qed.

(** X5.  The line filter removes exactly the lines that contain one of the
    file names as a plain substring (the quoted and path forms add
    nothing): when some line survives, the lines of the result are the
    lines of the text that contain none of the names, in order; when none
    survives, the result is empty. *)
Theorem line_filter_keeps_exactly_the_clean_lines
  (text : jsstring) (files : list jsstring) :
  let clean := filter (fun line => negb (existsb (includes line) files))
                      (splitLines text) in
  (clean <> [] -> text <> [] ->
   splitLines (filterLogScriptLines text files) = clean)
  /\ (clean = [] -> filterLogScriptLines text files = []).
Proof.
  cbv zeta.
  assert (E : filter (fun line => negb (hasScriptReference files line))
                     (splitLines text)
              = filter (fun line => negb (existsb (includes line) files))
                       (splitLines text)).
  { apply filter_ext. intros l. now rewrite hasScriptReference_plain. }
  unfold filterLogScriptLines. rewrite E. split.
  - intros Hc Ht. destruct text as [|c t]; [contradiction|]. cbn [truthy].
    apply splitLines_join; [exact Hc|].
    intros l Hl. apply filter_In in Hl as [Hl _].
    now apply splitLines_no_nl in Hl.
  - intros ->. now destruct (truthy text).
Qed.

Lemma lowerUnit_white c : isWhiteSpace c = true -> lowerUnit c = c.
Proof.
  unfold isWhiteSpace, lowerUnit. intros H.
  rewrite !orb_true_iff, !andb_true_iff, !N.eqb_eq, !N.leb_le in H.
  destruct ((65 <=? c)%N && (c <=? 90)%N) eqn:E1.
  { apply andb_true_iff in E1 as [A B]. apply N.leb_le in A, B. lia. }
  destruct ((192 <=? c)%N && (c <=? 222)%N && negb (c =? 215)%N) eqn:E2;
    [|reflexivity].
  apply andb_true_iff in E2 as [E2 _].
  apply andb_true_iff in E2 as [A B]. apply N.leb_le in A, B. lia.
Qed.

Lemma toLowerCase_white w : allWhite w -> toLowerCase w = w.
Proof.
  induction 1 as [|c w Hc _ IH]; [reflexivity|]. simpl.
  now rewrite lowerUnit_white, IH.
Qed.

Lemma white_excludes w p :
  allWhite w -> noWhite p -> p <> [] -> includes w p = false.
Proof.
  intros Hw Hp Hne. apply not_true_is_false. intros H.
  apply includes_iff in H as [a [b ->]].
  destruct p as [|c p]; [contradiction|].
  inversion Hp as [|? ? Hc _]; subst.
  apply Forall_app in Hw as [_ Hw]. simpl in Hw.
  inversion Hw as [|? ? Hc' _]; subst. congruence.
Qed.

Lemma noWhite_not_in c p : isWhiteSpace c = true -> noWhite p -> ~ In c p.
Proof.
  intros Hc Hp Hin. unfold noWhite in Hp. rewrite Forall_forall in Hp.
  specialize (Hp c Hin). congruence.
Qed.

Lemma includes_strip_left w s p :
  allWhite w -> noWhite p -> p <> [] ->
  includes (w ++ s) p = true -> includes s p = true.
Proof.
  intros Hw Hp Hne. induction Hw as [|c w Hc _ IH]; [trivial|].
  intros H. apply IH.
  destruct (includes_split_at [] (w ++ s) c p) as [H1 | H1];
    [now apply noWhite_not_in | exact H | | exact H1].
  destruct p; [contradiction | discriminate].
Qed.

Lemma includes_strip_right w s p :
  allWhite w -> noWhite p -> p <> [] ->
  includes (s ++ w) p = true -> includes s p = true.
Proof.
  intros Hw Hp Hne H. destruct w as [|c w]; [now rewrite app_nil_r in H|].
  inversion Hw as [|? ? Hc Hw']; subst.
  destruct (includes_split_at s w c p) as [H1 | H1];
    [now apply noWhite_not_in | exact H | exact H1 |].
  now rewrite white_excludes in H1.
Qed.

(** Trimming does not change which white-space-free words occur. *)
Lemma includes_lower_trim t p :
  noWhite p -> p <> [] ->
  includes (toLowerCase (trim t)) p = includes (toLowerCase t) p.
Proof.
  intros Hp Hne.
  destruct (trim_decomp t) as [w1 [w2 [H1 [H2 E]]]].
  rewrite E at 2.
  rewrite !toLowerCase_app, (toLowerCase_white w1 H1),
    (toLowerCase_white w2 H2).
  destruct (includes (toLowerCase (trim t)) p) eqn:Et.
  - symmetry. now apply includes_app_r, includes_app_l.
  - symmetry. apply not_true_is_false. intros H.
    apply includes_strip_left in H; try assumption.
    apply includes_strip_right in H; try assumption. congruence.
Qed.

(** X6.  The test for remaining errors answers [true] exactly when the
    three texts, concatenated and put in lower case, contain [error],
    [warning] or [fail]: the eleven indicators come down to these three
    words, and trimming plays no part. *)
Theorem remaining_errors_iff_three_words (out sout serr : jsstring) :
  checkForRemainingErrors out sout serr = true <->
  exists word, In word indicatorWords
    /\ includes (toLowerCase (out ++ sout ++ serr)) word = true.
Proof.
  unfold checkForRemainingErrors. set (t := out ++ sout ++ serr).
  assert (W : forall word, In word indicatorWords ->
                noWhite word /\ word <> []).
  { intros word [<- | [<- | [<- | []]]]; (split; [|discriminate]);
      repeat constructor. }
  split.
  - destruct (truthy (trim t)); [|discriminate]. intros H.
    apply existsb_exists in H as [ind [Hin H]].
    assert (exists word, In word indicatorWords
              /\ includes (toLowerCase ind) word = true) as [word [Hw Hi]].
    { repeat (destruct Hin as [<- | Hin];
        [first [ exists (lit "error"); split;
                   [now left | vm_compute; reflexivity]
               | exists (lit "warning"); split;
                   [right; now left | vm_compute; reflexivity]
               | exists (lit "fail"); split;
                   [right; right; now left | vm_compute; reflexivity] ]|]).
      destruct Hin. }
    exists word. split; [exact Hw|].
    destruct (W word Hw) as [Hnw Hne].
    rewrite <- includes_lower_trim by assumption.
    now apply includes_trans with (toLowerCase ind).
  - intros [word [Hw H]]. destruct (W word Hw) as [Hnw Hne].
    rewrite <- includes_lower_trim in H by assumption.
    assert (Ht : truthy (trim t) = true).
    { destruct (trim t); [|reflexivity]. simpl in H.
      destruct word; [contradiction | discriminate]. }
    rewrite Ht. apply existsb_exists. exists word. split.
    + destruct Hw as [<- | [<- | [<- | []]]]; vm_compute; tauto.
    + replace (toLowerCase word) with word; [exact H|].
      destruct Hw as [<- | [<- | [<- | []]]]; reflexivity.
Qed.

End NoiseFilterMore.

(** ** Recurrence detector and report generator *)

Section ReportMore.

(** X7.  A run without a real failure (every result successful or skipped)
    is never reported as recurrent, whatever the history directory
    holds. *)
Theorem no_failure_is_never_recurrent
  (rs : list CheckResult) (logsDir : LogsDir) :
  overallSuccess rs = true -> checkIfErrorIsRecurrent rs logsDir = false.
Proof.
  intros H. destruct logsDir as [| |entries]; try reflexivity.
  cbn [checkIfErrorIsRecurrent].
  destruct (recentLogs entries) as [logs|]; [|reflexivity].
  destruct (scanRecentLogs rs logs) as [[|]|] eqn:E; try reflexivity.
  apply scanRecentLogs_true in E
    as [_ [_ [_ [t [_ [_ [_ [_ [_ [r [Hin [Hs [Hk _]]]]]]]]]]]]].
  unfold overallSuccess in H. rewrite forallb_forall in H.
  specialize (H r Hin). rewrite Hs, Hk in H. discriminate.
Qed.

Lemma includes_forEachFrom {A : Type} (f : nat -> A -> jsstring) p x l i :
  In x l -> (forall j, includes (f j x) p = true) ->
  includes (forEachFrom f i l) p = true.
Proof.
  intros Hin Hf. revert i. induction l as [|y l IH]; intros i; [destruct Hin|].
  cbn [forEachFrom]. destruct Hin as [-> | Hin].
  - apply includes_app_l, Hf.
  - apply includes_app_r, IH, Hin.
Qed.

Lemma report_includes_details env rs isRecurrent r p :
  In r rs -> (forall j, includes (detailEntry env j r) p = true) ->
  includes (generateComprehensiveLog env rs isRecurrent) p = true.
Proof.
  intros Hin H. unfold generateComprehensiveLog.
  do 4 apply includes_app_r. apply includes_app_l.
  unfold detailsBlock. do 4 apply includes_app_r.
  now apply includes_forEachFrom with r.
Qed.

Lemma report_includes_description env rs isRecurrent r :
  In r rs ->
  includes (generateComprehensiveLog env rs isRecurrent) (description r)
  = true.
Proof.
  intros Hin. apply report_includes_details with r; [exact Hin|].
  intros j. unfold detailEntry. do 2 apply includes_app_r.
  apply includes_app_l, includes_refl.
Qed.

Lemma report_includes_failure_marker env rs isRecurrent r :
  In r rs -> success r = false -> skipped r = false ->
  includes (generateComprehensiveLog env rs isRecurrent) (lit "FALHOU")
  = true.
Proof.
  intros Hin Hs Hk. apply report_includes_details with r; [exact Hin|].
  intros j. unfold detailEntry. do 5 apply includes_app_r.
  apply includes_app_l. unfold statusLabel. rewrite Hs, Hk. cbn [andb].
  destruct (filtered r); vm_compute; reflexivity.
Qed.

Lemma overallSuccess_false rs r :
  In r rs -> success r = false -> skipped r = false ->
  overallSuccess rs = false.
Proof.
  intros Hin Hs Hk. apply not_true_is_false. intros H.
  unfold overallSuccess in H. rewrite forallb_forall in H.
  specialize (H r Hin). rewrite Hs, Hk in H. discriminate.
Qed.

Lemma report_includes_error_status env rs isRecurrent :
  overallSuccess rs = false ->
  includes (generateComprehensiveLog env rs isRecurrent)
           (lit "❌ Status: ERRO") = true.
Proof.
  intros H. unfold generateComprehensiveLog.
  do 2 apply includes_app_r. apply includes_app_l.
  unfold statusBlock. rewrite H. apply includes_app_l, includes_refl.
Qed.

(** X8.  Reports and the detector fit together: when the log files of the
    history can be sorted (none of two or more fails to be examined), the
    newest of them can be read and holds the report written for a run in
    which some check really failed, and a check of the same description
    really fails in the current run, the detector answers [true]. *)
Theorem repeated_failure_is_detected
  (env : Env) (old rs : list CheckResult) (isRecurrent : bool)
  (entries : list LogFile) (f : LogFile) (rest : list LogFile)
  (before now : CheckResult) :
  recentLogs entries = Some (f :: rest) ->
  content f = Some (generateComprehensiveLog env old isRecurrent) ->
  In before old -> success before = false -> skipped before = false ->
  In now rs -> success now = false -> skipped now = false ->
  description now = description before ->
  checkIfErrorIsRecurrent rs (DirEntries entries) = true.
Proof.
  intros Hrecent Hc Hb Hbs Hbk Hn Hns Hnk Hd.
  cbn [checkIfErrorIsRecurrent]. rewrite Hrecent.
  replace (scanRecentLogs rs (f :: rest)) with (Some true);
    [reflexivity|].
  symmetry. apply scanRecentLogs_true.
  exists [], f, rest, (generateComprehensiveLog env old isRecurrent).
  split; [reflexivity|]. split; [intros g []|]. split; [exact Hc|].
  split; [|split].
  - apply report_includes_error_status.
    now apply overallSuccess_false with before.
  - now apply report_includes_failure_marker with before.
  - exists now. split; [exact Hn|]. split; [exact Hns|]. split; [exact Hnk|].
    rewrite Hd. now apply report_includes_description.
Qed.




Lemma withoutText_flags r :
  success (withoutText r) = success r /\ skipped (withoutText r) = skipped r
  /\ filtered (withoutText r) = filtered r
  /\ description (withoutText r) = description r.
Proof. unfold withoutText. destruct (filtered r) eqn:E; cbn; auto. Qed.

Lemma filter_map_same {A : Type} (p : A -> bool) (f : A -> A) l :
  (forall x, p (f x) = p x) -> filter p (map f l) = map f (filter p l).
Proof.
  intros H. induction l as [|x l IH]; [reflexivity|]. cbn [map filter].
  rewrite H. destruct (p x); cbn [map]; now rewrite IH.
Qed.

Lemma forEachFrom_map {A : Type} (f : nat -> A -> jsstring) (g : A -> A) l i :
  (forall j x, f j (g x) = f j x) ->
  forEachFrom f i (map g l) = forEachFrom f i l.
Proof.
  intros H. revert i. induction l as [|x l IH]; intros i; [reflexivity|].
  cbn [map forEachFrom]. now rewrite H, IH.
Qed.

Lemma map_withoutText_unfiltered (p : CheckResult -> bool) l :
  (forall x, p x = true -> filtered x = false) ->
  map withoutText (filter p l) = filter p l.
Proof.
  intros H. rewrite <- (map_id (filter p l)) at 2. apply map_ext_in.
  intros x Hx. apply filter_In in Hx as [_ Hx]. unfold withoutText.
  now rewrite (H x Hx).
Qed.

Lemma detailEntry_withoutText env j x :
  detailEntry env j (withoutText x) = detailEntry env j x.
Proof.
  unfold withoutText. destruct (filtered x) eqn:E; [|reflexivity].
  unfold detailEntry, statusLabel. cbn. now rewrite E.
Qed.

Lemma overallSuccess_withoutText rs :
  overallSuccess (map withoutText rs) = overallSuccess rs.
Proof.
  unfold overallSuccess. induction rs as [|x l IH]; [reflexivity|].
  cbn [map forallb]. rewrite IH.
  destruct (withoutText_flags x) as [-> [-> _]]. reflexivity.
Qed.

Lemma descriptions_withoutText l :
  map description (map withoutText l) = map description l.
Proof.
  rewrite map_map. apply map_ext. intros; apply withoutText_flags.
Qed.

Lemma statusBlock_withoutText rs isRecurrent :
  statusBlock (map withoutText rs) isRecurrent = statusBlock rs isRecurrent.
Proof.
  unfold statusBlock. rewrite overallSuccess_withoutText.
  rewrite filter_map_same by (intros; apply withoutText_flags).
  now rewrite length_map, descriptions_withoutText.
Qed.

Lemma summaryBlock_withoutText rs :
  summaryBlock (map withoutText rs) = summaryBlock rs.
Proof.
  unfold summaryBlock. cbv zeta.
  rewrite !filter_map_same; try (intros; apply withoutText_flags).
  - now rewrite !length_map.
  - intros x. unfold realFailure.
    destruct (withoutText_flags x) as [-> [-> _]]. reflexivity.
Qed.

Lemma detailsBlock_withoutText env rs :
  detailsBlock env (map withoutText rs) = detailsBlock env rs.
Proof.
  unfold detailsBlock. do 4 f_equal. apply forEachFrom_map.
  intros. apply detailEntry_withoutText.
Qed.

Lemma errorsBlock_withoutText rs :
  errorsBlock (map withoutText rs) = errorsBlock rs.
Proof.
  unfold errorsBlock. cbv zeta. rewrite filter_map_same.
  - rewrite map_withoutText_unfiltered; [reflexivity|].
    intros x Hx. apply andb_true_iff in Hx as [_ Hx].
    now apply negb_true_iff in Hx.
  - intros x. destruct (withoutText_flags x) as [-> [-> [-> _]]].
    reflexivity.
Qed.

Lemma filteredBlock_withoutText rs :
  filteredBlock (map withoutText rs) = filteredBlock rs.
Proof.
  unfold filteredBlock. cbv zeta. rewrite filter_map_same.
  - rewrite length_map. destruct (0 <? _)%nat; [|reflexivity].
    do 4 f_equal. apply forEachFrom_map. intros j x.
    unfold filteredEntry.
    now destruct (withoutText_flags x) as [_ [_ [_ ->]]].
  - intros x. destruct (withoutText_flags x) as [-> [_ [-> _]]].
    reflexivity.
Qed.

Lemma footerBlock_withoutText env rs :
  footerBlock env (map withoutText rs) = footerBlock env rs.
Proof. unfold footerBlock. now rewrite descriptions_withoutText. Qed.

(** X10.  The text of a filtered result never reaches the report: emptying
    the output, stdout and stderr of every result flagged as filtered
    leaves the rendered report unchanged. *)
Theorem report_ignores_text_of_filtered_results
  (env : Env) (rs : list CheckResult) (isRecurrent : bool) :
  generateComprehensiveLog env (map withoutText rs) isRecurrent
  = generateComprehensiveLog env rs isRecurrent.
Proof.
  unfold generateComprehensiveLog.
  now rewrite statusBlock_withoutText, summaryBlock_withoutText,
    detailsBlock_withoutText, errorsBlock_withoutText,
    filteredBlock_withoutText, footerBlock_withoutText.
Qed.

(** X11.  The recurrence banner survives the round trip: a report rendered
    for a failed run flagged as recurrent is recognised as recurrent by
    the analyser; and the analyser's second test is redundant, its answer
    being that of the first alone. *)
Theorem recurrence_banner_round_trip
  (env : Env) (rs : list CheckResult) (text : jsstring) :
  (overallSuccess rs = false ->
   isRecurrentFromLog (generateComprehensiveLog env rs true) = true)
  /\ isRecurrentFromLog text = includes text (lit "ERRO RECORRENTE").
Proof.
  assert (R : forall t, isRecurrentFromLog t
                        = includes t (lit "ERRO RECORRENTE")).
  { intros t. unfold isRecurrentFromLog.
    destruct (includes t (lit "ERRO RECORRENTE")) eqn:E; [reflexivity|].
    cbn [orb]. apply not_true_is_false. intros H.
    assert (includes t (lit "ERRO RECORRENTE") = true); [|congruence].
    apply (includes_trans _ _ _ H). vm_compute. reflexivity. }
  split; [|apply R]. intros H. rewrite R.
  unfold generateComprehensiveLog. do 2 apply includes_app_r.
  apply includes_app_l. unfold statusBlock. rewrite H.
  do 3 apply includes_app_r. apply includes_app_l.
  vm_compute. reflexivity.
Qed.

Lemma forallb_exists_false {A : Type} (p : A -> bool) (l : list A) :
  forallb p l = false -> exists x, In x l /\ p x = false.
Proof.
  induction l as [|x l IH]; [discriminate|]. cbn [forallb].
  destruct (p x) eqn:E.
  - intros H. destruct (IH H) as [y [Hy Ey]]. exists y.
    split; [now right | exact Ey].
  - intros _. exists x. split; [now left | exact E].
Qed.

Lemma examined_iff f : examined f = true <-> mtime f <> None.
Proof. unfold examined. destruct (mtime f); split; congruence. Qed.

Lemma namedLogs_In e entries :
  In e (namedLogs entries)
  <-> In e entries /\ endsWith (logName e) (lit ".log") = true.
Proof. unfold namedLogs. apply filter_In. Qed.

(** X12.  The analyser's choice of report.  The call throws exactly when
    some [.log] entry of the listed directory cannot be examined (and for
    a directory that cannot be listed); the result is null exactly when
    no entry ends in [.log] (and for a missing directory); otherwise it
    is a [.log] entry of the directory that no other [.log] entry is newer
    than, and the recurrence detector scans it first. *)
Theorem newest_report_is_chosen (entries : list LogFile) :
  (findMostRecentLog (DirEntries entries) = Throws <->
   exists e, In e entries /\ endsWith (logName e) (lit ".log") = true
             /\ mtime e = None)
  /\ (findMostRecentLog (DirEntries entries) = Returns None <->
      forall e, In e entries -> endsWith (logName e) (lit ".log") = false)
  /\ (forall f, findMostRecentLog (DirEntries entries) = Returns (Some f) ->
        In f entries /\ endsWith (logName f) (lit ".log") = true
        /\ (forall g, In g entries ->
              endsWith (logName g) (lit ".log") = true -> notOlder f g)
        /\ exists rest, recentLogs entries = Some (f :: rest))
  /\ findMostRecentLog DirAbsent = Returns None
  /\ findMostRecentLog DirUnreadable = Throws.
Proof.
  cbn [findMostRecentLog].
  destruct (forallb examined (namedLogs entries)) eqn:A.
  - rewrite forallb_forall in A.
    destruct (sortByMtimeDesc_some (namedLogs entries)) as [sorted E].
    { intros g Hg. now apply examined_iff, A. }
    rewrite E.
    pose proof (sortByMtimeDesc_perm _ _ E) as P.
    pose proof (sortByMtimeDesc_sorted _ _ E) as S.
    split; [|split; [|split; [|split; reflexivity]]].
    + split; [discriminate|]. intros [e [He [Hl Hm]]]. exfalso.
      assert (Hin : In e (namedLogs entries)) by now apply namedLogs_In.
      apply A, examined_iff in Hin. contradiction.
    + split.
      * intros H e He. injection H as H.
        destruct sorted as [|x l]; [|discriminate].
        destruct (endsWith (logName e) (lit ".log")) eqn:El; [|reflexivity].
        assert (Hin : In e (namedLogs entries)) by now apply namedLogs_In.
        apply (Permutation_in _ (Permutation_sym P)) in Hin. destruct Hin.
      * intros H. f_equal. destruct sorted as [|x l]; [reflexivity|].
        assert (Hx : In x (namedLogs entries))
          by (eapply Permutation_in; [exact P | now left]).
        apply namedLogs_In in Hx as [Hx Hl]. rewrite (H x Hx) in Hl.
        discriminate.
    + intros f H. injection H as H.
      destruct sorted as [|x l]; [discriminate|]. injection H as ->.
      assert (Hf : In f (namedLogs entries))
        by (eapply Permutation_in; [exact P | now left]).
      pose proof (A f Hf) as Hex. apply namedLogs_In in Hf as [Hf Hl].
      split; [exact Hf|]. split; [exact Hl|]. split.
      * intros g Hg Hgl.
        assert (Hin : In g (f :: l)).
        { eapply Permutation_in; [symmetry; exact P|].
          now apply namedLogs_In. }
        inversion S as [|? ? _ Hall]; subst.
        destruct Hin as [<- | Hin].
        -- unfold notOlder. unfold examined in Hex.
           destruct (mtime f); [lia | discriminate].
        -- rewrite Forall_forall in Hall. now apply Hall.
      * unfold recentLogs, logFiles. rewrite E. cbn [firstn].
        now eexists.
  - split; [|split; [|split; [|split; reflexivity]]].
    + split; [intros _ | reflexivity].
      destruct (forallb_exists_false _ _ A) as [e [He Hx]].
      apply namedLogs_In in He as [He Hl]. exists e.
      split; [exact He|]. split; [exact Hl|].
      unfold examined in Hx. now destruct (mtime e).
    + split; [discriminate|]. intros H. exfalso.
      destruct (forallb_exists_false _ _ A) as [e [He _]].
      apply namedLogs_In in He as [He Hl]. rewrite (H e He) in Hl.
      discriminate.
    + discriminate.
Qed.

End ReportMore.

(** ** Battery, commands and plans *)

Section BatteryMore.

Lemma distinctb_NoDup l : distinctb l = true -> NoDup l.
Proof.
  induction l as [|x l IH]; intros H; [constructor|].
  cbn [distinctb] in H. apply andb_true_iff in H as [H1 H2].
  constructor; [|now apply IH].
  intros Hin. apply negb_true_iff in H1.
  assert (existsb (eqs x) l = true); [|congruence].
  apply existsb_exists. exists x. split; [exact Hin | now apply eqs_iff].
Qed.





Lemma runAllTests_has_type_check manifest schemaExists observe :
  exists r, In r (runAllTests manifest schemaExists observe)
            /\ description r = lit "Verificação TypeScript".
Proof.
  unfold runAllTests, batteryChecks. cbn [app map].
  eexists. split; [now left|]. now destruct (snd (observe typeCheck)).
Qed.

(** X14.  Whatever the checks of the battery do - even when all of them
    pass or when only another check fails - the report written for the run
    is classified as [TYPESCRIPT_ERROR] by the analyser, because the
    report always names the type check; the remediation commands then
    contain the type-check command exactly once. *)
Theorem battery_report_is_always_classified_typescript
  (manifest : ManifestFile) (schemaExists : bool)
  (observe : Check -> jsstring * ProcessEvent)
  (env : Env) (isRecurrent : bool) (projectErrors : list ErrorRecord) :
  type (extractErrorDetails
          (generateComprehensiveLog env
             (filterLogScriptErrors
                (runAllTests manifest schemaExists observe)) isRecurrent))
  = TYPESCRIPT_ERROR
  /\ count_occ (list_eq_dec N.eq_dec)
       (generateSpecificCommandsFromFailedTests
          (failedTests
             (extractErrorDetails
                (generateComprehensiveLog env
                   (filterLogScriptErrors
                      (runAllTests manifest schemaExists observe))
                   isRecurrent)))
          (extractErrorDetails
             (generateComprehensiveLog env
                (filterLogScriptErrors
                   (runAllTests manifest schemaExists observe))
                isRecurrent))
          projectErrors)
       (lit "npx tsc --noEmit")
     = 1%nat.
Proof.
  assert (T : type (extractErrorDetails
                (generateComprehensiveLog env
                   (filterLogScriptErrors
                      (runAllTests manifest schemaExists observe))
                   isRecurrent)) = TYPESCRIPT_ERROR).
  { cbn [extractErrorDetails type]. apply classify_typescript.
    destruct (runAllTests_has_type_check manifest schemaExists observe)
      as [r [Hin Hd]].
    rewrite <- Hd.
    replace (description r) with (description (filterResult r))
      by apply filterResult_labels.
    apply report_includes_description.
    unfold filterLogScriptErrors. now apply in_map. }
  split; [exact T|]. now apply tsc_once.
Qed.

End BatteryMore.

Section CommandsMore.

Lemma known_test l :
  forallb (hasCommand knownCommands) l = true ->
  Forall (fun c => In c knownCommands) l.
Proof.
  intros H. apply Forall_forall. intros c Hc.
  rewrite forallb_forall in H. now apply hasCommand_iff, H.
Qed.

Lemma pushFor_known test word probe extra cmds :
  Forall (fun c => In c knownCommands) cmds ->
  Forall (fun c => In c knownCommands) extra ->
  Forall (fun c => In c knownCommands) (pushFor test word probe extra cmds).
Proof.
  intros H1 H2. unfold pushFor. destruct (_ && _); [|exact H1].
  apply Forall_app. now split.
Qed.

Lemma commandsForTest_known cmds test :
  Forall (fun c => In c knownCommands) cmds ->
  Forall (fun c => In c knownCommands) (commandsForTest cmds test).
Proof.
  intros H. unfold commandsForTest. cbv zeta.
  repeat (apply pushFor_known;
          [|apply known_test; vm_compute; reflexivity]).
  exact H.
Qed.

Lemma fold_commandsForTest_known tests cmds :
  Forall (fun c => In c knownCommands) cmds ->
  Forall (fun c => In c knownCommands) (fold_left commandsForTest tests cmds).
Proof.
  revert cmds. induction tests as [|t tests IH]; intros cmds H; [exact H|].
  cbn [fold_left]. apply IH. now apply commandsForTest_known.
Qed.

Lemma commandsForType_known t cmds :
  Forall (fun c => In c knownCommands) cmds ->
  Forall (fun c => In c knownCommands) (commandsForType t cmds).
Proof.
  intros H. unfold commandsForType, pushUnlessPresent.
  destruct t; try exact H;
    (destruct (negb _); [|exact H]); apply Forall_app; split; try exact H;
    apply known_test; vm_compute; reflexivity.
Qed.

Lemma uniqueFrom_closing seen l a b :
  ~ In a seen -> ~ In b seen -> ~ In a l -> ~ In b l -> a <> b ->
  uniqueFrom seen (l ++ [a; b]) = uniqueFrom seen l ++ [a; b].
Proof.
  revert seen. induction l as [|c l IH]; intros seen Ha Hb Hal Hbl Hab.
  - cbn [app uniqueFrom].
    replace (hasCommand seen a) with false
      by (symmetry; apply not_true_is_false; now rewrite hasCommand_iff).
    replace (hasCommand (a :: seen) b) with false; [reflexivity|].
    symmetry. apply not_true_is_false. rewrite hasCommand_iff.
    intros [E | E]; [now apply Hab | now apply Hb].
  - cbn [app uniqueFrom]. destruct (hasCommand seen c).
    + apply IH; try assumption; intros E; [apply Hal | apply Hbl]; now right.
    + cbn [app]. f_equal. apply IH.
      * intros [E | E]; [apply Hal; now left | now apply Ha].
      * intros [E | E]; [apply Hbl; now left | now apply Hb].
      * intros E. apply Hal. now right.
      * intros E. apply Hbl. now right.
      * exact Hab.
Qed.

(** X15.  The remediation command list never repeats a command and always
    ends with the rebuild and the re-diagnosis, in that order; what comes
    before them is drawn from the seven fix commands. *)
Theorem command_list_is_duplicate_free_and_closed
  (tests : list jsstring) (errorDetails : ErrorDetails)
  (projectErrors : list ErrorRecord) :
  NoDup (generateSpecificCommandsFromFailedTests tests errorDetails
           projectErrors)
  /\ exists front,
       generateSpecificCommandsFromFailedTests tests errorDetails
         projectErrors = front ++ closingCommands
       /\ Forall (fun c => In c knownCommands) front.
Proof.
  unfold generateSpecificCommandsFromFailedTests. cbv zeta.
  split; [apply uniqueFrom_NoDup|].
  set (c2 := commandsForType (type errorDetails)
               (fold_left commandsForTest tests [])).
  assert (K : Forall (fun c => In c knownCommands) c2).
  { apply commandsForType_known, fold_commandsForTest_known. constructor. }
  assert (Out : forall c, In c closingCommands -> ~ In c c2).
  { intros c Hc Hin. rewrite Forall_forall in K. specialize (K c Hin).
    destruct Hc as [<- | [<- | []]]; vm_compute in K; intuition discriminate. }
  exists (unique c2). split.
  - unfold unique. apply uniqueFrom_closing.
    + intros [].
    + intros [].
    + apply Out. now left.
    + apply Out. right. now left.
    + discriminate.
  - apply Forall_forall. intros c Hc. apply uniqueFrom_In in Hc as [Hc _].
    rewrite Forall_forall in K. now apply K.
Qed.

(** X16.  The command list built from the classified type alone never
    repeats a command either, and ends with the same closing pair. *)
Theorem type_command_list_is_duplicate_free
  (errorDetails : ErrorDetails) (projectErrors : list ErrorRecord) :
  NoDup (generateSpecificCommands errorDetails projectErrors)
  /\ exists front,
       generateSpecificCommands errorDetails projectErrors
       = front ++ closingCommands.
Proof.
  unfold generateSpecificCommands. cbv zeta. split.
  - destruct (type errorDetails);
      destruct (someOfType projectErrors (lit "TYPESCRIPT_ERROR"));
      destruct (someOfType projectErrors (lit "PRISMA_ERROR"));
      destruct (someOfType projectErrors (lit "ESLINT_ERROR"));
      apply distinctb_NoDup; vm_compute; reflexivity.
  - eexists. reflexivity.
Qed.

Lemma length_optional {A : Type} (b : bool) (x : A) :
  (List.length (if b then [x] else []) <= 1)%nat.
Proof. destruct b; simpl; lia. Qed.

Lemma In_test l x : hasCommand l x = true <-> In x l.
Proof. apply hasCommand_iff. Qed.

(** X17.  Both action plans are never empty and end with a final
    verification stage.  The detailed plan has at most seven stages with
    pairwise distinct titles, and holds the stage for a specific file
    exactly when a file was located; the short plan opens with the initial
    diagnosis and has between three and six stages. *)
Theorem action_plans_shape
  (errorDetails : ErrorDetails) (projectErrors : list ErrorRecord) :
  (exists front,
      generateDetailedActionPlan errorDetails projectErrors
      = front ++ [finalStage]
      /\ (List.length front <= 6)%nat)
  /\ NoDup (map title
              (generateDetailedActionPlan errorDetails projectErrors))
  /\ (In (lit "Corrigir Arquivo Específico")
         (map title (generateDetailedActionPlan errorDetails projectErrors))
      <-> fileName errorDetails <> [])
  /\ (exists middle,
         map title (generateActionPlan errorDetails projectErrors)
         = lit "Diagnóstico Inicial" :: middle
           ++ [lit "Limpeza e Rebuild"; lit "Verificação Final"]
         /\ (List.length middle <= 3)%nat).
Proof.
  split; [|split; [|split]].
  - unfold generateDetailedActionPlan. cbv zeta.
    rewrite !app_assoc. eexists. split; [reflexivity|].
    rewrite !length_app.
    repeat match goal with
           | |- context [List.length (if ?b then [?x] else [])] =>
             let H := fresh "H" in
             let n := fresh "n" in
             pose proof (length_optional b x) as H;
             remember (List.length (if b then [x] else [])) as n eqn:En;
             clear En
           end.
    lia.
  - unfold generateDetailedActionPlan. cbv zeta.
    destruct (listed _ (lit "Verificação TypeScript"));
      destruct (listed _ (lit "Verificação ESLint"));
      destruct (existsb _ (failedTests errorDetails));
      destruct (listed _ (lit "Build do Next.js"));
      destruct (listed _ (lit "Verificação de Dependências"));
      destruct (truthy (fileName errorDetails));
      cbn [app map title];
      apply distinctb_NoDup; vm_compute; reflexivity.
  - rewrite <- In_test.
    unfold generateDetailedActionPlan. cbv zeta.
    destruct (fileName errorDetails) as [|c name] eqn:E; cbn [truthy].
    + split; [|congruence]. intros H. exfalso. revert H.
      destruct (listed _ (lit "Verificação TypeScript"));
        destruct (listed _ (lit "Verificação ESLint"));
        destruct (existsb _ (failedTests errorDetails));
        destruct (listed _ (lit "Build do Next.js"));
        destruct (listed _ (lit "Verificação de Dependências"));
        cbn [app map title]; vm_compute; discriminate.
    + split; [discriminate|]. intros _.
      destruct (listed _ (lit "Verificação TypeScript"));
        destruct (listed _ (lit "Verificação ESLint"));
        destruct (existsb _ (failedTests errorDetails));
        destruct (listed _ (lit "Build do Next.js"));
        destruct (listed _ (lit "Verificação de Dependências"));
        cbn [app map title]; vm_compute; reflexivity.
  - unfold generateActionPlan. rewrite !map_app. cbn [map title app].
    match goal with
    | |- exists _, _ :: ?a ++ ?b ++ ?c ++ _ = _ /\ _ => exists (a ++ b ++ c)
    end.
    split; [now rewrite <- !app_assoc|].
    rewrite !length_app, !length_map.
    repeat match goal with
           | |- context [List.length (if ?b then [?x] else [])] =>
             let H := fresh "H" in
             let n := fresh "n" in
             pose proof (length_optional b x) as H;
             remember (List.length (if b then [x] else [])) as n eqn:En;
             clear En
           end.
    lia.
Qed.

End CommandsMore.

(** ** What a match needs *)

Section MatcherFacts.

Lemma includes_cons s p d :
  includes s p = true -> includes (d :: s) p = true.
Proof. intros H. now apply (includes_app_r s [d] p). Qed.

Lemma run_literal_here w r2 s st x :
  run (map Chr w ++ r2) s st = Some x -> startsWith s w = true.
Proof.
  revert s st. induction w as [|c w IH]; intros s st H; [reflexivity|].
  cbn [map app run] in H. destruct s as [|d s]; [discriminate|].
  cbn [startsWith]. destruct (c =? d)%N eqn:E; [|discriminate].
  cbn [andb]. now apply IH with (feed d st).
Qed.

(** A successful run of a pattern has consumed each of its literal parts:
    the text contains them. *)
Lemma run_literal r1 w r2 s st x :
  run (r1 ++ map Chr w ++ r2) s st = Some x -> includes s w = true.
Proof.
  revert s st. induction r1 as [|nd r1 IH]; intros s st H.
  - cbn [app] in H. apply run_literal_here in H.
    apply startsWith_iff in H as [b ->]. apply includes_iff.
    now exists [], b.
  - destruct nd as [c|p|p mn mx g|i|i]; cbn [app run] in H.
    + destruct s as [|d s]; [discriminate|].
      destruct (c =? d)%N; [|discriminate].
      apply includes_cons. now apply IH with (feed d st).
    + destruct s as [|d s]; [discriminate|].
      destruct (p d); [|discriminate].
      apply includes_cons. now apply IH with (feed d st).
    + revert st H. generalize 0%nat as n.
      induction s as [|d s IHs]; intros n st H.
      * destruct (mn <=? n)%nat; [|discriminate]. now apply IH with st.
      * destruct (p d && below n mx).
        -- destruct g.
           ++ match type of H with
              | match ?e with _ => _ end = _ => destruct e eqn:E
              end.
              ** injection H as ->. apply includes_cons.
                 now apply IHs with (S n) (feed d st).
              ** destruct (mn <=? n)%nat; [|discriminate].
                 now apply IH with st.
           ++ destruct (mn <=? n)%nat.
              ** match type of H with
                 | match ?e with _ => _ end = _ => destruct e eqn:E
                 end.
                 --- injection H as ->. now apply IH with st.
                 --- apply includes_cons.
                     now apply IHs with (S n) (feed d st).
              ** apply includes_cons. now apply IHs with (S n) (feed d st).
        -- destruct (mn <=? n)%nat; [|discriminate]. now apply IH with st.
    + now apply IH with (openGroup i st).
    + now apply IH with (closeGroup i st).
Qed.

Lemma matchAt_literal r1 w r2 s m :
  matchAt (r1 ++ map Chr w ++ r2) s = Some m -> includes s w = true.
Proof.
  unfold matchAt. intros H.
  apply (run_literal (Open 0 :: r1) w (r2 ++ [Close 0]) s st0 m).
  cbn [app]. now rewrite <- !app_assoc in H.
Qed.

Lemma matchAt_none r1 w r2 s :
  includes s w = false -> matchAt (r1 ++ map Chr w ++ r2) s = None.
Proof.
  intros H. destruct (matchAt _ s) eqn:E; [|reflexivity].
  apply matchAt_literal in E. congruence.
Qed.

Lemma includes_tail d s p :
  includes (d :: s) p = false -> includes s p = false.
Proof.
  intros H. destruct (includes s p) eqn:E; [|reflexivity].
  now rewrite (includes_cons s p d E) in H.
Qed.

(** Without the literal in the text there is no match at all. *)
Lemma matchAll_none r1 w r2 s :
  includes s w = false -> matchAll (r1 ++ map Chr w ++ r2) s = [].
Proof.
  unfold matchAll. generalize 0%nat as k.
  induction s as [|d s IH]; intros k H.
  - cbn [matchAllAux]. destruct k; [|reflexivity].
    now rewrite matchAt_none.
  - cbn [matchAllAux]. destruct k.
    + rewrite matchAt_none by exact H. apply IH.
      now apply includes_tail with d.
    + apply IH. now apply includes_tail with d.
Qed.

Lemma exec_none r1 w r2 s :
  includes s w = false -> exec (r1 ++ map Chr w ++ r2) s = None.
Proof.
  induction s as [|d s IH]; intros H; cbn [exec].
  - now rewrite matchAt_none.
  - rewrite matchAt_none by exact H. apply IH.
    now apply includes_tail with d.
Qed.

End MatcherFacts.

(** ** Analyser: edges of the extraction *)

Section AnalyserMore.

Lemma splitOnAux_absent sep s cur :
  includes s sep = false -> splitOnAux sep s 0 cur = [rev cur ++ s].
Proof.
  revert cur. induction s as [|c s IH]; intros cur H.
  - cbn [splitOnAux]. now rewrite app_nil_r.
  - cbn [splitOnAux]. cbn [includes] in H.
    apply orb_false_elim in H as [H1 H2]. rewrite H1, (IH _ H2).
    cbn [rev]. now rewrite <- app_assoc.
Qed.

Lemma secondPiece_absent sep s :
  includes s sep = false -> secondPiece sep s = None.
Proof.
  intros H. unfold secondPiece, splitOn. now rewrite splitOnAux_absent.
Qed.

(** X18.  A text without the heading of the detailed errors yields no
    failed-test names; if it also lacks the details label, the full error
    is the whole text, trimmed. *)
Theorem extraction_without_headings (logContent : jsstring) :
  includes logContent (lit "🚨 ERROS DETALHADOS") = false ->
  failedTests (extractErrorDetails logContent) = []
  /\ (includes logContent (lit "Detalhes do erro:") = false ->
      fullError (extractErrorDetails logContent) = trim logContent).
Proof.
  intros H. cbn [extractErrorDetails failedTests fullError].
  unfold extractFailedTests, extractFullError, headingErrors.
  rewrite (secondPiece_absent _ _ H). split; [reflexivity|].
  intros H'. now rewrite (secondPiece_absent _ _ H').
Qed.

Lemma run_literal_class_here w p mn mx g r2 s st x :
  run (map Chr w ++ Rep p (S mn) mx g :: r2) s st = Some x ->
  exists e t, p e = true /\ s = w ++ e :: t.
Proof.
  revert s st. induction w as [|c w IHw]; intros s st H.
  - cbn [map app run] in H. destruct s as [|d s]; [discriminate|].
    destruct (p d) eqn:Ep.
    + now exists d, s.
    + cbn [andb] in H. discriminate.
  - cbn [map app run] in H. destruct s as [|d s]; [discriminate|].
    destruct (c =? d)%N eqn:E; [|discriminate].
    apply N.eqb_eq in E. subst d.
    destruct (IHw s (feed c st) H) as [e [t [He ->]]].
    now exists e, t.
Qed.

(** A successful run of a pattern whose literal is followed by a
    repetition of at least one unit has found the literal followed by such
    a unit. *)
Lemma run_literal_then_class r1 w p mn mx g r2 s st x :
  run (r1 ++ map Chr w ++ Rep p (S mn) mx g :: r2) s st = Some x ->
  exists c, p c = true /\ includes s (w ++ [c]) = true.
Proof.
  revert s st. induction r1 as [|nd r1 IH]; intros s st H.
  - cbn [app] in H.
    destruct (run_literal_class_here _ _ _ _ _ _ _ _ _ H) as [e [t [He ->]]].
    exists e. split; [exact He|]. apply includes_iff. exists [], t.
    cbn [app]. now rewrite <- app_assoc.
  - destruct nd as [c|q|q mn' mx' g'|i|i]; cbn [app run] in H.
    + destruct s as [|d s]; [discriminate|].
      destruct (c =? d)%N; [|discriminate].
      destruct (IH s (feed d st) H) as [e [He Hi]].
      exists e. split; [exact He | now apply includes_cons].
    + destruct s as [|d s]; [discriminate|].
      destruct (q d); [|discriminate].
      destruct (IH s (feed d st) H) as [e [He Hi]].
      exists e. split; [exact He | now apply includes_cons].
    + revert st H. generalize 0%nat as n.
      induction s as [|d s IHs]; intros n st H.
      * destruct (mn' <=? n)%nat; [|discriminate]. now apply IH with st.
      * destruct (q d && below n mx').
        -- destruct g'.
           ++ match type of H with
              | match ?e with _ => _ end = _ => destruct e eqn:E
              end.
              ** injection H as ->.
                 destruct (IHs (S n) (feed d st) E) as [e [He Hi]].
                 exists e. split; [exact He | now apply includes_cons].
              ** destruct (mn' <=? n)%nat; [|discriminate].
                 now apply IH with st.
           ++ destruct (mn' <=? n)%nat.
              ** match type of H with
                 | match ?e with _ => _ end = _ => destruct e eqn:E
                 end.
                 --- injection H as ->. now apply IH with st.
                 --- destruct (IHs (S n) (feed d st) H) as [e [He Hi]].
                     exists e. split; [exact He | now apply includes_cons].
              ** destruct (IHs (S n) (feed d st) H) as [e [He Hi]].
                 exists e. split; [exact He | now apply includes_cons].
        -- destruct (mn' <=? n)%nat; [|discriminate]. now apply IH with st.
    + now apply IH with (openGroup i st).
    + now apply IH with (closeGroup i st).
Qed.

Lemma matchAll_none_class r1 w p mn mx g r2 s :
  (forall c, p c = true -> includes s (w ++ [c]) = false) ->
  matchAll (r1 ++ map Chr w ++ Rep p (S mn) mx g :: r2) s = [].
Proof.
  assert (A : forall t, (forall c, p c = true ->
                           includes t (w ++ [c]) = false) ->
                matchAt (r1 ++ map Chr w ++ Rep p (S mn) mx g :: r2) t
                = None).
  { intros t Ht. destruct (matchAt _ t) eqn:E; [|reflexivity].
    unfold matchAt in E.
    assert (E' : run ((Open 0 :: r1) ++ map Chr w
                      ++ Rep p (S mn) mx g :: (r2 ++ [Close 0])) t st0
                 = Some m)
      by (cbn [app]; now rewrite <- !app_assoc in E).
    apply run_literal_then_class in E' as [c [Hc Hi]].
    now rewrite (Ht c Hc) in Hi. }
  unfold matchAll. generalize 0%nat as k.
  induction s as [|d s IH]; intros k H.
  - cbn [matchAllAux]. destruct k; [|reflexivity]. now rewrite A.
  - assert (H' : forall c, p c = true -> includes s (w ++ [c]) = false)
      by (intros c Hc; apply includes_tail with d; now apply H).
    cbn [matchAllAux]. destruct k; [rewrite A by exact H|]; now apply IH.
Qed.

(** X19.  A text that contains no [.ts] and no [at] followed by white
    space gives no location: the file name is empty and the line number
    null, none of the five patterns having anything to match. *)
Theorem no_location_without_markers (logContent : jsstring) :
  includes logContent (lit ".ts") = false ->
  (forall c, isWhiteSpace c = true ->
     includes logContent (lit "at" ++ [c]) = false) ->
  fileName (extractErrorDetails logContent) = []
  /\ lineNumber (extractErrorDetails logContent) = None.
Proof.
  intros Hts Hat.
  assert (L : locate filePatterns logContent = ([], None)).
  { unfold filePatterns. cbn [locate].
    replace (matchAll tsLocationPattern logContent) with (@nil mstate)
      by (symmetry;
          apply (matchAll_none [Open 1; plus nonSpace] (lit ".ts")); exact Hts).
    replace (matchAll colonLocationPattern logContent) with (@nil mstate)
      by (symmetry;
          apply (matchAll_none [Open 1; plus nonSpace] (lit ".ts")); exact Hts).
    replace (matchAll stackLocationPattern logContent) with (@nil mstate)
      by (symmetry;
          apply (matchAll_none_class [] (lit "at") isWhiteSpace 0 None true);
          exact Hat).
    replace (matchAll errorInPattern logContent) with (@nil mstate)
      by (symmetry;
          apply (matchAll_none (str "Error in " ++ [Open 1; plus dot])
                               (lit ".ts") [opt (only 120); Close 1]);
          exact Hts).
    replace (matchAll generalPattern logContent) with (@nil mstate)
      by (symmetry;
          apply (matchAll_none [Open 1; plus nonSpace] (lit ".ts")); exact Hts).
    reflexivity. }
  cbn [extractErrorDetails fileName lineNumber]. now rewrite L.
Qed.

(** X20.  The numeric test of the error detection can never change its
    answer: whenever the pattern for a non-zero failure count matches, the
    bare failure label - a literal indicator - is in the text already.  The
    answer is that of the ten literal indicators alone. *)
Theorem hasError_is_decided_by_the_indicators (logContent : jsstring) :
  hasError logContent
  = existsb (fun indicator =>
               includes (toLowerCase logContent) (toLowerCase indicator))
            AnalyzeLogs.errorIndicators.
Proof.
  unfold hasError.
  destruct (existsb _ AnalyzeLogs.errorIndicators) eqn:E; [reflexivity|].
  cbn [orb]. unfold test.
  replace (exec failureCountPattern logContent) with (@None mstate);
    [reflexivity|].
  symmetry. apply (exec_none [] (lit "❌ Falhas: ")).
  apply not_true_is_false. intros H.
  assert (existsb (fun indicator =>
             includes (toLowerCase logContent) (toLowerCase indicator))
          AnalyzeLogs.errorIndicators = true); [|congruence].
  apply existsb_exists. exists (lit "❌ Falhas:"). split.
  - right. right. now left.
  - apply includes_toLowerCase. apply (includes_trans _ _ _ H).
    vm_compute. reflexivity.
Qed.

End AnalyserMore.

(** ** Analyser: file analysis and syntax scan *)

Section FileMore.









Lemma contextLines_nth lines z i :
  (1 <= z)%Z ->
  nth_error (contextLines lines (Some (JNum z))) i
  = if (Z.of_nat i + Z.max 0 (z - 3) <? z + 3)%Z
    then nth_error lines (i + Z.to_nat (Z.max 0 (z - 3)))
    else None.
Proof.
  intros Hz. unfold contextLines, slice, orOne.
  replace (z =? 0)%Z with false by (symmetry; apply Z.eqb_neq; lia).
  cbv zeta.
  set (len := Z.of_nat (List.length lines)).
  replace (Z.max 0 (z - 3) <? 0)%Z with false
    by (symmetry; apply Z.ltb_ge; lia).
  replace (Z.min len (z + 3) <? 0)%Z with false
    by (symmetry; apply Z.ltb_ge; unfold len; lia).
  rewrite nth_error_firstn, nth_error_skipn.
  destruct (Nat.ltb_spec i
              (Z.to_nat (Z.min (Z.min len (z + 3)) len
                         - Z.min (Z.max 0 (z - 3)) len))) as [A | A];
    destruct (Z.ltb_spec (Z.of_nat i + Z.max 0 (z - 3)) (z + 3)) as [B | B].
  - f_equal. unfold len in *. lia.
  - unfold len in *. lia.
  - symmetry. apply nth_error_None. unfold len in *. lia.
  - reflexivity.
Qed.

(** X22.  The context shown for a located line [z >= 1] is the run of
    lines numbered [z - 2] to [z + 3] that exist - two before the line,
    three after, at most six in all - and contains the located line when
    the file has it; a null line number is read as line 1. *)
Theorem context_window (lines : list jsstring) (z : Z) :
  (1 <= z)%Z ->
  (forall i,
      nth_error (contextLines lines (Some (JNum z))) i
      = if (Z.of_nat i + Z.max 0 (z - 3) <? z + 3)%Z
        then nth_error lines (i + Z.to_nat (Z.max 0 (z - 3)))
        else None)
  /\ (List.length (contextLines lines (Some (JNum z))) <= 6)%nat
  /\ (forall line, nth_error lines (Z.to_nat (z - 1)) = Some line ->
        In line (contextLines lines (Some (JNum z))))
  /\ contextLines lines None = contextLines lines (Some (JNum 1)).
Proof.
  intros Hz. split; [|split; [|split]].
  - intros i. now apply contextLines_nth.
  - destruct (Nat.le_gt_cases
                (List.length (contextLines lines (Some (JNum z)))) 6)
      as [A | A]; [exact A|].
    exfalso.
    assert (N : nth_error (contextLines lines (Some (JNum z))) 6 <> None)
      by (apply nth_error_Some; lia).
    rewrite contextLines_nth in N by exact Hz.
    destruct (Z.ltb_spec (Z.of_nat 6 + Z.max 0 (z - 3)) (z + 3));
      [lia | congruence].
  - intros line Hl.
    apply nth_error_In with (Z.to_nat (z - 1 - Z.max 0 (z - 3))).
    rewrite contextLines_nth by exact Hz.
    destruct (Z.ltb_spec
                (Z.of_nat (Z.to_nat (z - 1 - Z.max 0 (z - 3)))
                 + Z.max 0 (z - 3)) (z + 3)); [|lia].
    rewrite <- Hl. f_equal. lia.
  - reflexivity.
Qed.

(** X23.  For a path without [.ts] the file analysis is empty; for any
    other path it is complete whatever the file holds: the kind is
    [TypeScript/React], the problem, the solution and the example are not
    empty, and there are exactly three steps. *)
Theorem file_analysis_is_complete
  (fileText filePath : jsstring) (lineNo : option jsnumber) :
  (includes filePath (lit ".ts") = false ->
   analyzeFileContent fileText filePath lineNo = mkAnalysis [] [] [] [] [])
  /\ (includes filePath (lit ".ts") = true ->
      kind (analyzeFileContent fileText filePath lineNo)
      = lit "TypeScript/React"
      /\ problem (analyzeFileContent fileText filePath lineNo) <> []
      /\ solution (analyzeFileContent fileText filePath lineNo) <> []
      /\ code_example (analyzeFileContent fileText filePath lineNo) <> []
      /\ List.length
           (specific_steps (analyzeFileContent fileText filePath lineNo))
         = 3%nat).
Proof.
  unfold analyzeFileContent. cbv zeta. split; intros H.
  - rewrite H. rewrite orb_false_r.
    destruct (includes filePath (lit ".tsx")) eqn:E; [|reflexivity].
    exfalso. assert (includes filePath (lit ".ts") = true); [|congruence].
    apply (includes_trans _ _ _ E). vm_compute. reflexivity.
  - rewrite H, orb_true_r. unfold analyzeTypeScriptFile.
    repeat match goal with
           | |- context [if ?b then mkAnalysis _ _ _ _ _ else _] =>
             destruct b
           end;
      cbn [kind problem solution code_example specific_steps List.length];
      repeat split; discriminate.
Qed.

End FileMore.

(** ** Manifest script updater *)

Section ScriptsMore.

Implicit Types o acc pre post es : object.
Implicit Types k : jsstring.
Implicit Types v : json.

Lemma eqs_refl k : eqs k k = true.
Proof. now apply eqs_iff. Qed.

Lemma eqs_neq k k' : k <> k' -> eqs k k' = false.
Proof.
  intros H. apply not_true_is_false. intros E. now apply eqs_iff in E.
Qed.

Lemma getProp_absent k o : ~ In k (map fst o) -> getProp k o = None.
Proof.
  induction o as [|[k' v'] o IH]; intros H; [reflexivity|].
  cbn [getProp]. rewrite eqs_neq.
  - apply IH. intros Hin. apply H. now right.
  - intros ->. apply H. now left.
Qed.

Lemma getProp_present k o :
  In k (map fst o) -> exists v, getProp k o = Some v.
Proof.
  induction o as [|[k' v'] o IH]; intros H; [destruct H|].
  cbn [getProp]. destruct (eqs k k') eqn:E; [now exists v'|].
  destruct H as [H | H]; [|now apply IH].
  cbn in H. subst k'. now rewrite eqs_refl in E.
Qed.

Lemma getProp_In k v o :
  distinctKeys o -> (getProp k o = Some v <-> In (k, v) o).
Proof.
  unfold distinctKeys. induction o as [|[k' v'] o IH]; intros Hnd.
  - split; [discriminate | intros []].
  - cbn [map fst] in Hnd. inversion Hnd as [|? ? Hk Hnd']; subst.
    cbn [getProp]. destruct (eqs k k') eqn:E.
    + apply eqs_iff in E. subst k'. split.
      * intros H. injection H as ->. now left.
      * intros [H | H]; [now injection H as -> |].
        exfalso. apply Hk. now apply (in_map fst) in H.
    + rewrite (IH Hnd'). split; [now right|].
      intros [H | H]; [|exact H]. injection H as -> _.
      now rewrite eqs_refl in E.
Qed.

Lemma getProp_perm k o o' :
  Permutation o o' -> distinctKeys o -> getProp k o = getProp k o'.
Proof.
  intros P Hnd.
  assert (Hnd' : distinctKeys o').
  { unfold distinctKeys in *. eapply Permutation_NoDup; [|exact Hnd].
    now apply Permutation_map. }
  destruct (getProp k o) as [v|] eqn:E.
  - symmetry. apply getProp_In; [exact Hnd'|].
    eapply Permutation_in; [exact P|]. now apply getProp_In.
  - destruct (getProp k o') as [v|] eqn:E'; [|reflexivity].
    apply getProp_In in E'; [|exact Hnd'].
    apply (Permutation_in _ (Permutation_sym P)) in E'.
    apply getProp_In in E'; [congruence | exact Hnd].
Qed.

Lemma setProp_fresh k v o :
  ~ In k (map fst o) -> setProp k v o = o ++ [(k, v)].
Proof.
  induction o as [|[k' v'] o IH]; intros H; [reflexivity|].
  cbn [setProp app]. rewrite eqs_neq.
  - f_equal. apply IH. intros Hin. apply H. now right.
  - intros ->. apply H. now left.
Qed.

Lemma setProp_at k v v0 pre post :
  ~ In k (map fst pre) ->
  setProp k v (pre ++ (k, v0) :: post) = pre ++ (k, v) :: post.
Proof.
  induction pre as [|[k' v'] pre IH]; intros H.
  - cbn [app setProp]. now rewrite eqs_refl.
  - cbn [app setProp]. rewrite eqs_neq.
    + f_equal. apply IH. intros Hin. apply H. now right.
    + intros ->. apply H. now left.
Qed.

Lemma setProp_app_left k v pre post :
  In k (map fst pre) -> setProp k v (pre ++ post) = setProp k v pre ++ post.
Proof.
  induction pre as [|[k' v'] pre IH]; intros H; [destruct H|].
  cbn [app setProp]. destruct (eqs k k') eqn:E; [reflexivity|].
  cbn [app]. f_equal. apply IH. destruct H as [H | H]; [|exact H].
  cbn in H. subst k'. now rewrite eqs_refl in E.
Qed.

Lemma keys_setProp k v o x :
  In x (map fst (setProp k v o)) <-> x = k \/ In x (map fst o).
Proof.
  induction o as [|[k' v'] o IH]; cbn [setProp map fst In].
  - intuition.
  - destruct (eqs k k') eqn:E; cbn [map fst In].
    + apply eqs_iff in E. subst k'. intuition.
    + rewrite IH. intuition.
Qed.

Lemma distinctKeys_setProp k v o :
  distinctKeys o -> distinctKeys (setProp k v o).
Proof.
  unfold distinctKeys. induction o as [|[k' v'] o IH]; intros H.
  - cbn. constructor; [intros [] | constructor].
  - cbn [map fst] in H. inversion H as [|? ? Hk Hnd]; subst.
    cbn [setProp]. destruct (eqs k k') eqn:E; cbn [map fst].
    + now constructor.
    + constructor; [|now apply IH].
      rewrite keys_setProp. intros [-> | Hin]; [|now apply Hk].
      now rewrite eqs_refl in E.
Qed.

Lemma getProp_setProp k k' v o :
  getProp k (setProp k' v o)
  = if eqs k k' then Some v else getProp k o.
Proof.
  induction o as [|[k1 v1] o IH]; cbn [setProp getProp].
  - now destruct (eqs k k').
  - destruct (eqs k' k1) eqn:E1; cbn [getProp].
    + apply eqs_iff in E1. subst k1. now destruct (eqs k k').
    + destruct (eqs k k1) eqn:E2; [|exact IH].
      apply eqs_iff in E2. subst k1.
      destruct (eqs k k') eqn:E3; [|reflexivity].
      apply eqs_iff in E3. subst k'. now rewrite eqs_refl in E1.
Qed.

Lemma buildKeys_differ : eqs buildDevKey buildKey = false.
Proof. reflexivity. Qed.

Lemma eqs_sym k k' : eqs k k' = eqs k' k.
Proof.
  destruct (eqs k k') eqn:E.
  - apply eqs_iff in E. subst k'. symmetry. apply eqs_refl.
  - symmetry. apply eqs_neq. intros ->. now rewrite eqs_refl in E.
Qed.

Lemma assign_build v o : assign buildKey v o = setProp buildKey v o.
Proof. reflexivity. Qed.

Lemma assign_buildDev v o : assign buildDevKey v o = setProp buildDevKey v o.
Proof. reflexivity. Qed.

Lemma assign_plain k v o :
  eqs k protoKey = false -> assign k v o = setProp k v o.
Proof. intros H. unfold assign. now rewrite H. Qed.

Lemma assign_proto v o : assign protoKey v o = o.
Proof. reflexivity. Qed.

Lemma copyEntry_plain acc e :
  eqs (fst e) protoKey = false -> copyEntry acc e = copyPlain acc e.
Proof.
  intros H. unfold copyEntry, copyPlain. cbv zeta.
  now rewrite (assign_plain _ _ _ H), assign_buildDev.
Qed.

Lemma copyEntry_proto acc v : copyEntry acc (protoKey, v) = acc.
Proof. reflexivity. Qed.

Lemma getProp_copyPlain k acc e :
  eqs k buildDevKey = false ->
  getProp k (copyPlain acc e)
  = if eqs k (fst e) then Some (snd e) else getProp k acc.
Proof.
  intros H. unfold copyPlain. cbv zeta.
  destruct (eqs (fst e) buildKey); now rewrite !getProp_setProp, ?H.
Qed.

Lemma getProp_fold k es acc :
  eqs k buildDevKey = false -> eqs k protoKey = false -> distinctKeys es ->
  getProp k (fold_left copyEntry es acc)
  = match getProp k es with
    | Some v => Some v
    | None => getProp k acc
    end.
Proof.
  intros Hk Hp. revert acc.
  induction es as [|[k1 v1] es IH]; intros acc Hnd; [reflexivity|].
  unfold distinctKeys in Hnd. cbn [map fst] in Hnd.
  inversion Hnd as [|? ? Hk1 Hnd']; subst.
  cbn [fold_left getProp]. rewrite (IH _ Hnd').
  destruct (eqs k1 protoKey) eqn:P.
  - apply eqs_iff in P. subst k1. rewrite copyEntry_proto, Hp.
    reflexivity.
  - rewrite copyEntry_plain by exact P.
    rewrite getProp_copyPlain by exact Hk. cbn [fst snd].
    destruct (eqs k k1) eqn:E; [|reflexivity].
    apply eqs_iff in E. subst k1. now rewrite getProp_absent.
Qed.

Lemma copyEntry_cases acc e :
  copyEntry acc e = acc \/ copyEntry acc e = copyPlain acc e.
Proof.
  destruct e as [k v]. destruct (eqs k protoKey) eqn:P.
  - left. apply eqs_iff in P. subst k. apply copyEntry_proto.
  - right. now apply copyEntry_plain.
Qed.

Lemma proto_fold es acc :
  getProp protoKey (fold_left copyEntry es acc) = getProp protoKey acc.
Proof.
  revert acc. induction es as [|e es IH]; intros acc; [reflexivity|].
  cbn [fold_left]. rewrite IH.
  destruct e as [k v]. destruct (eqs k protoKey) eqn:P.
  - apply eqs_iff in P. subst k. now rewrite copyEntry_proto.
  - rewrite copyEntry_plain by exact P.
    rewrite getProp_copyPlain by reflexivity. cbn [fst].
    now rewrite eqs_sym, P.
Qed.

Lemma distinctKeys_fold es acc :
  distinctKeys acc -> distinctKeys (fold_left copyEntry es acc).
Proof.
  revert acc. induction es as [|e es IH]; intros acc H; [exact H|].
  cbn [fold_left]. apply IH.
  destruct (copyEntry_cases acc e) as [-> | ->]; [exact H|].
  unfold copyPlain. cbv zeta.
  destruct (eqs (fst e) buildKey); repeat apply distinctKeys_setProp;
    exact H.
Qed.

Lemma has_fold k es acc :
  In k (map fst acc) -> In k (map fst (fold_left copyEntry es acc)).
Proof.
  revert acc. induction es as [|e es IH]; intros acc H; [exact H|].
  cbn [fold_left]. apply IH.
  destruct (copyEntry_cases acc e) as [-> | ->]; [exact H|].
  unfold copyPlain. cbv zeta.
  destruct (eqs (fst e) buildKey); rewrite ?keys_setProp; auto.
Qed.

Lemma buildDev_after_build es acc :
  In buildKey (map fst es) ->
  In buildDevKey (map fst (fold_left copyEntry es acc)).
Proof.
  revert acc. induction es as [|[k1 v1] es IH]; intros acc H; [destruct H|].
  cbn [fold_left]. destruct (eqs k1 buildKey) eqn:E.
  - apply has_fold. apply eqs_iff in E. subst k1.
    rewrite copyEntry_plain by reflexivity.
    unfold copyPlain. cbv zeta. cbn [fst snd]. rewrite eqs_refl.
    rewrite keys_setProp. now left.
  - apply IH. destruct H as [H | H]; [|exact H].
    cbn in H. subst k1. now rewrite eqs_refl in E.
Qed.

Lemma insertIndex_perm e l : Permutation (insertIndex e l) (e :: l).
Proof.
  induction l as [|g l IH]; [reflexivity|]. cbn [insertIndex].
  destruct (_ <=? _)%Z; [reflexivity|]. rewrite IH. apply perm_swap.
Qed.

Lemma partition_perm {A : Type} (p : A -> bool) (l : list A) :
  Permutation (filter p l ++ filter (fun x => negb (p x)) l) l.
Proof.
  induction l as [|x l IH]; [reflexivity|]. cbn [filter].
  destruct (p x); cbn [negb app].
  - now constructor.
  - rewrite <- Permutation_middle. now constructor.
Qed.

Lemma entries_perm o : Permutation (entries o) o.
Proof.
  unfold entries.
  rewrite <- (partition_perm (fun e => isArrayIndex (fst e)) o) at 3.
  apply Permutation_app_tail.
  induction (filter (fun e => isArrayIndex (fst e)) o) as [|e l IH];
    [reflexivity|].
  cbn [fold_right]. rewrite insertIndex_perm. now constructor.
Qed.

Lemma distinctKeys_perm o o' :
  Permutation o o' -> distinctKeys o -> distinctKeys o'.
Proof.
  unfold distinctKeys. intros P H.
  eapply Permutation_NoDup; [|exact H]. now apply Permutation_map.
Qed.

(** X24.  Whatever the scripts were (an object, keys distinct), after the
    update [build] holds the fixed build command, [build:dev] exists,
    and every other script has the value it had and none is duplicated -
    except a script named [__proto__], which is lost: copying it by
    assignment creates no property. *)
Theorem update_sets_build_and_keeps_the_rest (o : object) :
  distinctKeys o ->
  getProp buildKey (updateScripts o) = Some buildScript
  /\ (exists v, getProp buildDevKey (updateScripts o) = Some v)
  /\ (forall k, k <> buildKey -> k <> buildDevKey -> k <> protoKey ->
        getProp k (updateScripts o) = getProp k o)
  /\ getProp protoKey (updateScripts o) = None
  /\ distinctKeys (updateScripts o).
Proof.
  intros Hnd. unfold updateScripts. rewrite assign_build.
  set (s1 := setProp buildKey buildScript o).
  assert (H1 : distinctKeys s1) by now apply distinctKeys_setProp.
  assert (He : distinctKeys (entries s1)).
  { eapply distinctKeys_perm; [|exact H1].
    symmetry. apply entries_perm. }
  assert (G : forall k, getProp k (entries s1) = getProp k s1).
  { intros k. apply getProp_perm; [apply entries_perm | exact He]. }
  split; [|split; [|split; [|split]]].
  - rewrite getProp_fold by (reflexivity || exact He).
    rewrite G. unfold s1. now rewrite getProp_setProp, eqs_refl.
  - apply getProp_present, buildDev_after_build.
    eapply Permutation_in; [apply Permutation_map; symmetry;
                            apply entries_perm|].
    unfold s1. rewrite keys_setProp. now left.
  - intros k Hb Hd Hp.
    rewrite getProp_fold by (now apply eqs_neq || exact He).
    rewrite G. unfold s1. rewrite getProp_setProp, eqs_neq by exact Hb.
    now destruct (getProp k o).
  - apply proto_fold.
  - apply distinctKeys_fold. constructor.
Qed.

Lemma plainKey_index k : plainKey k = true -> isArrayIndex k = false.
Proof.
  unfold plainKey. intros H. apply andb_true_iff in H as [H _].
  now apply negb_true_iff in H.
Qed.

Lemma plainKey_proto k : plainKey k = true -> eqs k protoKey = false.
Proof.
  unfold plainKey. intros H. apply andb_true_iff in H as [_ H].
  now apply negb_true_iff in H.
Qed.

Lemma fold_plain es acc :
  plainKeys es -> fold_left copyEntry es acc = fold_left copyPlain es acc.
Proof.
  revert acc. induction es as [|e es IH]; intros acc H; [reflexivity|].
  cbn [fold_left]. rewrite copyEntry_plain
    by (apply plainKey_proto, H; now left).
  apply IH. intros x Hx. apply H. now right.
Qed.

Lemma plainKeys_keys o :
  plainKeys o <-> forall k, In k (map fst o) -> plainKey k = true.
Proof.
  unfold plainKeys. split.
  - intros H k Hk. apply in_map_iff in Hk as [e [<- He]]. now apply H.
  - intros H e He. apply H. now apply in_map.
Qed.

Lemma entries_plain o : plainKeys o -> entries o = o.
Proof.
  intros H. unfold entries.
  replace (filter (fun e => isArrayIndex (fst e)) o) with (@nil (jsstring * json)).
  - cbn [fold_right app]. apply filter_all_kept.
    intros e He. now rewrite (plainKey_index _ (H e He)).
  - symmetry. induction o as [|e o IH]; [reflexivity|]. cbn [filter].
    rewrite (plainKey_index (fst e)) by (apply H; now left).
    apply IH. intros x Hx. apply H. now right.
Qed.

Lemma fold_fresh es acc :
  distinctKeys es ->
  (forall k, In k (map fst es) -> k <> buildKey /\ ~ In k (map fst acc)) ->
  fold_left copyPlain es acc = acc ++ es.
Proof.
  revert acc. induction es as [|[k v] es IH]; intros acc Hnd H.
  - now rewrite app_nil_r.
  - unfold distinctKeys in Hnd. cbn [map fst] in Hnd.
    inversion Hnd as [|? ? Hk Hnd']; subst.
    destruct (H k (or_introl eq_refl)) as [Hb Hf].
    cbn [fold_left]. unfold copyPlain at 2. cbv zeta. cbn [fst snd].
    rewrite (eqs_neq _ _ Hb), (setProp_fresh _ _ _ Hf).
    rewrite IH; [now rewrite <- app_assoc | exact Hnd' |].
    intros k' Hk'. destruct (H k' (or_intror Hk')) as [Hb' Hf'].
    split; [exact Hb'|]. rewrite map_app, in_app_iff. cbn.
    intros [E | [E | []]]; [now apply Hf'|]. subst k'. now apply Hk.
Qed.

Lemma fold_onto es A B k0 v0 :
  distinctKeys es -> ~ In k0 (map fst A) ->
  (forall k, In k (map fst es) ->
     k <> buildKey /\ ~ In k (map fst A) /\ ~ In k (map fst B)) ->
  fold_left copyPlain es (A ++ (k0, v0) :: B)
  = A ++ (k0, match getProp k0 es with Some v => v | None => v0 end)
      :: B ++ removeKey k0 es.
Proof.
  revert B v0. induction es as [|[k v] es IH]; intros B v0 Hnd H0 H.
  - cbn. now rewrite app_nil_r.
  - unfold distinctKeys in Hnd. cbn [map fst] in Hnd.
    inversion Hnd as [|? ? Hk Hnd']; subst.
    destruct (H k (or_introl eq_refl)) as [Hb [HA HB]].
    cbn [fold_left]. unfold copyPlain at 2. cbv zeta. cbn [fst snd].
    rewrite (eqs_neq _ _ Hb).
    assert (Hrest : forall B' : object, (forall x, In x (map fst B') ->
                                  In x (map fst B) \/ x = k) ->
              forall k', In k' (map fst es) ->
                k' <> buildKey /\ ~ In k' (map fst A)
                /\ ~ In k' (map fst B')).
    { intros B' HB' k' Hk'.
      destruct (H k' (or_intror Hk')) as [Hb' [HA' HB2]].
      split; [exact Hb'|]. split; [exact HA'|].
      intros Hin. destruct (HB' _ Hin) as [E | E]; [now apply HB2|].
      subst k'. now apply Hk. }
    unfold removeKey. cbn [getProp filter fst].
    destruct (eqs k0 k) eqn:E.
    + apply eqs_iff in E. subst k. rewrite setProp_at by exact H0.
      cbn [negb]. rewrite IH; [|exact Hnd' | exact H0 |].
      * now rewrite (getProp_absent _ _ Hk).
      * apply Hrest. auto.
    + cbn [negb].
      assert (Hne : k <> k0)
        by (intros ->; now rewrite eqs_refl in E).
      rewrite setProp_fresh.
      * rewrite <- app_assoc. cbn [app].
        rewrite IH; [|exact Hnd' | exact H0 |].
        -- now rewrite <- app_assoc.
        -- apply Hrest. intros x Hx. rewrite map_app, in_app_iff in Hx.
           cbn in Hx. destruct Hx as [Hx | [Hx | []]];
             [now left | right; now symmetry].
      * rewrite map_app, in_app_iff. cbn.
        intros [H1 | [H1 | H1]];
          [now apply HA | now apply Hne | now apply HB].
Qed.

(** The result of the loop on entries that hold [build]. *)
Lemma fold_layout pre post b :
  distinctKeys (pre ++ (buildKey, b) :: post) ->
  fold_left copyPlain (pre ++ (buildKey, b) :: post) []
  = if existsb (eqs buildDevKey) (map fst pre)
    then setProp buildDevKey buildDevScript pre ++ (buildKey, b) :: post
    else pre ++ (buildKey, b)
         :: (buildDevKey,
             match getProp buildDevKey post with
             | Some old => old
             | None => buildDevScript
             end)
         :: removeKey buildDevKey post.
Proof.
  intros Hnd. unfold distinctKeys in Hnd.
  rewrite map_app in Hnd. cbn [map fst] in Hnd.
  pose proof (NoDup_remove_1 _ _ _ Hnd) as Hpp.
  pose proof (NoDup_remove_2 _ _ _ Hnd) as Hb.
  assert (Hpre : NoDup (map fst pre)).
  { apply NoDup_app_remove_r in Hnd. exact Hnd. }
  assert (Hpost : NoDup (map fst post)).
  { apply NoDup_app_remove_l in Hnd. now inversion Hnd. }
  assert (Hdisj : forall k, In k (map fst post) ->
                    k <> buildKey /\ ~ In k (map fst pre)).
  { intros k Hk. split.
    - intros ->. apply Hb, in_or_app. now right.
    - intros Hin. revert Hpp. clear - Hk Hin.
      induction (map fst pre) as [|x l IH]; [destruct Hin|].
      cbn [app]. intros H. inversion H as [|? ? Hx Hl]; subst.
      destruct Hin as [-> | Hin']; [|now apply IH].
      apply Hx, in_or_app. now right. }
  assert (Hprefresh : forall k, In k (map fst pre) -> k <> buildKey).
  { intros k Hk ->. apply Hb, in_or_app. now left. }
  rewrite fold_left_app.
  rewrite (fold_fresh pre []);
    [|exact Hpre | intros k Hk; split; [now apply Hprefresh | intros []]].
  cbn [app fold_left]. unfold copyPlain at 2. cbv zeta. cbn [fst snd].
  rewrite eqs_refl.
  rewrite (setProp_fresh buildKey b pre)
    by (intros Hin; now apply (Hprefresh _ Hin)).
  destruct (existsb (eqs buildDevKey) (map fst pre)) eqn:E.
  - assert (Hin : In buildDevKey (map fst pre)).
    { apply existsb_exists in E as [x [Hx Ex]]. apply eqs_iff in Ex.
      now subst. }
    rewrite setProp_app_left by exact Hin.
    rewrite fold_fresh; [now rewrite <- app_assoc | exact Hpost |].
    intros k Hk. destruct (Hdisj k Hk) as [H1 H2]. split; [exact H1|].
    rewrite map_app, in_app_iff, keys_setProp. cbn [map fst In].
    intros [[E1 | Hin'] | [E1 | []]].
    + subst k. now apply H2.
    + now apply H2.
    + now apply H1.
  - assert (Hout : ~ In buildDevKey (map fst pre)).
    { intros Hin. assert (existsb (eqs buildDevKey) (map fst pre) = true);
        [|congruence].
      apply existsb_exists. exists buildDevKey. split; [exact Hin|].
      apply eqs_refl. }
    rewrite setProp_fresh.
    + rewrite (fold_onto post (pre ++ [(buildKey, b)]) [] buildDevKey
                 buildDevScript).
      * now rewrite <- app_assoc.
      * exact Hpost.
      * rewrite map_app, in_app_iff. cbn [map fst In].
        intros [H | [H | []]]; [now apply Hout | discriminate].
      * intros k Hk. destruct (Hdisj k Hk) as [H1 H2].
        split; [exact H1|]. split; [|intros []].
        rewrite map_app, in_app_iff. cbn [map fst In].
        intros [H | [H | []]]; [now apply H2 | now apply H1].
    + rewrite map_app, in_app_iff. cbn [map fst In].
      intros [H | [H | []]]; [now apply Hout | discriminate].
Qed.

Lemma plainKeys_setBuild o : plainKeys o -> plainKeys (setProp buildKey buildScript o).
Proof.
  rewrite !plainKeys_keys. intros H k Hk. apply keys_setProp in Hk.
  destruct Hk as [-> | Hk]; [reflexivity | now apply H].
Qed.

Lemma updateScripts_layout pre post :
  distinctKeys (pre ++ (buildKey, buildScript) :: post) ->
  plainKeys (pre ++ (buildKey, buildScript) :: post) ->
  fold_left copyEntry
    (entries (pre ++ (buildKey, buildScript) :: post)) []
  = updatedLayout pre post.
Proof.
  intros Hnd Hp. rewrite entries_plain by exact Hp.
  rewrite fold_plain by exact Hp. now rewrite fold_layout.
Qed.

Lemma plainKeys_layout pre post :
  plainKeys (pre ++ (buildKey, buildScript) :: post) ->
  plainKeys (updatedLayout pre post).
Proof.
  rewrite !plainKeys_keys. intros H k Hk.
  assert (G : forall x, In x (map fst pre) \/ In x (map fst post) ->
                plainKey x = true).
  { intros x Hx. apply H. rewrite map_app, in_app_iff. cbn. tauto. }
  unfold updatedLayout in Hk.
  destruct (existsb (eqs buildDevKey) (map fst pre)).
  - rewrite map_app, in_app_iff in Hk. cbn [map fst In] in Hk.
    rewrite keys_setProp in Hk.
    destruct Hk as [[-> | Hk] | [<- | Hk]]; try reflexivity; apply G; tauto.
  - rewrite map_app, in_app_iff in Hk. cbn [map fst In] in Hk.
    destruct Hk as [Hk | [<- | [<- | Hk]]]; try reflexivity;
      [apply G; tauto|].
    apply G. right. unfold removeKey in Hk.
    apply in_map_iff in Hk as [e [<- He]]. apply filter_In in He as [He _].
    now apply in_map.
Qed.

Lemma updateScripts_at o pre post b :
  distinctKeys o -> plainKeys o -> o = pre ++ (buildKey, b) :: post ->
  updateScripts o = updatedLayout pre post
  /\ ~ In buildKey (map fst pre)
  /\ plainKeys (updatedLayout pre post).
Proof.
  intros Hnd Hp ->. unfold updateScripts. rewrite assign_build.
  pose proof (distinctKeys_setProp buildKey buildScript _ Hnd) as H1.
  pose proof (plainKeys_setBuild _ Hp) as H2.
  assert (Hpre : ~ In buildKey (map fst pre)).
  { unfold distinctKeys in Hnd. rewrite map_app in Hnd.
    cbn [map fst] in Hnd. apply NoDup_remove_2 in Hnd.
    intros Hin. apply Hnd, in_or_app. now left. }
  rewrite setProp_at in * by exact Hpre.
  split; [now apply updateScripts_layout|]. split; [exact Hpre|].
  now apply plainKeys_layout.
Qed.

Lemma updateScripts_without o :
  distinctKeys o -> plainKeys o -> ~ In buildKey (map fst o) ->
  updateScripts o = updatedLayout o []
  /\ plainKeys (updatedLayout o []).
Proof.
  intros Hnd Hp Hout. unfold updateScripts. rewrite assign_build.
  pose proof (distinctKeys_setProp buildKey buildScript _ Hnd) as H1.
  pose proof (plainKeys_setBuild _ Hp) as H2.
  rewrite setProp_fresh in * by exact Hout.
  split; [now apply updateScripts_layout | now apply plainKeys_layout].
Qed.

(** X25.  Where [build:dev] ends up (scripts with distinct keys, none an
    array index or [__proto__]).  If [build:dev] was listed before [build], it stays
    there and takes the fixed development command.  Otherwise it is placed
    directly after [build]; it takes the fixed command when it is new, but
    keeps its old value when it was listed after [build] - the copy of the
    old entry overwrites the new one.  Without a [build] script, [build]
    is appended first. *)
Theorem update_layout (o pre post : object) (b : json) :
  distinctKeys o -> plainKeys o ->
  (o = pre ++ (buildKey, b) :: post ->
   updateScripts o = updatedLayout pre post)
  /\ (~ In buildKey (map fst o) -> updateScripts o = updatedLayout o []).
Proof.
  intros Hnd Hp. split.
  - intros E. now apply (updateScripts_at o pre post b).
  - intros Hout. now apply updateScripts_without.
Qed.

Lemma setProp_twice k v o : setProp k v (setProp k v o) = setProp k v o.
Proof.
  induction o as [|[k' v'] o IH]; cbn [setProp].
  - now rewrite eqs_refl.
  - destruct (eqs k k') eqn:E; cbn [setProp]; rewrite E; [reflexivity|].
    now rewrite IH.
Qed.

Lemma removeKey_twice k o : removeKey k (removeKey k o) = removeKey k o.
Proof.
  unfold removeKey. induction o as [|e o IH]; [reflexivity|].
  cbn [filter]. destruct (negb (eqs k (fst e))) eqn:E; [|exact IH].
  cbn [filter]. now rewrite E, IH.
Qed.

Lemma existsb_keys k o :
  existsb (eqs k) (map fst o) = true <-> In k (map fst o).
Proof.
  rewrite existsb_exists. split.
  - intros [x [Hx E]]. apply eqs_iff in E. now subst.
  - intros H. exists k. split; [exact H | apply eqs_refl].
Qed.

(** The layout is a fixed point of the update. *)
Lemma updatedLayout_fixed pre post :
  distinctKeys (updatedLayout pre post) ->
  plainKeys (updatedLayout pre post) ->
  ~ In buildKey (map fst pre) ->
  updateScripts (updatedLayout pre post) = updatedLayout pre post.
Proof.
  intros Hnd Hp Hpre. unfold updateScripts. rewrite assign_build.
  assert (S : setProp buildKey buildScript (updatedLayout pre post)
              = updatedLayout pre post).
  { unfold updatedLayout.
    destruct (existsb (eqs buildDevKey) (map fst pre)).
    - apply setProp_at. rewrite keys_setProp.
      intros [E | E]; [discriminate | now apply Hpre].
    - now apply setProp_at. }
  rewrite S. revert Hnd Hp. unfold updatedLayout.
  destruct (existsb (eqs buildDevKey) (map fst pre)) eqn:E; intros Hnd Hp.
  - rewrite updateScripts_layout by assumption. unfold updatedLayout.
    replace (existsb (eqs buildDevKey)
               (map fst (setProp buildDevKey buildDevScript pre)))
      with true
      by (symmetry; apply existsb_keys, keys_setProp; now left).
    now rewrite setProp_twice.
  - rewrite updateScripts_layout by assumption. unfold updatedLayout.
    rewrite E. cbn [getProp]. rewrite eqs_refl.
    unfold removeKey at 1. cbn [filter fst]. rewrite eqs_refl. cbn [negb].
    fold (removeKey buildDevKey (removeKey buildDevKey post)).
    now rewrite removeKey_twice.
Qed.

(** X26.  The update is idempotent (scripts with distinct keys, none an
    array index or [__proto__]): run on its own result it changes
    nothing. *)
Theorem update_is_idempotent (o : object) :
  distinctKeys o -> plainKeys o ->
  updateScripts (updateScripts o) = updateScripts o.
Proof.
  intros Hnd Hp.
  assert (Hd : distinctKeys (updateScripts o))
    by (apply distinctKeys_fold; constructor).
  destruct (in_dec (list_eq_dec N.eq_dec) buildKey (map fst o))
    as [Hin | Hout].
  - apply in_map_iff in Hin as [[k b] [Hk He]]. cbn in Hk. subst k.
    apply in_split in He as [pre [post E]].
    destruct (updateScripts_at o pre post b Hnd Hp E) as [L [Hpre HpR]].
    rewrite L in *. now apply updatedLayout_fixed.
  - destruct (updateScripts_without o Hnd Hp Hout) as [L HpR].
    rewrite L in *. apply updatedLayout_fixed; assumption.
Qed.

End ScriptsMore.

(** ** Report file names *)

Section NamesMore.

Lemma range_check (p : Z -> bool) (lo n : Z) :
  forallb p (map (fun i => (lo + Z.of_nat i)%Z) (seq 0 (Z.to_nat n))) = true ->
  forall z, (lo <= z < lo + n)%Z -> p z = true.
Proof.
  intros H z Hz. rewrite forallb_forall in H. apply H.
  apply in_map_iff. exists (Z.to_nat (z - lo)). split; [lia|].
  apply in_seq. lia.
Qed.

Lemma year_prints_back z :
  (1000 <= z <= 9999)%Z -> printsBack 4 numToString z = true.
Proof.
  intros H. apply (range_check (printsBack 4 numToString) 1000 9000).
  - vm_compute. reflexivity.
  - lia.
Qed.

Lemma field_prints_back z :
  (0 <= z <= 99)%Z ->
  printsBack 2 (fun x => padStart 2 (numToString x)) z = true.
Proof.
  intros H.
  apply (range_check (printsBack 2 (fun x => padStart 2 (numToString x)))
                     0 100).
  - vm_compute. reflexivity.
  - lia.
Qed.

Lemma printsBack_inj width print a b :
  printsBack width print a = true -> printsBack width print b = true ->
  print a = print b -> a = b.
Proof.
  unfold printsBack. intros Ha Hb E.
  apply andb_true_iff in Ha as [_ Ha]. apply andb_true_iff in Hb as [_ Hb].
  apply Z.eqb_eq in Ha, Hb. rewrite <- Ha, <- Hb. now rewrite E.
Qed.

Lemma printsBack_length width print a :
  printsBack width print a = true -> List.length (print a) = width.
Proof.
  unfold printsBack. intros H. apply andb_true_iff in H as [H _].
  now apply Nat.eqb_eq in H.
Qed.

Lemma app_same_length {A : Type} (a a' x y : list A) :
  List.length a = List.length a' -> a ++ x = a' ++ y -> a = a' /\ x = y.
Proof.
  revert a'. induction a as [|c a IH]; intros [|c' a'] Hl E;
    try discriminate.
  - now split.
  - cbn in Hl, E. injection E as -> E. injection Hl as Hl.
    destruct (IH a' Hl E) as [-> ->]. now split.
Qed.

Lemma endsWith_app s p : endsWith (s ++ p) p = true.
Proof.
  unfold endsWith. rewrite rev_app_distr. apply startsWith_iff.
  now exists (rev s).
Qed.

(** X27.  The name of a report file starts with [log-] and ends with
    [.log], so the history filters pick it up.  For calendar fields with a
    four-digit year it is 24 units long and it determines the minute: two
    instants get the same name only if year, month, day, hour and minute
    all agree. *)
Theorem report_name_determines_the_minute (a b : LocalTime) :
  startsWith (createLogFileName a) (lit "log-") = true
  /\ endsWith (createLogFileName a) (lit ".log") = true
  /\ (validTime a -> List.length (createLogFileName a) = 24%nat)
  /\ (validTime a -> validTime b ->
      createLogFileName a = createLogFileName b -> a = b).
Proof.
  split; [reflexivity|]. split.
  { unfold createLogFileName. rewrite !app_assoc. apply endsWith_app. }
  assert (F : forall t, validTime t ->
            printsBack 4 numToString (fullYear t) = true
            /\ printsBack 2 (fun x => padStart 2 (numToString x))
                 (monthIndex t + 1) = true
            /\ printsBack 2 (fun x => padStart 2 (numToString x))
                 (dayOfMonth t) = true
            /\ printsBack 2 (fun x => padStart 2 (numToString x))
                 (hours t) = true
            /\ printsBack 2 (fun x => padStart 2 (numToString x))
                 (minutes t) = true).
  { intros t [H1 [H2 [H3 [H4 H5]]]].
    split; [now apply year_prints_back|].
    repeat split; apply field_prints_back; lia. }
  split.
  - intros Ha. destruct (F a Ha) as [Y [M [D [H N]]]].
    apply printsBack_length in Y, M, D, H, N.
    unfold createLogFileName. rewrite !length_app.
    cbv beta in M, D, H, N. rewrite Y, M, D, H, N. reflexivity.
  - intros Ha Hb E.
    destruct (F a Ha) as [Ya [Ma [Da [Ha' Na]]]].
    destruct (F b Hb) as [Yb [Mb [Db [Hb' Nb]]]].
    unfold createLogFileName in E.
    apply app_inv_head in E.
    apply app_same_length in E as [Ey E];
      [|now rewrite (printsBack_length _ _ _ Ya),
                    (printsBack_length _ _ _ Yb)].
    apply app_inv_head in E.
    apply app_same_length in E as [Em E];
      [|now rewrite (printsBack_length _ _ _ Ma),
                    (printsBack_length _ _ _ Mb)].
    apply app_inv_head in E.
    apply app_same_length in E as [Ed E];
      [|now rewrite (printsBack_length _ _ _ Da),
                    (printsBack_length _ _ _ Db)].
    apply app_inv_head in E.
    apply app_same_length in E as [Eh E];
      [|now rewrite (printsBack_length _ _ _ Ha'),
                    (printsBack_length _ _ _ Hb')].
    apply app_inv_head in E.
    apply app_same_length in E as [En _];
      [|now rewrite (printsBack_length _ _ _ Na),
                    (printsBack_length _ _ _ Nb)].
    apply (printsBack_inj _ _ _ _ Ya Yb) in Ey.
    apply (printsBack_inj _ _ _ _ Ma Mb) in Em.
    apply (printsBack_inj _ _ _ _ Da Db) in Ed.
    apply (printsBack_inj _ _ _ _ Ha' Hb') in Eh.
    apply (printsBack_inj _ _ _ _ Na Nb) in En.
    destruct a, b. cbn in *. subst. f_equal. lia.
Qed.

End NamesMore.

(** ** The further properties at concrete inputs *)

Section MoreScenarios.

Lemma noneFollowed_sound w p s :
  noneFollowed w p s = true ->
  forall c, p c = true -> includes s (w ++ [c]) = false.
Proof.
  intros H c Hc. induction s as [|d s IH].
  - cbn [includes]. destruct w; reflexivity.
  - cbn [noneFollowed] in H. apply andb_true_iff in H as [H1 H2].
    cbn [includes]. rewrite (IH H2), orb_false_r.
    apply not_true_is_false. intros E.
    apply startsWith_iff in E as [t E].
    assert (S1 : startsWith (d :: s) w = true).
    { apply startsWith_iff. exists (c :: t). rewrite E.
      now rewrite <- app_assoc. }
    assert (S2 : nth_error (d :: s) (List.length w) = Some c).
    { rewrite E, <- app_assoc. rewrite nth_error_app2 by lia.
      now rewrite Nat.sub_diag. }
    rewrite S1, S2, Hc in H1. discriminate.
Defined.

Lemma flagged_results_are_free_of_noise_witness :
  includes (output (filterResult mixedOutput)) (lit "build-logger.js")
  = false
  /\ includes (stdout (filterResult mixedOutput)) (lit "build-logger.js")
     = false
  /\ includes (stderr (filterResult mixedOutput)) (lit "build-logger.js")
     = false.
Proof.
  apply (flagged_results_are_free_of_noise [mixedOutput] 0 mixedOutput
           (filterResult mixedOutput) (lit "build-logger.js")).
  - reflexivity.
  - reflexivity.
  - reflexivity.
  - vm_compute. reflexivity.
  - now left.
Defined.

Lemma no_failure_is_never_recurrent_witness :
  checkIfErrorIsRecurrent [passingCheck] (DirEntries historyDir) = false.
Proof.
  apply (no_failure_is_never_recurrent [passingCheck] (DirEntries historyDir)).
  reflexivity.
Defined.

Lemma repeated_failure_is_detected_witness :
  checkIfErrorIsRecurrent [failingTypeCheck] (DirEntries historyDir) = true.
Proof.
  apply (repeated_failure_is_detected sampleEnv
           (filterLogScriptErrors [failingTypeCheck]) [failingTypeCheck]
           false historyDir
           (mkLog (lit "log-2025-01-01-12-30.log") (Some 3000%Z)
              (Some failingReport))
           [mkLog (lit "log-2025-01-01-11-15.log") (Some 2000%Z)
              (Some passingReport);
            mkLog (lit "log-2025-01-01-09-00.log") (Some 1000%Z)
              (Some passingReport)]
           failingTypeCheck failingTypeCheck).
  - reflexivity.
  - reflexivity.
  - now left.
  - reflexivity.
  - reflexivity.
  - now left.
  - reflexivity.
  - reflexivity.
  - reflexivity.
Defined.

Lemma extraction_without_headings_witness :
  failedTests (extractErrorDetails passingReport) = []
  /\ (includes passingReport (lit "Detalhes do erro:") = false ->
      fullError (extractErrorDetails passingReport) = trim passingReport).
Proof.
  apply (extraction_without_headings passingReport).
  vm_compute. reflexivity.
Defined.

Lemma no_location_without_markers_witness :
  fileName (extractErrorDetails passingReport) = []
  /\ lineNumber (extractErrorDetails passingReport) = None.
Proof.
  apply (no_location_without_markers passingReport).
  - vm_compute. reflexivity.
  - apply noneFollowed_sound. vm_compute. reflexivity.
Defined.

Lemma context_window_witness :
  (List.length (contextLines sampleLines (Some (JNum 5))) <= 6)%nat
  /\ In (lit "line 5") (contextLines sampleLines (Some (JNum 5))).
Proof.
  assert (H : (1 <= 5)%Z) by lia.
  destruct (context_window sampleLines 5 H) as [_ [L [I _]]].
  split; [exact L|]. apply I. reflexivity.
Defined.

Lemma sampleScripts_distinct : distinctKeys sampleScripts.
Proof.
  unfold distinctKeys. apply distinctb_NoDup. vm_compute. reflexivity.
Defined.

Lemma sampleScripts_plain : plainKeys sampleScripts.
Proof.
  intros e [<- | [<- | [<- | [<- | []]]]]; reflexivity.
Defined.

Lemma update_sets_build_and_keeps_the_rest_witness :
  getProp buildKey (updateScripts sampleScripts) = Some buildScript
  /\ (exists v, getProp buildDevKey (updateScripts sampleScripts) = Some v)
  /\ (forall k, k <> buildKey -> k <> buildDevKey -> k <> protoKey ->
        getProp k (updateScripts sampleScripts) = getProp k sampleScripts)
  /\ getProp protoKey (updateScripts sampleScripts) = None
  /\ distinctKeys (updateScripts sampleScripts).
Proof.
  apply (update_sets_build_and_keeps_the_rest sampleScripts).
  exact sampleScripts_distinct.
Defined.

Lemma update_layout_witness :
  updateScripts sampleScripts
  = [(lit "dev", JString (lit "next dev"));
     (lit "build", buildScript);
     (lit "build:dev", JString (lit "next build --debug"));
     (lit "start", JString (lit "next start"))].
Proof.
  apply (proj1 (update_layout sampleScripts
                  [(lit "dev", JString (lit "next dev"))]
                  [(lit "start", JString (lit "next start"));
                   (lit "build:dev", JString (lit "next build --debug"))]
                  (JString (lit "next build"))
                  sampleScripts_distinct sampleScripts_plain)).
  reflexivity.
Defined.

Lemma update_is_idempotent_witness :
  updateScripts (updateScripts sampleScripts) = updateScripts sampleScripts.
Proof.
  apply (update_is_idempotent sampleScripts).
  - exact sampleScripts_distinct.
  - exact sampleScripts_plain.
Defined.


End MoreScenarios.
